(** * NYC Train Tracker: station cache, API client and presentation logic

    A shallow embedding of the TypeScript sources
      - [src/utils/api.ts]              (API client),
      - [src/findDepartures.tsx]        (station list, cache, favourites split),
      - [src/components/StationDepartures.tsx] (departure list),
      - [src/viewAlerts.tsx]            (alert list),
    followed by the properties of the specification checked against them and
    by further properties of the same code.

    JavaScript values are modelled as the code uses them: numbers that are
    integers at run time (clock readings, minutes, HTTP statuses) as [Z],
    strings as [string], the bytes of their UTF-8 text, [undefined] as [None],
    the documents received from the server as values of [Json], whatever
    their shape, since a type assertion does nothing at run time, the plain
    object that groups the departures as the list of its properties in the
    order they were created, which [Object.entries] lists with the array
    indices first, asynchronous functions as state passing over the
    observable world (clock, local storage, network requests, toasts) with
    abrupt completion for [throw], and a render that throws as an abrupt
    completion as well.  What the host provides and the sources do not fix
    is a parameter: the network, [Date.parse] and [Number] on a text in
    [Env], [localeCompare], and the helpers of [utils/dateUtils]. *)

From Stdlib Require Import ZArith Ascii String List Lia.
From stdpp Require Import base option list gmap strings sorting.

Local Open Scope Z_scope.

(** ** JavaScript primitives used by the sources *)

Module Js.

(** Truthiness of a string: every string but the empty one. *)
Definition truthy (s : string) : bool := negb (String.eqb s "").

(** [a || b] on strings. *)
Definition or_else (a b : string) : string := if truthy a then a else b.

Fixpoint startsWith (s sub : string) : bool :=
  match sub, s with
  | EmptyString, _ => true
  | String _ _, EmptyString => false
  | String c sub', String d s' => Ascii.eqb c d && startsWith s' sub'
  end.

(** [s.includes(sub)] *)
Fixpoint includes (s sub : string) : bool :=
  startsWith s sub ||
  match s with
  | EmptyString => false
  | String _ s' => includes s' sub
  end.

Definition lowerChar (c : ascii) : ascii :=
  let n := N_of_ascii c in
  if ((65 <=? n) && (n <=? 90))%N then ascii_of_N (n + 32) else c.

(** [s.toLowerCase()]; strings are sequences of UTF-8 bytes, so only the
    letters A-Z change.  No character outside ASCII lowers to a letter of
    the words the sources search for. *)
Fixpoint toLowerCase (s : string) : string :=
  match s with
  | EmptyString => EmptyString
  | String c s' => String (lowerChar c) (toLowerCase s')
  end.

(** *** Numbers and their decimal text *)

Definition digitChar (d : N) : ascii := ascii_of_N (48 + d).

(** Decimal digits, least significant first. *)
Fixpoint digitsLE (fuel : nat) (n : N) : list N :=
  match fuel with
  | O => []
  | S fuel' =>
      if (n <? 10)%N then [n]
      else (n mod 10)%N :: digitsLE fuel' (n / 10)%N
  end.

Definition digitsOf (n : N) : list N :=
  rev (digitsLE (S (N.to_nat (N.log2 n))) n).

Definition decimal (n : N) : string :=
  string_of_list_ascii (map digitChar (digitsOf n)).

(** [n.toString()] and [`${n}`] for an integer [n]. *)
Definition Number_toString (n : Z) : string :=
  if n <? 0 then String "-" (decimal (Z.to_N (- n))) else decimal (Z.to_N n).

Definition digitValue (c : ascii) : option N :=
  let n := N_of_ascii c in
  if ((48 <=? n) && (n <=? 57))%N then Some (n - 48)%N else None.

(** Reads the longest prefix of decimal digits; [seen] tells whether a digit
    was read already. *)
Fixpoint readDigits (acc : N) (seen : bool) (s : string) : option N :=
  match s with
  | EmptyString => if seen then Some acc else None
  | String c s' =>
      match digitValue c with
      | Some d => readDigits (10 * acc + d)%N true s'
      | None => if seen then Some acc else None
      end
  end.

(** The number of bytes of the white space or line terminator that [s]
    starts with, 0 when it starts with none.  These are the code points
    U+0009 to U+000D, U+0020, U+00A0, U+1680, U+2000 to U+200A, U+2028,
    U+2029, U+202F, U+205F, U+3000 and U+FEFF, in UTF-8. *)
Definition whiteSpaceBytes (s : string) : nat :=
  match s with
  | EmptyString => 0%nat
  | String c rest =>
      let n := N_of_ascii c in
      if ((9 <=? n) && (n <=? 13) || (n =? 32))%N then 1%nat
      else if (n =? 194)%N then
        match rest with
        | String d _ => if (N_of_ascii d =? 160)%N then 2%nat else 0%nat
        | _ => 0%nat
        end
      else if ((225 <=? n) && (n <=? 227) || (n =? 239))%N then
        match rest with
        | String d (String e _) =>
            let x := N_of_ascii d in
            let y := N_of_ascii e in
            if ((n =? 225) && (x =? 154) && (y =? 128) ||
                (n =? 226) && (x =? 128) &&
                  ((128 <=? y) && (y <=? 138) || (y =? 168) || (y =? 169) || (y =? 175)) ||
                (n =? 226) && (x =? 129) && (y =? 159) ||
                (n =? 227) && (x =? 128) && (y =? 128) ||
                (n =? 239) && (x =? 187) && (y =? 191))%N
            then 3%nat else 0%nat
        | _ => 0%nat
        end
      else 0%nat
  end.

Fixpoint dropBytes (n : nat) (s : string) : string :=
  match n, s with
  | S n', String _ s' => dropBytes n' s'
  | _, _ => s
  end.

Fixpoint trimStartWithin (fuel : nat) (s : string) : string :=
  match fuel with
  | O => s
  | S fuel' =>
      match whiteSpaceBytes s with
      | O => s
      | S k => trimStartWithin fuel' (dropBytes (S k) s)
      end
  end.

(** The text without the white space and line terminators it starts with. *)
Definition trimStart (s : string) : string := trimStartWithin (String.length s) s.

(** [parseInt(s, 10)]; [None] is NaN.  The value is the exact integer: the
    host rounds an integer of more than 2^53 to the nearest double, which no
    clock reading is. *)
Definition parseInt (s : string) : option Z :=
  match trimStart s with
  | String "-" s' => (fun n => - Z.of_N n) <$> readDigits 0 false s'
  | String "+" s' => Z.of_N <$> readDigits 0 false s'
  | s' => Z.of_N <$> readDigits 0 false s'
  end.

(** Truthiness of a number: neither NaN nor zero. *)
Definition truthyNumber (n : option Z) : bool :=
  match n with
  | Some v => negb (v =? 0)
  | None => false
  end.

(** *** [URLSearchParams] *)

Definition hexDigit (d : N) : ascii :=
  if (d <? 10)%N then ascii_of_N (48 + d) else ascii_of_N (55 + d).

Definition isUrlSafe (c : ascii) : bool :=
  let n := N_of_ascii c in
  ((48 <=? n) && (n <=? 57) || (65 <=? n) && (n <=? 90) ||
   (97 <=? n) && (n <=? 122) ||
   (n =? 42) || (n =? 45) || (n =? 46) || (n =? 95))%N.

(** The application/x-www-form-urlencoded byte serializer. *)
Fixpoint urlencode (s : string) : string :=
  match s with
  | EmptyString => EmptyString
  | String c s' =>
      let n := N_of_ascii c in
      if isUrlSafe c then String c (urlencode s')
      else if (n =? 32)%N then String "+" (urlencode s')
      else String "%" (String (hexDigit (n / 16)) (String (hexDigit (n mod 16)) (urlencode s')))
  end.

(** [params.toString()] for the pairs appended so far. *)
Fixpoint URLSearchParams_toString (params : list (string * string)) : string :=
  match params with
  | [] => ""
  | [(k, v)] => urlencode k +:+ "=" +:+ urlencode v
  | (k, v) :: rest =>
      urlencode k +:+ "=" +:+ urlencode v +:+ "&" +:+ URLSearchParams_toString rest
  end.

(** *** Dates

    [Date.parse] is a function of the host: the texts it reads beyond the
    date time string format, and the time zone it gives a text without one,
    differ between hosts.  The sources take it from the environment (see
    [Env]).  [parseTimestamp] is the parse function of the example
    environments: it reads the UTC form that [toISOString] writes for the
    years 0000 to 9999, [YYYY-MM-DDTHH:mm:ss.sssZ] (the milliseconds may be
    left out) with a day that the month has and a time of day before 24:00,
    which every host reads the same way, and gives the milliseconds since
    the epoch.  It reads no other text ([None] is the NaN time value), where
    a host may. *)

Definition twoDigits (a b : ascii) : option Z :=
  match digitValue a, digitValue b with
  | Some x, Some y => Some (Z.of_N (10 * x + y))
  | _, _ => None
  end.

Definition daysFromCivil (y m d : Z) : Z :=
  let y' := if m <=? 2 then y - 1 else y in
  let era := y' / 400 in
  let yoe := y' - era * 400 in
  let mp := if m <=? 2 then m + 9 else m - 3 in
  let doy := (153 * mp + 2) / 5 + d - 1 in
  let doe := yoe * 365 + yoe / 4 - yoe / 100 + doy in
  era * 146097 + doe - 719468.

Definition daysInMonth (y m : Z) : Z :=
  if m =? 2 then
    if ((y mod 4 =? 0) && negb (y mod 100 =? 0)) || (y mod 400 =? 0) then 29 else 28
  else if (m =? 4) || (m =? 6) || (m =? 9) || (m =? 11) then 30
  else 31.

Definition millisOfTail (s : string) : option Z :=
  match s with
  | String "Z" EmptyString => Some 0
  | String "." (String a (String b (String c (String "Z" EmptyString)))) =>
      match digitValue a, digitValue b, digitValue c with
      | Some x, Some y, Some z => Some (Z.of_N (100 * x + 10 * y + z))
      | _, _, _ => None
      end
  | _ => None
  end.

Definition parseTimestamp (s : string) : option Z :=
  match s with
  | String y1 (String y2 (String y3 (String y4 (String "-"
    (String m1 (String m2 (String "-" (String d1 (String d2 (String "T"
    (String h1 (String h2 (String ":" (String i1 (String i2 (String ":"
    (String s1 (String s2 tail)))))))))))))))))) =>
      yh ← twoDigits y1 y2; yl ← twoDigits y3 y4;
      mo ← twoDigits m1 m2; da ← twoDigits d1 d2;
      ho ← twoDigits h1 h2; mi ← twoDigits i1 i2;
      se ← twoDigits s1 s2; ms ← millisOfTail tail;
      if (1 <=? mo) && (mo <=? 12) && (1 <=? da) &&
         (da <=? daysInMonth (100 * yh + yl) mo) &&
         (ho <=? 23) && (mi <=? 59) && (se <=? 59)
      then Some ((((daysFromCivil (100 * yh + yl) mo da * 24 + ho) * 60 + mi) * 60 + se) * 1000 + ms)
      else None
  | _ => None
  end.

(** A [Date] object: its time value, [None] when the date is invalid. *)
Record Date := { timeValue : option Z }.

(** [TimeClip]: a time value is at most 8.64e15 milliseconds from the epoch. *)
Definition TimeClip (t : Z) : option Z :=
  if (-8640000000000000 <=? t) && (t <=? 8640000000000000) then Some t else None.

(** *** Numbers that [Number(...)] gives

    An integer is kept exactly.  [NoInteger] stands for every number that is
    neither an integer nor NaN, a fraction or an infinity: the sources only
    store such a number. *)
Inductive Num :=
| Int (n : Z)
| NaN
| NoInteger.

Fixpoint allDigits (s : string) : bool :=
  match s with
  | EmptyString => true
  | String c s' =>
      match digitValue c with
      | Some _ => allDigits s'
      | None => false
      end
  end.

(** [Number] on a text is a function of the host as well, taken from the
    environment.  [decimalNumber] is the conversion of the example
    environments: the empty text is zero and a text of decimal digits is the
    integer it denotes, as for every host.  It reads no other text, where a
    host does. *)
Definition decimalNumber (s : string) : Num :=
  if allDigits s then
    match s with
    | EmptyString => Int 0
    | _ =>
        match readDigits 0 false s with
        | Some n => Int (Z.of_N n)
        | None => NaN
        end
    end
  else NaN.

End Js.

(** [parts.join(sep)] *)
Fixpoint Array_join (sep : string) (parts : list string) : string :=
  match parts with
  | [] => ""
  | [p] => p
  | p :: rest => p +:+ sep +:+ Array_join sep rest
  end.

(** ** JSON documents and the types of [src/types.ts] *)

(** A parsed JSON document.  The members of an object are listed in insertion
    order, one entry per key. *)
#[warnings="-register-all"]
Inductive Json :=
| JNull
| JBool (b : bool)
| JNum (n : Z)
| JStr (s : string)
| JArr (items : list Json)
| JObj (members : list (string * Json)).

Fixpoint assoc {A : Type} (k : string) (l : list (string * A)) : option A :=
  match l with
  | [] => None
  | (k', v) :: rest => if String.eqb k k' then Some v else assoc k rest
  end.

(** [d[k]] for the property names the sources read; [None] is [undefined].
    Arrays and primitive values have none of them. *)
Definition member (k : string) (d : Json) : option Json :=
  match d with
  | JObj members => assoc k members
  | _ => None
  end.

Definition stringMember (k : string) (d : Json) : option string :=
  match member k d with
  | Some (JStr s) => Some s
  | _ => None
  end.

Definition numberMember (k : string) (d : Json) : option Z :=
  match member k d with
  | Some (JNum n) => Some n
  | _ => None
  end.

Definition stringsMember (k : string) (d : Json) : option (list string) :=
  match member k d with
  | Some (JArr items) =>
      Some (omap (fun i => match i with JStr s => Some s | _ => None end) items)
  | _ => None
  end.

Record Station := {
  id : string;
  name : string;
  latitude : option Z;
  longitude : option Z;
  system : option string;
  lines : option (list string)
}.

Inductive FilterableSystem := LIRR | SUBWAY | MNR.

Definition systemName (s : FilterableSystem) : string :=
  match s with
  | LIRR => "LIRR"
  | SUBWAY => "SUBWAY"
  | MNR => "MNR"
  end.

(** *** Values

    The type assertion [data as T] is erased at run time: what the code holds
    after it is the document, whatever its shape, and a property that the
    document does not have reads as [undefined], which is [None] here.  The
    numbers of a document are integers that [JSON.parse] reads exactly and
    that are written without exponent, of magnitude below 2^53. *)

(** Truthiness of a value. *)
Definition truthyValue (v : option Json) : bool :=
  match v with
  | None | Some JNull => false
  | Some (JBool b) => b
  | Some (JNum n) => negb (n =? 0)
  | Some (JStr s) => Js.truthy s
  | Some (JArr _) | Some (JObj _) => true
  end.

(** [String(d)]: the text of [d] in a template literal and as a property
    name.  An array is the texts of its elements joined by commas, [null]
    giving the empty text there; an object is [[object Object]]; the text of
    a number is the decimal one, as for every integer below 10^21. *)
Fixpoint ToString (d : Json) : string :=
  match d with
  | JNull => "null"
  | JBool true => "true"
  | JBool false => "false"
  | JNum n => Js.Number_toString n
  | JStr s => s
  | JArr items =>
      Array_join ","
        (map (fun item => match item with JNull => "" | _ => ToString item end) items)
  | JObj _ => "[object Object]"
  end.

(** The text of a value that may be [undefined]. *)
Definition textOf (v : option Json) : string :=
  match v with
  | Some d => ToString d
  | None => "undefined"
  end.

(** [ProcessedDeparture]: the received departure, spread into the new object
    and kept here as [raw], with the three properties that [fetchDepartures]
    sets.  [p_delayMinutes] and [p_departureTime] are [None] for [null]. *)
Record ProcessedDeparture := {
  raw : Json;
  p_departureTime : option Js.Date;
  systemRouteId : string;
  p_delayMinutes : option Js.Num
}.

(** The state of the station list holds the document received as
    [Station[]].  The embedding keeps its reading as a list of stations:
    [as_type] is the reading of a document at type [T], exact for an array of
    station objects, which is what the properties of the list are about. *)
Class Asserted (T : Type) := as_type : Json → T.

Definition asStation (d : Json) : Station :=
  {| id := default "" (stringMember "id" d);
     name := default "" (stringMember "name" d);
     latitude := numberMember "latitude" d;
     longitude := numberMember "longitude" d;
     system := stringMember "system" d;
     lines := stringsMember "lines" d |}.

Definition asArray {T : Type} (f : Json → T) (d : Json) : list T :=
  match d with
  | JArr items => map f items
  | _ => []
  end.

#[global] Instance Asserted_Json : Asserted Json := fun d => d.
#[global] Instance Asserted_Stations : Asserted (list Station) := asArray asStation.

(** ** The observable world and asynchronous code *)

Inductive ToastStyle := Animated | Success | Failure.

Record Toast := {
  style : ToastStyle;
  title : string;
  message : option string
}.

(** An item of the local storage: a string.  [Serialized l] is the text that
    [JSON.stringify] gives for the received station list, a document whose
    reading is [l], and [JSON.parse] reads it back; it is never the empty
    string, and the sources write it under the cache key only. *)
Inductive Item :=
| Text (s : string)
| Serialized (stations : list Station).

Definition JSON_stringify (stations : list Station) : Item := Serialized stations.

(** [JSON.parse]; [None] when it throws.  The cache key only ever holds what
    [JSON.stringify] wrote; any other text is read as not being a station
    list. *)
Definition JSON_parse (i : Item) : option (list Station) :=
  match i with
  | Serialized l => Some l
  | Text _ => None
  end.

Definition itemTruthy (i : Item) : bool :=
  match i with
  | Text s => Js.truthy s
  | Serialized _ => true
  end.

Definition itemParseInt (i : Item) : option Z :=
  match i with
  | Text s => Js.parseInt s
  | Serialized _ => None
  end.

Record World := {
  clock : Z;
  storage : gmap string Item;
  requests : list string;
  toasts : list Toast
}.

(** What can be thrown. *)
Inductive Exn :=
| APIError (msg : string) (statusCode : option Z)
| Error (msg : string)
| NonError.

Definition instanceofError (e : Exn) : option string :=
  match e with
  | APIError msg _ => Some msg
  | Error msg => Some msg
  | NonError => None
  end.

Inductive Completion (A : Type) :=
| Normal (a : A)
| Abrupt (e : Exn).
Arguments Normal {A} a.
Arguments Abrupt {A} e.

#[global] Instance Completion_fmap : FMap Completion :=
  fun A B f c =>
    match c with
    | Normal a => Normal (f a)
    | Abrupt e => Abrupt e
    end.

(** The state a handler runs over: the world and the component's own state. *)
Record State (V : Type) := { world : World; view : V }.
Arguments world {V} _.
Arguments view {V} _.

Definition Async (V A : Type) : Type := State V → Completion A * State V.

Section Monad.
Context {V : Type}.

Definition ret {A} (a : A) : Async V A := fun st => (Normal a, st).

Definition bind {A B} (m : Async V A) (k : A → Async V B) : Async V B :=
  fun st =>
    match m st with
    | (Normal a, st') => k a st'
    | (Abrupt e, st') => (Abrupt e, st')
    end.

Definition throw {A} (e : Exn) : Async V A := fun st => (Abrupt e, st).

(** [try { body } catch (e) { handler }] *)
Definition try_catch {A} (body : Async V A) (handler : Exn → Async V A) : Async V A :=
  fun st =>
    match body st with
    | (Normal a, st') => (Normal a, st')
    | (Abrupt e, st') => handler e st'
    end.

(** [try { body } finally { fin }], for a [fin] that does not throw. *)
Definition try_finally {A} (body : Async V A) (fin : Async V unit) : Async V A :=
  fun st =>
    match body st with
    | (r, st') => (r, snd (fin st'))
    end.

Definition modifyWorld (f : World → World) : Async V unit :=
  fun st => (Normal tt, {| world := f (world st); view := view st |}).

Definition getView : Async V V := fun st => (Normal (view st), st).

Definition setView (f : V → V) : Async V unit :=
  fun st => (Normal tt, {| world := world st; view := f (view st) |}).

(** [Date.now()] *)
Definition Date_now : Async V Z := fun st => (Normal (clock (world st)), st).

Definition showToast (t : Toast) : Async V unit :=
  modifyWorld (fun w =>
    {| clock := clock w; storage := storage w; requests := requests w;
       toasts := toasts w ++ [t] |}).

(** *** [LocalStorage] *)

Definition LocalStorage_getItem (key : string) : Async V (option Item) :=
  fun st => (Normal (storage (world st) !! key), st).

Definition LocalStorage_setItem (key : string) (value : Item) : Async V unit :=
  modifyWorld (fun w =>
    {| clock := clock w; storage := <[key := value]> (storage w);
       requests := requests w; toasts := toasts w |}).

Definition LocalStorage_removeItem (key : string) : Async V unit :=
  modifyWorld (fun w =>
    {| clock := clock w; storage := delete key (storage w);
       requests := requests w; toasts := toasts w |}).
End Monad.

Declare Scope async_scope.
Delimit Scope async_scope with async.
Notation "x <~ m ;; k" := (bind m (fun x => k))
  (at level 100, m at next level, right associativity) : async_scope.
Notation "m ;;; k" := (bind m (fun _ => k))
  (at level 100, right associativity) : async_scope.

(** ** The API client, [src/utils/api.ts] *)

(** What the server sends back: the status line, the [content-type] header
    and the outcome of [response.json()] (the message of the rejection, or
    the parsed document). *)
Record Response := {
  http_status : Z;
  contentType : option string;
  body : string + Json
}.

(** [response.ok] *)
Definition ok (r : Response) : bool := (200 <=? http_status r) && (http_status r <=? 299).

Inductive Reply :=
| Unreachable (reason : string)
| Answer (r : Response).

(** One exchange with the network: how long it took and how it ended. *)
Record Exchange := { elapsed : Z; outcome : Reply }.

(** The environment of the extension: the [API_URL] variable; the network,
    which answers a request made at a clock reading for a URL; and the two
    conversions of the host that the sources apply to received values,
    [Date.parse] ([None] is NaN) and [Number] on a text. *)
Record Env := {
  API_URL : option string;
  network : Z → string → Exchange;
  Date_parse : string → option Z;
  StringToNumber : string → Js.Num
}.

(** [Number(v)].  An array or an object is converted through its text. *)
Definition ToNumber (env : Env) (v : option Json) : Js.Num :=
  match v with
  | None => Js.NaN
  | Some JNull => Js.Int 0
  | Some (JBool b) => Js.Int (if b then 1 else 0)
  | Some (JNum n) => Js.Int n
  | Some (JStr s) => StringToNumber env s
  | Some (JArr _ as d) | Some (JObj _ as d) => StringToNumber env (ToString d)
  end.

(** [new Date(v)].  A number is the time value itself, a text is parsed, an
    array or an object is parsed through its text. *)
Definition new_Date (env : Env) (v : option Json) : Js.Date :=
  {| Js.timeValue :=
       match v with
       | None => None
       | Some JNull => Some 0
       | Some (JBool b) => Some (if b then 1 else 0)
       | Some (JNum n) => Js.TimeClip n
       | Some (JStr s) => Date_parse env s
       | Some (JArr _ as d) | Some (JObj _ as d) => Date_parse env (ToString d)
       end |}.

(** [items.map(f)] for an [f] that may throw. *)
Fixpoint Array_map {A B : Type} (f : A → Completion B) (items : list A)
  : Completion (list B) :=
  match items with
  | [] => Normal []
  | item :: rest =>
      match f item with
      | Abrupt e => Abrupt e
      | Normal b =>
          match Array_map f rest with
          | Abrupt e => Abrupt e
          | Normal bs => Normal (b :: bs)
          end
      end
  end.

Inductive Source := scheduled | realtime.

Definition sourceName (s : Source) : string :=
  match s with
  | scheduled => "scheduled"
  | realtime => "realtime"
  end.

Definition isErrorResponse (data : Json) : bool :=
  match data with
  | JArr _ | JObj _ =>
      match member "error" data with
      | Some (JObj _ as err) | Some (JArr _ as err) =>
          match member "message" err with
          | Some (JStr _) => true
          | _ => false
          end
      | _ => false
      end
  | _ => false
  end.

(** [data.error.message], read after [isErrorResponse] has answered yes. *)
Definition envelopeMessage (data : Json) : string :=
  default "" (err ← member "error" data; stringMember "message" err).

(** The object that the callback of [rawDepartures.map] builds from a
    departure that is not [null]. *)
Definition converted (env : Env) (dep : Json) : ProcessedDeparture :=
  {| raw := dep;
     p_departureTime :=
       if truthyValue (member "departureTime" dep)
       then Some (new_Date env (member "departureTime" dep))
       else None;
     systemRouteId :=
       if truthyValue (member "routeId" dep)
       then textOf (member "system" dep) +:+ "-" +:+ textOf (member "routeId" dep)
       else "";
     p_delayMinutes :=
       if truthyValue (member "delayMinutes" dep)
       then Some (ToNumber env (member "delayMinutes" dep))
       else None |}.

(** The callback of [rawDepartures.map]: reading a property of [null]
    throws a TypeError. *)
Definition processDeparture (env : Env) (dep : Json) : Completion ProcessedDeparture :=
  match dep with
  | JNull => Abrupt (Error "Cannot read properties of null (reading 'departureTime')")
  | _ => Normal (converted env dep)
  end.

(** The request path that [fetchDepartures] builds. *)
Definition departuresEndpoint
    (stationId : string) (limitMinutes : option Z) (source : option Source) : string :=
  let endpoint := "/departures/" +:+ stationId in
  let endpoint :=
    match limitMinutes with
    | Some l =>
        if Js.truthyNumber (Some l) && (0 <? l)
        then endpoint +:+ "?limitMinutes=" +:+ Js.Number_toString l
        else endpoint
    | None => endpoint
    end in
  match source with
  | Some s => endpoint +:+ "&source=" +:+ sourceName s
  | None => endpoint
  end.

(** The request path that [fetchStations] builds; [now] is the reading of
    [Date.now()] that a forced refresh appends. *)
Definition stationsEndpoint
    (query : option string) (system : option FilterableSystem) (forceRefresh : bool)
    (now : Z) : string :=
  let params := [] in
  let params :=
    match query with
    | Some q => if Js.truthy q then params ++ [("q", q)] else params
    | None => params
    end in
  let params :=
    match system with
    | Some s => params ++ [("system", systemName s)]
    | None => params
    end in
  let params :=
    if forceRefresh then params ++ [("_", Js.Number_toString now)] else params in
  let queryString := Js.URLSearchParams_toString params in
  if Js.truthy queryString then "/stations" +:+ "?" +:+ queryString else "/stations".

(** The world after a request for [url] that took [dt]. *)
Definition afterRequest (url : string) (dt : Z) (w : World) : World :=
  {| clock := clock w + dt; storage := storage w;
     requests := requests w ++ [url]; toasts := toasts w |}.

Section Api.
Context {V : Type} (env : Env).
Local Open Scope async_scope.

Definition API_BASE_URL : string :=
  match API_URL env with
  | Some u => Js.or_else u "http://localhost:3000/api/v1"
  | None => "http://localhost:3000/api/v1"
  end.

(** [fetch(url, ...)]: the request is recorded, time passes, and the promise
    resolves with the response or rejects. *)
Definition fetch (url : string) : Async V Response :=
  fun st =>
    let w := world st in
    let x := network env (clock w) url in
    let st' := {| world := afterRequest url (elapsed x) w; view := view st |} in
    match outcome x with
    | Unreachable reason => (Abrupt (Error reason), st')
    | Answer r => (Normal r, st')
    end.

(** [response.json()] *)
Definition response_json (r : Response) : Async V Json :=
  match body r with
  | inl why => throw (Error why)
  | inr data => ret data
  end.

Definition fetchFromWrapper {T} `{Asserted T} (endpoint : string) : Async V T :=
  let url := API_BASE_URL +:+ endpoint in
  try_catch
    (response <~ fetch url ;;
     let contentType := contentType response in
     if match contentType with
        | Some ct => negb (Js.truthy ct) || negb (Js.includes ct "application/json")
        | None => true
        end
     then throw (APIError "Invalid response format received from server." (Some (http_status response)))
     else
       data <~ response_json response ;;
       if negb (ok response) then
         if isErrorResponse data then
           throw (APIError
                    (Js.or_else (envelopeMessage data)
                       ("HTTP error! status: " +:+ Js.Number_toString (http_status response)))
                    (Some (http_status response)))
         else
           throw (APIError ("HTTP error! status: " +:+ Js.Number_toString (http_status response))
                    (Some (http_status response)))
       else if isErrorResponse data then
         throw (APIError (envelopeMessage data) (Some (http_status response)))
       else ret (as_type data))
    (fun error =>
       match error with
       | APIError _ _ => throw error
       | Error msg => throw (APIError msg None)
       | NonError => throw (APIError "An unknown network error occurred." None)
       end).

(** What [fetchStations] returns is the document, asserted to be
    [Station[]]. *)
Definition fetchStations
    (query : option string) (system : option FilterableSystem) (forceRefresh : bool)
  : Async V Json :=
  now <~ Date_now ;;
  fetchFromWrapper (T:=Json) (stationsEndpoint query system forceRefresh now).

(** A synchronous computation inside an asynchronous function. *)
Definition await {A} (c : Completion A) : Async V A := fun st => (c, st).

(** [rawDepartures.map] throws a TypeError when the document is no array;
    the texts of the errors are those of V8. *)
Definition fetchDepartures
    (stationId : string) (limitMinutes : option Z) (source : option Source)
  : Async V (list ProcessedDeparture) :=
  if negb (Js.truthy stationId) then ret []
  else
    let endpoint := departuresEndpoint stationId limitMinutes source in
    rawDepartures <~ fetchFromWrapper (T:=Json) endpoint ;;
    processedDepartures <~
      match rawDepartures with
      | JArr items => await (Array_map (processDeparture env) items)
      | JNull => throw (Error "Cannot read properties of null (reading 'map')")
      | _ => throw (Error "rawDepartures.map is not a function")
      end ;;
    ret processedDepartures.
End Api.

Definition initialWorld (now : Z) : World :=
  {| clock := now; storage := ∅; requests := []; toasts := [] |}.

(** ** [Array.prototype.sort]

    The sort is stable, and for a consistent comparison function its result
    is the one of every stable sorting algorithm; the embedding inserts each
    element, from the last to the first, before the first element it does not
    have to follow. *)
Section Sort.
Context {A : Type} (comparefn : A → A → Z).

Fixpoint insertInOrder (x : A) (l : list A) : list A :=
  match l with
  | [] => [x]
  | y :: l' => if 0 <? comparefn x y then y :: insertInOrder x l' else x :: y :: l'
  end.

Fixpoint Array_sort (l : list A) : list A :=
  match l with
  | [] => []
  | x :: l' => insertInOrder x (Array_sort l')
  end.
End Sort.

(** ** The station list, [src/findDepartures.tsx] (the revision with the cache) *)

Inductive SystemFilterValue :=
| All
| Only (s : FilterableSystem).

Definition systemFilters : list SystemFilterValue :=
  [All; Only SUBWAY; Only LIRR; Only MNR].

Definition filterValueToApiParam (filter : SystemFilterValue) : option FilterableSystem :=
  match filter with
  | All => None
  | Only s => Some s
  end.

Definition STATION_LIST_CACHE_KEY : string := "cachedStationList".
Definition STATION_LIST_TIMESTAMP_KEY : string := "cachedStationListTimestamp".
Definition STATION_LIST_CACHE_TTL : Z := 7 * 24 * 60 * 60 * 1000.

(** The state of [FindDeparturesCommand]. *)
Record FindView := {
  searchText : string;
  selectedSystem : SystemFilterValue;
  allStations : list Station;
  isLoading : bool
}.

Definition setAllStations (stations : list Station) (v : FindView) : FindView :=
  {| searchText := searchText v; selectedSystem := selectedSystem v;
     allStations := stations; isLoading := isLoading v |}.

Definition setIsLoading (b : bool) (v : FindView) : FindView :=
  {| searchText := searchText v; selectedSystem := selectedSystem v;
     allStations := allStations v; isLoading := b |}.

Definition setSearchText (t : string) (v : FindView) : FindView :=
  {| searchText := t; selectedSystem := selectedSystem v;
     allStations := allStations v; isLoading := isLoading v |}.

Definition setSelectedSystem (f : SystemFilterValue) (v : FindView) : FindView :=
  {| searchText := searchText v; selectedSystem := f;
     allStations := allStations v; isLoading := isLoading v |}.

Definition initialFindView : FindView :=
  {| searchText := ""; selectedSystem := All; allStations := []; isLoading := true |}.

Section FindDepartures.
Context (env : Env).
Local Open Scope async_scope.

Definition loadStations (currentSearchText : string) (systemFilterValue : SystemFilterValue)
  : Async FindView unit :=
  setView (setIsLoading true) ;;;
  let apiSystemFilter := filterValueToApiParam systemFilterValue in
  try_finally
    (try_catch
       (timestampStr <~ LocalStorage_getItem STATION_LIST_TIMESTAMP_KEY ;;
        let timestamp :=
          match timestampStr with
          | Some i => if itemTruthy i then itemParseInt i else Some 0
          | None => Some 0
          end in
        now <~ Date_now ;;
        let fetchAndCache :=
          stations <~ fetchStations env (Some currentSearchText) apiSystemFilter false ;;
          later <~ Date_now ;;
          LocalStorage_setItem STATION_LIST_CACHE_KEY (JSON_stringify (as_type stations)) ;;;
          LocalStorage_setItem STATION_LIST_TIMESTAMP_KEY (Text (Js.Number_toString later)) ;;;
          setView (setAllStations (as_type stations)) in
        if Js.truthyNumber timestamp &&
           match timestamp with
           | Some t => now - t <? STATION_LIST_CACHE_TTL
           | None => false
           end
        then
          cachedData <~ LocalStorage_getItem STATION_LIST_CACHE_KEY ;;
          match cachedData with
          | Some i =>
              if itemTruthy i then
                match JSON_parse i with
                | Some stations =>
                    setView (setAllStations stations) ;;;
                    setView (setIsLoading false)
                | None => throw (Error "Unexpected token in JSON")
                end
              else fetchAndCache
          | None => fetchAndCache
          end
        else fetchAndCache)
       (fun err =>
          let message := default "Could not load station data." (instanceofError err) in
          showToast {| style := Failure; title := "Error Loading Stations";
                       message := Some message |} ;;;
          setView (setAllStations [])))
    (setView (setIsLoading false)).

(** The read of [stations.length] in the message that [handleRefresh] logs:
    it throws a TypeError when the document is [null], and gives a number or
    [undefined] for every other document. *)
Definition readLength (stations : Json) : Async FindView unit :=
  match stations with
  | JNull => throw (Error "Cannot read properties of null (reading 'length')")
  | _ => ret tt
  end.

Definition handleRefresh : Async FindView unit :=
  showToast {| style := Animated; title := "Refreshing station list..."; message := None |} ;;;
  try_finally
    (try_catch
       (LocalStorage_removeItem STATION_LIST_CACHE_KEY ;;;
        LocalStorage_removeItem STATION_LIST_TIMESTAMP_KEY ;;;
        setView (setIsLoading true) ;;;
        v <~ getView ;;
        let apiSystemFilter := filterValueToApiParam (selectedSystem v) in
        stations <~ fetchStations env (Some (searchText v)) apiSystemFilter true ;;
        readLength stations ;;;
        later <~ Date_now ;;
        LocalStorage_setItem STATION_LIST_CACHE_KEY (JSON_stringify (as_type stations)) ;;;
        LocalStorage_setItem STATION_LIST_TIMESTAMP_KEY (Text (Js.Number_toString later)) ;;;
        setView (setAllStations (as_type stations)) ;;;
        showToast {| style := Success; title := "Station list refreshed"; message := None |})
       (fun error =>
          showToast {| style := Failure; title := "Failed to refresh station list";
                       message := Some (default "Unknown error" (instanceofError error)) |}))
    (setView (setIsLoading false)).
End FindDepartures.

(** Modelled from the spec: the [useFavorites] hook ([src/hooks/useFavorites])
    is not among the sources; the favourites are a set of station identifiers
    and [isFavorite] is a pure lookup in it. *)
Definition isFavorite (favorites : gset string) (stationId : string) : bool :=
  bool_decide (stationId ∈ favorites).

Section Partition.
(** [String.prototype.localeCompare], a function of the host. *)
Context (localeCompare : string → string → Z).

Definition compareByName (a b : Station) : Z := localeCompare (name a) (name b).

(** The [forEach] that pushes each station to one of the two arrays. *)
Definition splitStations (favorite : string → bool) (stations : list Station)
  : list Station * list Station :=
  fold_left
    (fun acc station =>
       if favorite (id station)
       then (fst acc ++ [station], snd acc)
       else (fst acc, snd acc ++ [station]))
    stations ([], []).

(** The [useMemo] that gives [favoriteStations] and [otherStations]. *)
Definition favoriteAndOtherStations (favorites : gset string) (stations : list Station)
  : list Station * list Station :=
  let split := splitStations (isFavorite favorites) stations in
  (Array_sort compareByName (fst split), Array_sort compareByName (snd split)).
End Partition.

(** ** The departure list, [src/components/StationDepartures.tsx] *)

Inductive Icon := Icon_Clock | Icon_XMarkCircle | Icon_CheckCircle.
Inductive Color := Color_Yellow | Color_Red | Color_Green.

(** A [List.Item.Accessory]: its text and, when it has one, its tinted icon. *)
Record Accessory := {
  text : string;
  icon : option (Icon * Color)
}.

Definition timeLimitOptions : list (string * Z) :=
  [("Next 10 Minutes", 10); ("Next 30 Minutes", 30); ("Next Hour", 60);
   ("Next 2 Hours", 120); ("Show All", 0)].

Definition getStatusAccessory (status : string) : Accessory :=
  let lowerStatus := Js.toLowerCase status in
  if Js.includes lowerStatus "delay"
  then {| text := status; icon := Some (Icon_Clock, Color_Yellow) |}
  else if Js.includes lowerStatus "cancel"
  then {| text := status; icon := Some (Icon_XMarkCircle, Color_Red) |}
  else if Js.includes lowerStatus "on time"
  then {| text := "On Time"; icon := Some (Icon_CheckCircle, Color_Green) |}
  else {| text := status; icon := None |}.

(** [getStatusAccessory(dep.status)]: [status.toLowerCase()] throws a
    TypeError when the status is no text. *)
Definition statusAccessory (status : option Json) : Completion Accessory :=
  match status with
  | Some (JStr s) => Normal (getStatusAccessory s)
  | None => Abrupt (Error "Cannot read properties of undefined (reading 'toLowerCase')")
  | Some JNull => Abrupt (Error "Cannot read properties of null (reading 'toLowerCase')")
  | Some _ => Abrupt (Error "status.toLowerCase is not a function")
  end.

(** The [station] property of the component. *)
Record StationProps := {
  station_id : string;
  station_name : string;
  station_system : FilterableSystem
}.

(** The state of [StationDepartures]. *)
Record DeparturesView := {
  departuresLoading : bool;
  selectedLimit : Z;
  processedDepartures : list ProcessedDeparture;
  error : option string
}.

Definition setDeparturesLoading (b : bool) (v : DeparturesView) : DeparturesView :=
  {| departuresLoading := b; selectedLimit := selectedLimit v;
     processedDepartures := processedDepartures v; error := error v |}.

Definition setSelectedLimit (l : Z) (v : DeparturesView) : DeparturesView :=
  {| departuresLoading := departuresLoading v; selectedLimit := l;
     processedDepartures := processedDepartures v; error := error v |}.

Definition setProcessedDepartures (ds : list ProcessedDeparture) (v : DeparturesView)
  : DeparturesView :=
  {| departuresLoading := departuresLoading v; selectedLimit := selectedLimit v;
     processedDepartures := ds; error := error v |}.

Definition setError (e : option string) (v : DeparturesView) : DeparturesView :=
  {| departuresLoading := departuresLoading v; selectedLimit := selectedLimit v;
     processedDepartures := processedDepartures v; error := e |}.

(** [useState(limitMinutes || 60)] and the other initial values. *)
Definition initialDeparturesView (limitMinutes : option Z) : DeparturesView :=
  {| departuresLoading := true;
     selectedLimit :=
       match limitMinutes with
       | Some l => if Js.truthyNumber (Some l) then l else 60
       | None => 60
       end;
     processedDepartures := [];
     error := None |}.

(** [dep.destinationBorough || "Outbound"], as the property name that the
    [reduce] uses it for. *)
Definition boroughOf (dep : ProcessedDeparture) : string :=
  if truthyValue (member "destinationBorough" (raw dep))
  then textOf (member "destinationBorough" (raw dep))
  else "Outbound".

(** *** The accumulator of the [reduce], a plain object

    The object is kept as the list of its own properties in the order they
    were created. *)

(** The names that a plain object inherits from [Object.prototype] (V8):
    [acc[name]] is a function, or the prototype itself, for each of them. *)
Definition Object_prototype_names : list string :=
  ["constructor"; "__defineGetter__"; "__defineSetter__"; "hasOwnProperty";
   "__lookupGetter__"; "__lookupSetter__"; "isPrototypeOf"; "propertyIsEnumerable";
   "toString"; "valueOf"; "__proto__"; "toLocaleString"].

(** [acc[borough].push(dep)], after [acc[borough] = []] when the object has
    no property of that name. *)
Fixpoint pushDeparture (borough : string) (dep : ProcessedDeparture)
    (acc : list (string * list ProcessedDeparture)) : list (string * list ProcessedDeparture) :=
  match acc with
  | [] => [(borough, [dep])]
  | (k, deps) :: rest =>
      if String.eqb k borough then (k, deps ++ [dep]) :: rest
      else (k, deps) :: pushDeparture borough dep rest
  end.

(** The callback of the [reduce].  For a name that the object inherits,
    [acc[borough]] is truthy, no array is created, and the call of [push],
    which the inherited value does not have, throws a TypeError. *)
Definition reduceStep (acc : list (string * list ProcessedDeparture))
    (dep : ProcessedDeparture) : Completion (list (string * list ProcessedDeparture)) :=
  let borough := boroughOf dep in
  match assoc borough acc with
  | Some _ => Normal (pushDeparture borough dep acc)
  | None =>
      if existsb (String.eqb borough) Object_prototype_names
      then Abrupt (Error "acc[borough]?.push is not a function")
      else Normal (pushDeparture borough dep acc)
  end.

(** [items.reduce(f, init)] for an [f] that may throw. *)
Fixpoint Array_reduce {A B : Type} (f : B → A → Completion B) (items : list A) (init : B)
  : Completion B :=
  match items with
  | [] => Normal init
  | item :: rest =>
      match f init item with
      | Abrupt e => Abrupt e
      | Normal acc => Array_reduce f rest acc
      end
  end.

Definition groupByBorough (departures : list ProcessedDeparture)
  : Completion (list (string * list ProcessedDeparture)) :=
  Array_reduce reduceStep departures [].

(** The array index that a property name is: the decimal text of an integer
    from 0 to 2^32 - 2, written without sign, space or leading zero. *)
Definition arrayIndex (name : string) : option Z :=
  match Js.parseInt name with
  | Some n =>
      if (0 <=? n) && (n <=? 4294967294) && String.eqb (Js.Number_toString n) name
      then Some n
      else None
  | None => None
  end.

Definition isArrayIndex (name : string) : bool :=
  match arrayIndex name with
  | Some _ => true
  | None => false
  end.

(** The order of two names that are array indices. *)
Definition compareIndex (a b : string) : Z :=
  default 0 (arrayIndex a) - default 0 (arrayIndex b).

(** [Object.entries(o)]: the properties whose names are array indices come
    first, in ascending order of the index, and the others follow in the
    order they were created. *)
Definition Object_entries {A : Type} (o : list (string * A)) : list (string * A) :=
  Array_sort (fun a b => compareIndex (fst a) (fst b))
    (List.filter (fun entry => isArrayIndex (fst entry)) o) ++
  List.filter (fun entry => negb (isArrayIndex (fst entry))) o.

(** [formatDepartureTime] and [getCopyContent] are imported from
    [utils/dateUtils], which is not among the sources: they are parameters,
    each taken as it answers during the render in question.  Both are called
    while an item of the list is built, and may throw. *)
Record DateUtils := {
  formatDepartureTime : option Js.Date → Completion string;
  getCopyContent : ProcessedDeparture → Completion string
}.

(** [dep.departureTime?.toISOString()] in the key of an item: [toISOString]
    throws a RangeError on an invalid date. *)
Definition keyTime (dep : ProcessedDeparture) : Completion unit :=
  match p_departureTime dep with
  | Some date =>
      match Js.timeValue date with
      | Some _ => Normal tt
      | None => Abrupt (Error "Invalid time value")
      end
  | None => Normal tt
  end.

Section StationDepartures.
Context (env : Env) (utils : DateUtils) (localeCompare : string → string → Z)
  (station : StationProps).
Local Open Scope async_scope.

Definition loadDepartures (showLoadingToast : bool) : Async DeparturesView unit :=
  setView (setDeparturesLoading true) ;;;
  setView (setError None) ;;;
  (if showLoadingToast
   then showToast {| style := Animated; title := "Refreshing Departures..."; message := None |}
   else ret tt) ;;;
  try_finally
    (try_catch
       (v <~ getView ;;
        let limitParam := if 0 <? selectedLimit v then Some (selectedLimit v) else None in
        departuresWithDates <~ fetchDepartures env (station_id station) limitParam None ;;
        setView (setProcessedDepartures departuresWithDates) ;;;
        if showLoadingToast
        then showToast {| style := Success; title := "Departures Updated"; message := None |}
        else ret tt)
       (fun err =>
          let message :=
            default ("Could not load departures for " +:+ station_name station +:+ ".")
              (instanceofError err) in
          setView (setError (Some message)) ;;;
          showToast {| style := Failure; title := "Error"; message := Some message |} ;;;
          setView (setProcessedDepartures [])))
    (setView (setDeparturesLoading false)).

(** The comparison function given to [sort] for the sections. *)
Definition compareSections (a b : string * list ProcessedDeparture) : Z :=
  match station_system station with
  | LIRR | MNR =>
      if String.eqb (fst a) "Outbound" then -1
      else if String.eqb (fst b) "Outbound" then 1
      else 0
  | SUBWAY => localeCompare (fst a) (fst b)
  end.

Definition sectionTitle (borough : string) : string :=
  if String.eqb borough "Outbound" then "Outbound Departures"
  else borough +:+ "-Bound Departures".

(** The [List.Item] of a departure.  Of its properties the embedding keeps
    those whose evaluation can throw, in the order they are evaluated: the
    key, the accessory of the time, the accessory of the status and the
    content to copy. *)
Definition listItem (dep : ProcessedDeparture) : Completion Accessory :=
  match keyTime dep with
  | Abrupt e => Abrupt e
  | Normal _ =>
      match formatDepartureTime utils (p_departureTime dep) with
      | Abrupt e => Abrupt e
      | Normal _ =>
          match statusAccessory (member "status" (raw dep)) with
          | Abrupt e => Abrupt e
          | Normal accessory =>
              match getCopyContent utils dep with
              | Abrupt e => Abrupt e
              | Normal _ => Normal accessory
              end
          end
      end
  end.

(** The callback of the [map] over the sorted entries: [null] for a group
    without departure, and otherwise the section, whose items are built. *)
Definition sectionOfEntry (entry : string * list ProcessedDeparture)
  : Completion (option (string * string * list ProcessedDeparture)) :=
  let (borough, departuresInSection) := entry in
  if (length departuresInSection =? 0)%nat then Normal None
  else
    match Array_map listItem departuresInSection with
    | Abrupt e => Abrupt e
    | Normal _ => Normal (Some (borough, sectionTitle borough, departuresInSection))
    end.

(** The sections that the component returns, in their order: the label of
    the group, its title and its departures.  The render throws when the
    [reduce] or the building of an item throws. *)
Definition sections (v : DeparturesView)
  : Completion (list (string * string * list ProcessedDeparture)) :=
  if negb (departuresLoading v) &&
     negb (match error v with Some e => Js.truthy e | None => false end) &&
     (0 <? Z.of_nat (length (processedDepartures v)))
  then
    match groupByBorough (processedDepartures v) with
    | Abrupt e => Abrupt e
    | Normal groups =>
        match Array_map sectionOfEntry (Array_sort compareSections (Object_entries groups)) with
        | Abrupt e => Abrupt e
        | Normal rendered => Normal (omap (fun section => section) rendered)
        end
    end
  else Normal [].

(** Every departure for which the component returns an item. *)
Definition displayed (v : DeparturesView) : Completion (list ProcessedDeparture) :=
  match sections v with
  | Abrupt e => Abrupt e
  | Normal rendered => Normal (concat (map snd rendered))
  end.
End StationDepartures.

(** ** Service alerts, [fetchAlerts] in [src/utils/api.ts] *)

(** [ServiceAlert], as received: the fields that the code reads.
    [affectedStations] is read by [fetchAlerts] although the interface does
    not declare it. *)
Record ServiceAlert := {
  alert_id : string;
  alert_title : string;
  alert_description : string;
  affectedLines : option (list string);
  affectedStations : option (list string);
  startDate : option string;
  endDate : option string;
  alert_url : option string
}.

(** [ProcessedServiceAlert]: [raw_alert] is the reading of the received
    alert, for the properties that the conversion does not touch; the four
    others are the properties that [fetchAlerts] sets, from the values
    received. *)
Record ProcessedServiceAlert := {
  raw_alert : ServiceAlert;
  p_affectedLines : Json;
  p_affectedStations : Json;
  p_startDate : option Js.Date;
  p_endDate : option Js.Date
}.

Definition asAlert (d : Json) : ServiceAlert :=
  {| alert_id := default "" (stringMember "id" d);
     alert_title := default "" (stringMember "title" d);
     alert_description := default "" (stringMember "description" d);
     affectedLines := stringsMember "affectedLines" d;
     affectedStations := stringsMember "affectedStations" d;
     startDate := stringMember "startDate" d;
     endDate := stringMember "endDate" d;
     alert_url := stringMember "url" d |}.

(** [v || []] *)
Definition orEmptyArray (v : option Json) : Json :=
  if truthyValue v then default (JArr []) v else JArr [].

(** [v ? new Date(v) : undefined] *)
Definition dateOrUndefined (env : Env) (v : option Json) : option Js.Date :=
  if truthyValue v then Some (new_Date env v) else None.

(** The object that the callback of [rawAlerts.map] builds from an alert
    that is not [null]. *)
Definition convertedAlert (env : Env) (alert : Json) : ProcessedServiceAlert :=
  {| raw_alert := asAlert alert;
     p_affectedLines := orEmptyArray (member "affectedLines" alert);
     p_affectedStations := orEmptyArray (member "affectedStations" alert);
     p_startDate := dateOrUndefined env (member "startDate" alert);
     p_endDate := dateOrUndefined env (member "endDate" alert) |}.

Definition processAlert (env : Env) (alert : Json) : Completion ProcessedServiceAlert :=
  match alert with
  | JNull => Abrupt (Error "Cannot read properties of null (reading 'affectedLines')")
  | _ => Normal (convertedAlert env alert)
  end.

(** The request path that [fetchAlerts] builds. *)
Definition alertsEndpoint (targetLines : option (list string)) (stationId : option string)
  : string :=
  let params := [] in
  let params :=
    match targetLines with
    | Some ls =>
        if (0 <? length ls)%nat then params ++ [("lines", Array_join "," ls)] else params
    | None => params
    end in
  let params := params ++ [("activeNow", "true")] in
  let params := params ++ [("includeLabels", "true")] in
  let params :=
    match stationId with
    | Some i => if Js.truthy i then params ++ [("stationId", i)] else params
    | None => params
    end in
  let queryString := Js.URLSearchParams_toString params in
  "/alerts" +:+ (if Js.truthy queryString then "?" +:+ queryString else "").

Section Alerts.
Context {V : Type} (env : Env).
Local Open Scope async_scope.

Definition fetchAlerts (targetLines : option (list string)) (stationId : option string)
  : Async V (list ProcessedServiceAlert) :=
  let endpoint := alertsEndpoint targetLines stationId in
  rawAlerts <~ fetchFromWrapper env (T:=Json) endpoint ;;
  processedAlerts <~
    match rawAlerts with
    | JArr items => await (Array_map (processAlert env) items)
    | JNull => throw (Error "Cannot read properties of null (reading 'map')")
    | _ => throw (Error "rawAlerts.map is not a function")
    end ;;
  ret processedAlerts.
End Alerts.

(** ** The alert list, [src/viewAlerts.tsx] *)

Record ViewAlertsCommandProps := {
  initialFilterLines : option (list string);
  initialFilterStationId : option string
}.

(** The state of [ViewAlertsCommand]. *)
Record AlertsView := {
  processedAlerts : list ProcessedServiceAlert;
  alertsLoading : bool;
  alertsError : option string
}.

Definition setProcessedAlerts (alerts : list ProcessedServiceAlert) (v : AlertsView)
  : AlertsView :=
  {| processedAlerts := alerts; alertsLoading := alertsLoading v;
     alertsError := alertsError v |}.

Definition setAlertsLoading (b : bool) (v : AlertsView) : AlertsView :=
  {| processedAlerts := processedAlerts v; alertsLoading := b;
     alertsError := alertsError v |}.

Definition setAlertsError (e : option string) (v : AlertsView) : AlertsView :=
  {| processedAlerts := processedAlerts v; alertsLoading := alertsLoading v;
     alertsError := e |}.

Definition initialAlertsView : AlertsView :=
  {| processedAlerts := []; alertsLoading := true; alertsError := None |}.

(** Truthiness of a string that may be [null]. *)
Definition truthyText (e : option string) : bool :=
  match e with
  | Some t => Js.truthy t
  | None => false
  end.

Inductive SeverityColor := Severity_Red | Severity_Orange | Severity_Yellow.

Definition getSeverityColor (alert : ProcessedServiceAlert) : SeverityColor :=
  if Js.includes (Js.toLowerCase (alert_title (raw_alert alert))) "suspend" then Severity_Red
  else if Js.includes (Js.toLowerCase (alert_title (raw_alert alert))) "delay"
  then Severity_Orange
  else Severity_Yellow.

(** What [ViewAlertsCommand] renders in its list: the error view with its
    description, the view for no alert, and the items of the section
    "Current Alerts". *)
Record AlertsScreen := {
  alertsErrorView : option string;
  noAlertsView : bool;
  currentAlerts : option (list ProcessedServiceAlert)
}.

Definition alertsScreen (v : AlertsView) : AlertsScreen :=
  {| alertsErrorView :=
       if truthyText (alertsError v) && negb (alertsLoading v) then alertsError v else None;
     noAlertsView :=
       negb (alertsLoading v) && negb (truthyText (alertsError v)) &&
       (length (processedAlerts v) =? 0)%nat;
     currentAlerts :=
       if negb (truthyText (alertsError v)) && (0 <? length (processedAlerts v))%nat
       then Some (processedAlerts v)
       else None |}.

Section ViewAlerts.
Context (env : Env) (props : ViewAlertsCommandProps).
Local Open Scope async_scope.

Definition loadAlerts (showLoadingToast : bool) : Async AlertsView unit :=
  setView (setAlertsLoading true) ;;;
  setView (setAlertsError None) ;;;
  (if showLoadingToast
   then showToast {| style := Animated; title := "Refreshing Alerts..."; message := None |}
   else ret tt) ;;;
  try_finally
    (try_catch
       (alertsWithDates <~
          fetchAlerts env (initialFilterLines props) (initialFilterStationId props) ;;
        setView (setProcessedAlerts alertsWithDates))
       (fun err =>
          let message := default "Could not load service alerts." (instanceofError err) in
          setView (setAlertsError (Some message)) ;;;
          showToast {| style := Failure; title := "Error Loading Alerts";
                       message := Some message |}))
    (setView (setAlertsLoading false)).
End ViewAlerts.

(** ** What the station list renders, [src/findDepartures.tsx] (the revision
    with the cache) *)

(** A [StationListItem]: the station and its [isFavorite] property. *)
Record StationItem := {
  item_station : Station;
  item_isFavorite : bool
}.

(** The children of the list: the section "Favorites", the other section
    with its title, and the two empty views. *)
Record FindScreen := {
  favoritesSection : option (list StationItem);
  othersSection : option (string * list StationItem);
  noMatchView : bool;
  noStationsView : bool
}.

Section FindScreen.
Context (localeCompare : string → string → Z) (favorites : gset string).

Definition findScreen (v : FindView) : FindScreen :=
  let favoriteStations :=
    fst (favoriteAndOtherStations localeCompare favorites (allStations v)) in
  let otherStations :=
    snd (favoriteAndOtherStations localeCompare favorites (allStations v)) in
  let showFavorites :=
    String.eqb (searchText v) "" && (0 <? length favoriteStations)%nat in
  let showOthers := (0 <? length otherStations)%nat in
  {| favoritesSection :=
       if showFavorites
       then Some (map (fun station =>
                         {| item_station := station; item_isFavorite := true |})
                    favoriteStations)
       else None;
     othersSection :=
       if showOthers
       then Some (if String.eqb (searchText v) ""
                  then (if showFavorites then "Other Stations" else "All Stations")
                  else "Search Results",
                  map (fun station =>
                         {| item_station := station;
                            item_isFavorite := isFavorite favorites (id station) |})
                    otherStations)
       else None;
     noMatchView :=
       negb (String.eqb (searchText v) "") && negb showOthers && negb (isLoading v);
     noStationsView :=
       String.eqb (searchText v) "" && negb showFavorites && negb showOthers &&
       negb (isLoading v) |}.

(** Every station that is rendered. *)
Definition renderedStations (v : FindView) : list Station :=
  map item_station (default [] (favoritesSection (findScreen v))) ++
  map item_station (default [] (snd <$> othersSection (findScreen v))).
End FindScreen.

(** ** The station list without cache, the later revision of
    [src/findDepartures.tsx] *)

Module FullList.

(** The state of [FindDeparturesCommand]. *)
Record View := {
  searchText : string;
  selectedSystem : SystemFilterValue;
  allStations : list Station;
  isLoading : bool;
  error : option string
}.

Definition setAllStations (stations : list Station) (v : View) : View :=
  {| searchText := searchText v; selectedSystem := selectedSystem v;
     allStations := stations; isLoading := isLoading v; error := error v |}.

Definition setIsLoading (b : bool) (v : View) : View :=
  {| searchText := searchText v; selectedSystem := selectedSystem v;
     allStations := allStations v; isLoading := b; error := error v |}.

Definition setError (e : option string) (v : View) : View :=
  {| searchText := searchText v; selectedSystem := selectedSystem v;
     allStations := allStations v; isLoading := isLoading v; error := e |}.

Definition initialView : View :=
  {| searchText := ""; selectedSystem := All; allStations := []; isLoading := true;
     error := None |}.

Section Handlers.
Context (env : Env).
Local Open Scope async_scope.

Definition loadStations (systemFilterValue : SystemFilterValue) : Async View unit :=
  setView (setIsLoading true) ;;;
  setView (setError None) ;;;
  let apiSystemFilter := filterValueToApiParam systemFilterValue in
  try_finally
    (try_catch
       (stations <~ fetchStations env None apiSystemFilter false ;;
        setView (setAllStations (as_type stations)))
       (fun err =>
          let message := default "Could not load station data." (instanceofError err) in
          setView (setError (Some message)) ;;;
          showToast {| style := Failure; title := "Error Loading Stations";
                       message := Some message |} ;;;
          setView (setAllStations [])))
    (setView (setIsLoading false)).

Definition handleRefresh : Async View unit :=
  showToast {| style := Animated; title := "Refreshing station list..."; message := None |} ;;;
  v <~ getView ;;
  loadStations (selectedSystem v) ;;;
  showToast {| style := Success; title := "Station list refreshed"; message := None |}.
End Handlers.

(** The children of the list: the error view, the two sections and the empty
    view. *)
Record Screen := {
  errorView : option string;
  favoritesSection : option (list StationItem);
  othersSection : option (string * list StationItem);
  emptyView : bool
}.

Section Screen.
Context (localeCompare : string → string → Z) (favorites : gset string).

Definition screen (v : View) : Screen :=
  let favoriteStations :=
    fst (favoriteAndOtherStations localeCompare favorites (allStations v)) in
  let otherStations :=
    snd (favoriteAndOtherStations localeCompare favorites (allStations v)) in
  let hasFavorites := (0 <? length favoriteStations)%nat in
  let hasOthers := (0 <? length otherStations)%nat in
  let showEmptyView :=
    negb (isLoading v) && negb (truthyText (error v)) && negb hasFavorites &&
    negb hasOthers in
  {| errorView := if truthyText (error v) && negb (isLoading v) then error v else None;
     favoritesSection :=
       if negb (isLoading v) && negb (truthyText (error v)) && hasFavorites
       then Some (map (fun station =>
                         {| item_station := station; item_isFavorite := true |})
                    favoriteStations)
       else None;
     othersSection :=
       if negb (isLoading v) && negb (truthyText (error v)) && hasOthers
       then Some (if hasFavorites then "Other Stations" else "Stations",
                  map (fun station =>
                         {| item_station := station; item_isFavorite := false |})
                    otherStations)
       else None;
     emptyView := showEmptyView |}.
End Screen.

End FullList.

(** ** The statements of the specification *)

(** [s] contains [word] when case is ignored: some run of consecutive
    characters of [s] lowers to the same text as [word]. *)
Definition containsIgnoringCase (s word : string) : Prop :=
  ∃ pre w post, s = pre +:+ w +:+ post ∧ Js.toLowerCase w = Js.toLowerCase word.

(** The display categories of a status text. *)
Inductive Category :=
| Delayed
| Cancelled
| OnTime
| Raw (statusText : string).

(** The category an accessory shows: the icon tells it, and an accessory
    without icon shows the text as it is. *)
Definition categoryOf (a : Accessory) : Category :=
  match icon a with
  | Some (Icon_Clock, _) => Delayed
  | Some (Icon_XMarkCircle, _) => Cancelled
  | Some (Icon_CheckCircle, _) => OnTime
  | None => Raw (text a)
  end.

(** The error envelope [{ "error": { "message": m, ... } }]. *)
Definition isEnvelope (data : Json) (m : string) : Prop :=
  ∃ members errMembers,
    data = JObj members ∧
    assoc "error" members = Some (JObj errMembers) ∧
    assoc "message" errMembers = Some (JStr m).

(** The time window of the specification: a departure passes when the limit
    is unbounded (absent or zero), when its time is unknown, or when its time
    is at most [limit] minutes after [now]. *)
Definition withinTimeWindow (limit : option Z) (now : Z) (dep : ProcessedDeparture) : Prop :=
  limit = None ∨ limit = Some 0 ∨
  p_departureTime dep = None ∨
  ∃ l t, limit = Some l ∧
         (Js.timeValue <$> p_departureTime dep) = Some (Some t) ∧
         t <= now + l * 60 * 1000.

(** The labels of a list in the order they are first met. *)
Definition firstSeen (labels : list string) : list string :=
  fold_left (fun seen l => if existsb (String.eqb l) seen then seen else seen ++ [l]) labels [].

(** A consistent comparison function, as [sort] asks for: the sign of
    [compare b a] is opposite to the sign of [compare a b], and "not after"
    is transitive. *)
Record Consistent {A : Type} (compare : A → A → Z) : Prop := {
  compare_flip : ∀ a b, compare a b < 0 ↔ 0 < compare b a;
  compare_trans : ∀ a b c, compare a b <= 0 → compare b c <= 0 → compare a c <= 0
}.

(** Comparison of strings by their bytes, a consistent comparison used to run
    the sorting code on examples. *)
Definition byteCompare (a b : string) : Z :=
  match String.compare a b with
  | Lt => -1
  | Eq => 0
  | Gt => 1
  end.

(** The comparison of the host with its default options, on names made of
    ASCII letters, digits and spaces: the names are compared without regard
    to case first, and names that differ only in case are ordered by their
    first difference, the lower case letter coming first. *)
Definition letterCompare (a b : string) : Z :=
  if byteCompare (Js.toLowerCase a) (Js.toLowerCase b) =? 0
  then byteCompare b a
  else byteCompare (Js.toLowerCase a) (Js.toLowerCase b).

(** The state after a call of [fetchFromWrapper]: one request was made for
    the endpoint and the time of the exchange has passed. *)
Definition requested {V : Type} (env : Env) (endpoint : string) (st : State V) : State V :=
  let url := API_BASE_URL env +:+ endpoint in
  {| world := afterRequest url (elapsed (network env (clock (world st)) url)) (world st);
     view := view st |}.

(** The failure carries the message [m]. *)
Definition carriesMessage {A : Type} (result : Completion A) (m : string) : Prop :=
  ∃ code, result = Abrupt (APIError m code).

(** *** Environments for the examples *)

Definition jsonResponse (code : Z) (data : Json) : Response :=
  {| http_status := code; contentType := Some "application/json; charset=utf-8";
     body := inr data |}.

(** A network that gives the same answer to every request, after [dt]
    milliseconds. *)
Definition answering (dt : Z) (reply : Reply) : Env :=
  {| API_URL := None; network := fun _ _ => {| elapsed := dt; outcome := reply |};
     Date_parse := Js.parseTimestamp; StringToNumber := Js.decimalNumber |}.

Definition envelope (m : string) : Json := JObj [("error", JObj [("message", JStr m)])].


(** [a] does not have to come after [b]. *)
Definition notAfter {A : Type} (compare : A → A → Z) : relation A :=
  fun a b => compare a b <= 0.

(** [a] and [b] compare as equal. *)
Definition tied {A : Type} (compare : A → A → Z) (a b : A) : bool :=
  compare a b =? 0.

(** The state of the departure list once [departures] are loaded. *)
Definition showing (limit : Z) (departures : list ProcessedDeparture) : DeparturesView :=
  {| departuresLoading := false; selectedLimit := limit;
     processedDepartures := departures; error := None |}.

Definition sectionLabels (ss : list (string * string * list ProcessedDeparture))
  : list string :=
  map (fun s => fst (fst s)) ss.

Definition isOutbound (label : string) : bool := String.eqb label "Outbound".

(** The departures of a list that go to the group [label], in their order. *)
Definition departuresTo (label : string) (departures : list ProcessedDeparture)
  : list ProcessedDeparture :=
  List.filter (fun dep => String.eqb (boroughOf dep) label) departures.

(** What a section shows for a group of the accumulator. *)
Definition sectionOf (entry : string * list ProcessedDeparture)
  : string * string * list ProcessedDeparture :=
  (fst entry, sectionTitle (fst entry), snd entry).

(** The groups of a list of departures, in the order they are first met. *)
Definition grouped (departures : list ProcessedDeparture)
  : list (string * list ProcessedDeparture) :=
  fold_left (fun acc dep => pushDeparture (boroughOf dep) dep acc) departures [].

(** The label is a name that a plain object inherits. *)
Definition inherited (label : string) : bool :=
  existsb (String.eqb label) Object_prototype_names.

(** The order in which [Object.entries] lists properties that were created
    in the order [names]. *)
Definition entryOrder (names : list string) : list string :=
  Array_sort compareIndex (List.filter isArrayIndex names) ++
  List.filter (fun name => negb (isArrayIndex name)) names.

(** The item of the departure can be built. *)
Definition buildable (utils : DateUtils) (dep : ProcessedDeparture) : Prop :=
  ∃ accessory, listItem utils dep = Normal accessory.

(** Helpers of [utils/dateUtils] that format nothing and never throw. *)
Definition plainUtils : DateUtils :=
  {| formatDepartureTime := fun _ => Normal ""; getCopyContent := fun _ => Normal "" |}.

(** *** Stations and departures for the examples *)

Definition stationNamed (i n : string) : Station :=
  {| id := i; name := n; latitude := None; longitude := None;
     system := None; lines := None |}.

(** The property [name] of an object, when it has a value. *)
Definition property (name : string) (value : option string) : list (string * Json) :=
  match value with
  | Some v => [(name, JStr v)]
  | None => []
  end.

(** A departure as it is received: on time, for the system [sys], with the
    borough and the time when they are given. *)
Definition departureAt (borough time : option string) (sys : string) : Json :=
  JObj ([("destination", JStr "Terminal")] ++ property "departureTime" time ++
        [("status", JStr "On Time")] ++ property "destinationBorough" borough ++
        [("system", JStr sys)]).

Definition pennStation : StationProps :=
  {| station_id := "237"; station_name := "Penn Station"; station_system := LIRR |}.

Definition timesSquare : StationProps :=
  {| station_id := "127"; station_name := "Times Sq-42 St"; station_system := SUBWAY |}.

(** The number that decimal digits denote, least significant first. *)
Definition valueLE (digits : list N) : N :=
  fold_right (fun d acc => d + 10 * acc)%N 0%N digits.

(** *** The station cache *)

(** The local storage after [stations] were cached at the clock reading
    [t0]: what [loadStations] and [handleRefresh] write. *)
Definition withSnapshot (stations : list Station) (t0 : Z) (σ : gmap string Item)
  : gmap string Item :=
  <[STATION_LIST_TIMESTAMP_KEY := Text (Js.Number_toString t0)]>
    (<[STATION_LIST_CACHE_KEY := JSON_stringify stations]> σ).

(** The local storage without the snapshot and its timestamp. *)
Definition withoutSnapshot (σ : gmap string Item) : gmap string Item :=
  delete STATION_LIST_TIMESTAMP_KEY (delete STATION_LIST_CACHE_KEY σ).

(** How a call of [fetchStations] made at the clock reading [now] ends: with
    the document received, or with an error. *)
Definition stationsDocument (env : Env) (query : option string)
    (system : option FilterableSystem) (forceRefresh : bool) (now : Z)
  : Completion Json :=
  fst (fetchStations env query system forceRefresh {| world := initialWorld now; view := tt |}).

(** The same, with the document read as a list of stations. *)
Definition stationsReply (env : Env) (query : option string)
    (system : option FilterableSystem) (forceRefresh : bool) (now : Z)
  : Completion (list Station) :=
  match stationsDocument env query system forceRefresh now with
  | Normal document => Normal (as_type document)
  | Abrupt e => Abrupt e
  end.

(** How the request of [handleRefresh] and the read of the length of what
    it gives end: with the stations, or with what is thrown. *)
Definition refreshed (env : Env) (query : option string)
    (system : option FilterableSystem) (now : Z) : Completion (list Station) :=
  match stationsDocument env query system true now with
  | Normal JNull => Abrupt (Error "Cannot read properties of null (reading 'length')")
  | Normal document => Normal (as_type document)
  | Abrupt e => Abrupt e
  end.

(** The number of requests made between two worlds. *)
Definition networkCalls (before after : World) : Z :=
  Z.of_nat (length (requests after)) - Z.of_nat (length (requests before)).

(** The state in which the station list is shown. *)
Definition findView (text : string) (filter : SystemFilterValue) (stations : list Station)
  : FindView :=
  {| searchText := text; selectedSystem := filter; allStations := stations;
     isLoading := false |}.

(** The timestamp that [loadStations] reads from the local storage. *)
Definition storedTimestamp (w : World) : option Z :=
  match storage w !! STATION_LIST_TIMESTAMP_KEY with
  | Some i => if itemTruthy i then itemParseInt i else Some 0
  | None => Some 0
  end.

(** The test [timestamp && Date.now() - timestamp < STATION_LIST_CACHE_TTL]. *)
Definition timestampFresh (w : World) : bool :=
  Js.truthyNumber (storedTimestamp w) &&
  match storedTimestamp w with
  | Some t => clock w - t <? STATION_LIST_CACHE_TTL
  | None => false
  end.

Definition failureToast (heading : string) (fallback : string) (e : Exn) : Toast :=
  {| style := Failure; title := heading;
     message := Some (default fallback (instanceofError e)) |}.

(** The same state at a clock reading [dt] later. *)
Definition later {V : Type} (dt : Z) (st : State V) : State V :=
  {| world := {| clock := clock (world st) + dt; storage := storage (world st);
                 requests := requests (world st); toasts := toasts (world st) |};
     view := view st |}.

(** How a call of [fetchDepartures] made at the clock reading [now] ends. *)
Definition departuresReply (env : Env) (stationId : string) (limitMinutes : option Z)
    (source : option Source) (now : Z) : Completion (list ProcessedDeparture) :=
  fst (fetchDepartures env stationId limitMinutes source
         {| world := initialWorld now; view := tt |}).

(** [selectedLimit > 0 ? selectedLimit : undefined] *)
Definition limitParam (selectedLimit : Z) : option Z :=
  if 0 <? selectedLimit then Some selectedLimit else None.

(** *** Worlds for the examples *)

Definition snapshotA : list Station := [stationNamed "127" "Times Sq-42 St"].

Definition offline : Env := answering 0 (Unreachable "fetch failed").

Definition stationJson (i n : string) : Json := JObj [("id", JStr i); ("name", JStr n)].

(** A server with one subway station and one LIRR station. *)
Definition twoSystems : Env :=
  {| API_URL := None;
     network := fun _ url =>
       {| elapsed := 0;
          outcome :=
            Answer (jsonResponse 200
              (if Js.includes url "system=SUBWAY"
               then JArr [stationJson "127" "Times Sq-42 St"]
               else if Js.includes url "system=LIRR"
               then JArr [stationJson "237" "Penn Station"]
               else JArr [stationJson "127" "Times Sq-42 St";
                          stationJson "237" "Penn Station"])) |};
     Date_parse := Js.parseTimestamp; StringToNumber := Js.decimalNumber |}.

Definition worldAt (now : Z) (σ : gmap string Item) : World :=
  {| clock := now; storage := σ; requests := []; toasts := [] |}.

Definition departureJson (borough time : Json) : Json :=
  JObj [("destination", JStr "Jamaica"); ("departureTime", time);
        ("delayMinutes", JNum 0); ("status", JStr "On Time");
        ("destinationBorough", borough); ("system", JStr "LIRR")].

(** A server whose answer to every request is one LIRR departure to Queens,
    at 00:45 on the first of January 2025. *)
Definition oneDeparture : Env :=
  answering 0
    (Answer (jsonResponse 200
               (JArr [departureJson (JStr "Queens") (JStr "2025-01-01T00:45:00.000Z")]))).

(** Midnight of the first of January 2025, in milliseconds. *)
Definition midnight : Z := 1735689600000.

(** *** Alerts *)

(** How a call of [fetchAlerts] made at the clock reading [now] ends. *)
Definition alertsReply (env : Env) (targetLines : option (list string))
    (stationId : option string) (now : Z) : Completion (list ProcessedServiceAlert) :=
  fst (fetchAlerts env targetLines stationId {| world := initialWorld now; view := tt |}).

Definition alertTitled (t : string) : ProcessedServiceAlert :=
  {| raw_alert :=
       {| alert_id := "lmm:alert:1"; alert_title := t; alert_description := "";
          affectedLines := None; affectedStations := None; startDate := None;
          endDate := None; alert_url := None |};
     p_affectedLines := JArr []; p_affectedStations := JArr [];
     p_startDate := None; p_endDate := None |}.

Definition noFilter : ViewAlertsCommandProps :=
  {| initialFilterLines := None; initialFilterStationId := None |}.

(** *** URLs *)

(** Every character of [s] is one that the form encoding leaves as it is. *)
Fixpoint allUrlSafe (s : string) : bool :=
  match s with
  | EmptyString => true
  | String c s' => Js.isUrlSafe c && allUrlSafe s'
  end.

(** The character [c] occurs in [s]. *)
Definition hasChar (c : ascii) (s : string) : bool := Js.includes s (String c "").

(** *** Tactics

    [run_wrapper] runs [fetchFromWrapper] up to the answer of the network;
    [run_async] runs the sequencing of an asynchronous function. *)

Ltac run_wrapper :=
  unfold fetchFromWrapper, requested, try_catch, bind, fetch, response_json, throw, ret;
  simpl.

Ltac run_async :=
  unfold bind, try_finally, try_catch, setView, getView, showToast,
    LocalStorage_getItem, LocalStorage_setItem, LocalStorage_removeItem,
    modifyWorld, Date_now, throw, ret;
  cbn [world view fst snd clock storage requests toasts].

(** ** Strings *)

Lemma append_cons (c : ascii) (s t : string) : String c s +:+ t = String c (s +:+ t).
Proof. reflexivity. Qed.

Lemma append_empty_l (t : string) : "" +:+ t = t.
Proof. reflexivity. Qed.

Lemma append_assoc (a b c : string) : (a +:+ b) +:+ c = a +:+ b +:+ c.
Proof.
  induction a as [|x a IH]; [reflexivity|].
  rewrite !append_cons. by rewrite IH.
Qed.

Lemma truthy_true (s : string) : Js.truthy s = true ↔ s ≠ "".
Proof.
  unfold Js.truthy. rewrite negb_true_iff. split.
  - intros H ->. discriminate.
  - intros H. apply String.eqb_neq. exact H.
Qed.

Lemma startsWith_spec (s sub : string) :
  Js.startsWith s sub = true ↔ ∃ post, s = sub +:+ post.
Proof.
  revert s. induction sub as [|c sub IH]; intros s.
  - split; [intros _; by exists s | by destruct s].
  - destruct s as [|d s]; simpl.
    + split; [done | intros [post H]; discriminate].
    + rewrite andb_true_iff, Ascii.eqb_eq, IH. split.
      * intros [-> [post ->]]. by exists post.
      * intros [post H]. rewrite append_cons in H. injection H as -> ->. eauto.
Qed.

Lemma includes_unfold (s sub : string) :
  Js.includes s sub =
  Js.startsWith s sub ||
  match s with
  | EmptyString => false
  | String _ s' => Js.includes s' sub
  end.
Proof. by destruct s. Qed.

Lemma includes_spec (s sub : string) :
  Js.includes s sub = true ↔ ∃ pre post, s = pre +:+ sub +:+ post.
Proof.
  split.
  - induction s as [|c s IH]; rewrite includes_unfold, orb_true_iff.
    + intros [H|H]; [|done]. apply startsWith_spec in H as [post H].
      by exists "", post.
    + intros [H|H].
      * apply startsWith_spec in H as [post H]. by exists "", post.
      * destruct (IH H) as (pre & post & ->). by exists (String c pre), post.
  - intros (pre & post & ->). induction pre as [|c pre IH].
    + rewrite append_empty_l, includes_unfold.
      assert (Js.startsWith (sub +:+ post) sub = true) as ->
        by (apply startsWith_spec; eauto).
      reflexivity.
    + rewrite append_cons, includes_unfold, IH. apply orb_true_r.
Qed.

Lemma toLowerCase_app (a b : string) :
  Js.toLowerCase (a +:+ b) = Js.toLowerCase a +:+ Js.toLowerCase b.
Proof.
  induction a as [|c a IH]; [reflexivity|].
  rewrite append_cons. simpl. rewrite IH. reflexivity.
Qed.

Lemma toLowerCase_split (s a b : string) :
  Js.toLowerCase s = a +:+ b →
  ∃ a' b', s = a' +:+ b' ∧ Js.toLowerCase a' = a ∧ Js.toLowerCase b' = b.
Proof.
  revert s. induction a as [|c a IH]; intros s H.
  - by exists "", s.
  - destruct s as [|d s]; [discriminate|].
    rewrite append_cons in H. simpl in H. injection H as Hc Hs.
    destruct (IH _ Hs) as (a' & b' & -> & Ha & Hb).
    exists (String d a'), b'. simpl. by rewrite Hc, Ha.
Qed.

(** Searching the lowered text for a lower-case word is searching the text
    with case ignored. *)
Lemma includes_toLowerCase (s word : string) :
  Js.toLowerCase word = word →
  Js.includes (Js.toLowerCase s) word = true ↔ containsIgnoringCase s word.
Proof.
  intros Hword. rewrite includes_spec. split.
  - intros (pre & post & H).
    apply toLowerCase_split in H as (pre' & rest & -> & _ & H).
    apply toLowerCase_split in H as (w & post' & -> & Hw & _).
    exists pre', w, post'. by rewrite Hword.
  - intros (pre & w & post & -> & Hw).
    exists (Js.toLowerCase pre), (Js.toLowerCase post).
    by rewrite !toLowerCase_app, Hw, Hword.
Qed.

(** ** Status accessories *)

(** C8. The accessory of a status text shows the first category that matches,
    in the order "delay", "cancel", "on time", with case ignored; a text that
    matches none is shown as it is. *)
Theorem getStatusAccessory_first_match (s : string) :
  (containsIgnoringCase s "delay" → categoryOf (getStatusAccessory s) = Delayed) ∧
  (¬ containsIgnoringCase s "delay" → containsIgnoringCase s "cancel" →
   categoryOf (getStatusAccessory s) = Cancelled) ∧
  (¬ containsIgnoringCase s "delay" → ¬ containsIgnoringCase s "cancel" →
   containsIgnoringCase s "on time" →
   categoryOf (getStatusAccessory s) = OnTime) ∧
  (¬ containsIgnoringCase s "delay" → ¬ containsIgnoringCase s "cancel" →
   ¬ containsIgnoringCase s "on time" →
   categoryOf (getStatusAccessory s) = Raw s).
Proof.
  pose proof (includes_toLowerCase s "delay" eq_refl) as Hd.
  pose proof (includes_toLowerCase s "cancel" eq_refl) as Hc.
  pose proof (includes_toLowerCase s "on time" eq_refl) as Ho.
  unfold getStatusAccessory.
  destruct (Js.includes (Js.toLowerCase s) "delay");
    destruct (Js.includes (Js.toLowerCase s) "cancel");
    destruct (Js.includes (Js.toLowerCase s) "on time");
    repeat split; intros; try reflexivity;
    repeat match goal with
      | H : true = true ↔ _ |- _ => apply proj1 in H; specialize (H eq_refl)
      | H : false = true ↔ _ |- _ => apply proj2 in H
      end;
    try contradiction;
    try match goal with
      | H : containsIgnoringCase _ ?w → false = true, K : containsIgnoringCase _ ?w |- _ =>
          discriminate (H K)
      end.
Qed.

Lemma getStatusAccessory_first_match_witness :
  categoryOf (getStatusAccessory "Delayed 5 min") = Delayed ∧
  categoryOf (getStatusAccessory "Train Cancelled") = Cancelled ∧
  categoryOf (getStatusAccessory "On Time") = OnTime ∧
  categoryOf (getStatusAccessory "Scheduled") = Raw "Scheduled".
Proof.
  assert (∀ s w, Js.includes (Js.toLowerCase s) w = false →
                 Js.toLowerCase w = w → ¬ containsIgnoringCase s w) as no.
  { intros s w H Hw K. apply (includes_toLowerCase s w Hw) in K. congruence. }
  split; [|split; [|split]].
  - apply (getStatusAccessory_first_match "Delayed 5 min").
    by exists "", "Delay", "ed 5 min".
  - apply (getStatusAccessory_first_match "Train Cancelled").
    + by apply no.
    + by exists "Train ", "Cancel", "led".
  - apply (getStatusAccessory_first_match "On Time").
    + by apply no.
    + by apply no.
    + by exists "", "On Time", "".
  - apply (getStatusAccessory_first_match "Scheduled"); by apply no.
Defined.

(** ** The API client *)

Section ApiFacts.
Context {V : Type} (env : Env).

Lemma fetchFromWrapper_state {T} `{Asserted T} (endpoint : string) (st : State V) :
  snd (fetchFromWrapper env (T:=T) endpoint st) = requested env endpoint st.
Proof.
  run_wrapper.
  destruct (outcome _) as [reason|r]; [reflexivity|].
  destruct (contentType r) as [ct|]; [|reflexivity].
  destruct (negb (Js.truthy ct) || negb (Js.includes ct "application/json"));
    [reflexivity|].
  destruct (body r) as [why|data]; [reflexivity|]. simpl.
  destruct (negb (ok r)), (isErrorResponse data); reflexivity.
Qed.

(** Every failure of [fetchFromWrapper] is an [APIError]. *)
Lemma fetchFromWrapper_throws_APIError {T} `{Asserted T} (endpoint : string)
    (st : State V) (e : Exn) :
  fst (fetchFromWrapper env (T:=T) endpoint st) = Abrupt e →
  ∃ msg code, e = APIError msg code.
Proof.
  run_wrapper.
  destruct (outcome _) as [reason|r]; [intros [= <-]; eauto|].
  destruct (contentType r) as [ct|]; [|intros [= <-]; eauto].
  destruct (negb (Js.truthy ct) || negb (Js.includes ct "application/json"));
    [intros [= <-]; eauto|].
  destruct (body r) as [why|data]; [intros [= <-]; eauto|]. simpl.
  destruct (negb (ok r)), (isErrorResponse data); intros [= <-]; eauto.
Qed.

(** A response with a JSON content type, a success status and a document
    that is no error envelope gives the document, read at the asserted
    type. *)
Lemma fetchFromWrapper_ok {T} `{Asserted T} (endpoint : string) (st : State V)
    (r : Response) (ct : string) (data : Json) :
  outcome (network env (clock (world st)) (API_BASE_URL env +:+ endpoint)) = Answer r →
  contentType r = Some ct →
  Js.includes ct "application/json" = true →
  body r = inr data →
  ok r = true →
  isErrorResponse data = false →
  fetchFromWrapper env (T:=T) endpoint st = (Normal (as_type data), requested env endpoint st).
Proof.
  intros Hnet Hct Hjson Hbody Hok Herr. run_wrapper.
  rewrite Hnet, Hct.
  assert (Js.truthy ct = true) as ->.
  { apply truthy_true. intros ->. discriminate. }
  rewrite Hjson, Hbody. simpl. by rewrite Hok, Herr.
Qed.

(** An array is never taken for an error envelope. *)
Lemma isErrorResponse_array (items : list Json) : isErrorResponse (JArr items) = false.
Proof. reflexivity. Qed.

Lemma isErrorResponse_envelope (data : Json) (m : string) :
  isEnvelope data m → isErrorResponse data = true ∧ envelopeMessage data = m.
Proof.
  intros (members & errMembers & -> & Herr & Hmsg).
  unfold isErrorResponse, envelopeMessage, stringMember, member. simpl.
  rewrite Herr. simpl. by rewrite Hmsg.
Qed.

(** The outcome of [fetchFromWrapper] on an error envelope served with a
    JSON content type. *)
Lemma fetchFromWrapper_envelope {T} `{Asserted T} (endpoint : string) (st : State V)
    (r : Response) (ct : string) (data : Json) (m : string) :
  outcome (network env (clock (world st)) (API_BASE_URL env +:+ endpoint)) = Answer r →
  contentType r = Some ct →
  Js.includes ct "application/json" = true →
  body r = inr data →
  isEnvelope data m →
  fst (fetchFromWrapper env (T:=T) endpoint st) =
  Abrupt (APIError
            (if ok r then m
             else Js.or_else m ("HTTP error! status: " +:+ Js.Number_toString (http_status r)))
            (Some (http_status r))).
Proof.
  intros Hnet Hct Hjson Hbody Henv. run_wrapper.
  destruct (isErrorResponse_envelope _ _ Henv) as [Hyes Hm].
  rewrite Hnet, Hct.
  assert (Js.truthy ct = true) as ->.
  { apply truthy_true. intros ->. discriminate. }
  rewrite Hjson, Hbody. simpl. rewrite Hyes, Hm.
  by destruct (ok r).
Qed.
End ApiFacts.

(** C4, as amended.  A response served with a JSON content type whose body
    is an error envelope makes the call fail with an [APIError] that has the
    status of the response, whatever that status is; the error carries the
    message of the envelope when the status is a success status or the
    message is not empty, and the text [HTTP error! status: N] when the
    status is not a success status and the message is empty. *)
Theorem fetchFromWrapper_error_envelope {V T : Type} `{Asserted T} (env : Env)
    (endpoint : string) (st : State V) (r : Response) (ct : string) (data : Json)
    (m : string) :
  outcome (network env (clock (world st)) (API_BASE_URL env +:+ endpoint)) = Answer r →
  contentType r = Some ct →
  Js.includes ct "application/json" = true →
  body r = inr data →
  isEnvelope data m →
  ∃ msg,
    fst (fetchFromWrapper env (T:=T) endpoint st) =
      Abrupt (APIError msg (Some (http_status r))) ∧
    (ok r = true ∨ m ≠ "" → msg = m) ∧
    (ok r = false → m = "" →
     msg = "HTTP error! status: " +:+ Js.Number_toString (http_status r)).
Proof.
  intros Hnet Hct Hjson Hbody Henv.
  eexists. split.
  - by apply (fetchFromWrapper_envelope env endpoint st r ct data m).
  - split.
    + intros [->| Hm]; [reflexivity|].
      destruct (ok r); [reflexivity|].
      unfold Js.or_else. by apply truthy_true in Hm as ->.
    + intros -> ->. reflexivity.
Qed.

Lemma fetchFromWrapper_error_envelope_witness :
  ∃ msg,
    fst (fetchFromWrapper (answering 0 (Answer (jsonResponse 200 (envelope "boom"))))
           (T:=Json) "/stations" {| world := initialWorld 0; view := tt |}) =
      Abrupt (APIError msg (Some 200)) ∧
    msg = "boom".
Proof.
  destruct (fetchFromWrapper_error_envelope (T:=Json)
              (answering 0 (Answer (jsonResponse 200 (envelope "boom")))) "/stations"
              {| world := initialWorld 0; view := tt |}
              (jsonResponse 200 (envelope "boom")) "application/json; charset=utf-8"
              (envelope "boom") "boom")
    as (msg & Hres & Hmsg & _).
  - reflexivity.
  - reflexivity.
  - reflexivity.
  - reflexivity.
  - by exists [("error", JObj [("message", JStr "boom")])], [("message", JStr "boom")].
  - exists msg. split; [exact Hres|]. apply Hmsg. by left.
Defined.

(** C4, as stated, fails: with status 500 an envelope whose message is empty
    gives an error that carries the generic text, and an envelope served
    without a JSON content type gives the invalid format error. *)
Lemma fetchFromWrapper_error_envelope_counterexample :
  (isEnvelope (envelope "") "" ∧
   ¬ carriesMessage
       (fst (fetchFromWrapper (answering 0 (Answer (jsonResponse 500 (envelope ""))))
               (T:=Json) "/stations" {| world := initialWorld 0; view := tt |})) "") ∧
  (isEnvelope (envelope "boom") "boom" ∧
   ¬ carriesMessage
       (fst (fetchFromWrapper
               (answering 0 (Answer {| http_status := 200; contentType := Some "text/html";
                                       body := inr (envelope "boom") |}))
               (T:=Json) "/stations" {| world := initialWorld 0; view := tt |})) "boom").
Proof.
  split; split.
  - by exists [("error", JObj [("message", JStr "")])], [("message", JStr "")].
  - intros [code H]. vm_compute in H. discriminate.
  - by exists [("error", JObj [("message", JStr "boom")])], [("message", JStr "boom")].
  - intros [code H]. vm_compute in H. discriminate.
Qed.

(** ** Departures: the request and the conversion *)

Lemma startsWith_empty (s : string) : Js.startsWith s "" = true.
Proof. by destruct s. Qed.

Lemma includes_char_app (c : ascii) (a b : string) :
  Js.includes (a +:+ b) (String c "") =
  Js.includes a (String c "") || Js.includes b (String c "").
Proof.
  induction a as [|x a IH].
  - by rewrite append_empty_l.
  - rewrite append_cons, (includes_unfold (String x (a +:+ b))),
      (includes_unfold (String x a)), IH.
    simpl. by rewrite !startsWith_empty, orb_assoc.
Qed.

Lemma fetchDepartures_request {V : Type} (env : Env) (stationId : string)
    (limitMinutes : option Z) (source : option Source) (st : State V) :
  stationId ≠ "" →
  snd (fetchDepartures env stationId limitMinutes source st) =
  requested env (departuresEndpoint stationId limitMinutes source) st.
Proof.
  intros Hid. unfold fetchDepartures.
  apply truthy_true in Hid as ->. simpl. unfold bind.
  pose proof (fetchFromWrapper_state env (T:=Json)
                (departuresEndpoint stationId limitMinutes source) st) as H.
  destruct (fetchFromWrapper env _ st) as [[raws|e] st']; simpl in *; subst; [|done].
  unfold await, throw, ret.
  destruct raws as [| | | |items|]; try reflexivity.
  by destruct (Array_map (processDeparture env) items).
Qed.

(** C9. When [source] is given and [limitMinutes] is absent or not positive,
    the path requested is [/departures/{stationId}&source=...]: the source is
    appended with an ampersand and no question mark is put before it. *)
Theorem departuresEndpoint_source_without_limit (stationId : string)
    (limitMinutes : option Z) (source : Source) :
  (limitMinutes = None ∨ ∃ l, limitMinutes = Some l ∧ l <= 0) →
  departuresEndpoint stationId limitMinutes (Some source) =
    "/departures/" +:+ stationId +:+ "&source=" +:+ sourceName source ∧
  (Js.includes stationId "?" = false →
   Js.includes (departuresEndpoint stationId limitMinutes (Some source)) "?" = false) ∧
  (∀ (env : Env) (st : State unit),
     stationId ≠ "" →
     requests (world (snd (fetchDepartures env stationId limitMinutes (Some source) st))) =
     requests (world st) ++
       [API_BASE_URL env +:+ "/departures/" +:+ stationId +:+ "&source=" +:+ sourceName source]).
Proof.
  intros Hlimit.
  assert (departuresEndpoint stationId limitMinutes (Some source) =
          "/departures/" +:+ stationId +:+ "&source=" +:+ sourceName source) as Hpath.
  { unfold departuresEndpoint.
    destruct Hlimit as [->|(l & -> & Hl)].
    - by rewrite append_assoc.
    - assert ((0 <? l) = false) as -> by lia.
      rewrite andb_false_r. by rewrite append_assoc. }
  split; [exact Hpath|]. split.
  - intros Hid. rewrite Hpath, !includes_char_app, Hid.
    by destruct source.
  - intros env st Hid. rewrite fetchDepartures_request by exact Hid.
    by rewrite Hpath.
Qed.

Lemma departuresEndpoint_source_without_limit_witness :
  departuresEndpoint "A27" (Some 0) (Some realtime) = "/departures/A27&source=realtime".
Proof.
  apply (departuresEndpoint_source_without_limit "A27" (Some 0) realtime).
  right. exists 0. split; [reflexivity | lia].
Defined.

(** *** The conversion of the document *)

Lemma Array_map_Normal {A B : Type} (f : A → Completion B) (g : A → B) (items : list A) :
  (∀ item, item ∈ items → f item = Normal (g item)) →
  Array_map f items = Normal (map g items).
Proof.
  induction items as [|item items IH]; intros Hf; [reflexivity|].
  cbn [Array_map map]. rewrite (Hf item) by left.
  rewrite IH; [reflexivity|]. intros x Hx. apply Hf. by right.
Qed.

Lemma Array_map_Abrupt {A B : Type} (f : A → Completion B) (items : list A) (item : A) :
  item ∈ items → (∃ e, f item = Abrupt e) → ∃ e, Array_map f items = Abrupt e.
Proof.
  intros Hin [e He]. induction items as [|x items IH]; [by apply elem_of_nil in Hin|].
  cbn [Array_map]. apply elem_of_cons in Hin as [<-|Hin].
  - rewrite He. eauto.
  - destruct (f x) as [b|e']; [|eauto].
    destruct (IH Hin) as [e' ->]. eauto.
Qed.

Lemma processDeparture_converted (env : Env) (dep : Json) :
  dep ≠ JNull → processDeparture env dep = Normal (converted env dep).
Proof. by destruct dep. Qed.

Lemma map_raw_converted (env : Env) (items : list Json) :
  map raw (map (converted env) items) = items.
Proof. rewrite map_map. cbn [converted raw]. apply map_id. Qed.

(** What [fetchDepartures] makes of the document that a response with a
    success status carries. *)
Lemma fetchDepartures_document {V : Type} (env : Env) (stationId : string)
    (limitMinutes : option Z) (source : option Source) (st : State V)
    (r : Response) (ct : string) (data : Json) :
  stationId ≠ "" →
  outcome (network env (clock (world st))
             (API_BASE_URL env +:+ departuresEndpoint stationId limitMinutes source)) =
    Answer r →
  contentType r = Some ct →
  Js.includes ct "application/json" = true →
  body r = inr data →
  ok r = true →
  isErrorResponse data = false →
  fst (fetchDepartures env stationId limitMinutes source st) =
    match data with
    | JArr items => Array_map (processDeparture env) items
    | JNull => Abrupt (Error "Cannot read properties of null (reading 'map')")
    | _ => Abrupt (Error "rawDepartures.map is not a function")
    end.
Proof.
  intros Hid Hnet Hct Hjson Hbody Hok Herr.
  unfold fetchDepartures. apply truthy_true in Hid as ->. simpl. unfold bind.
  rewrite (fetchFromWrapper_ok env (T:=Json) _ st r ct data Hnet Hct Hjson Hbody Hok Herr).
  unfold as_type, Asserted_Json, await, throw, ret.
  destruct data as [| | | |items|]; try reflexivity.
  by destruct (Array_map (processDeparture env) items).
Qed.

Lemma fetchDepartures_array {V : Type} (env : Env) (stationId : string)
    (limitMinutes : option Z) (source : option Source) (st : State V)
    (r : Response) (ct : string) (items : list Json) :
  stationId ≠ "" →
  outcome (network env (clock (world st))
             (API_BASE_URL env +:+ departuresEndpoint stationId limitMinutes source)) =
    Answer r →
  contentType r = Some ct →
  Js.includes ct "application/json" = true →
  body r = inr (JArr items) →
  ok r = true →
  JNull ∉ items →
  fst (fetchDepartures env stationId limitMinutes source st) =
    Normal (map (converted env) items).
Proof.
  intros Hid Hnet Hct Hjson Hbody Hok Hnull.
  rewrite (fetchDepartures_document env stationId limitMinutes source st r ct (JArr items))
    by done.
  apply Array_map_Normal. intros item Hitem. apply processDeparture_converted.
  by intros ->.
Qed.

Lemma converted_delayMinutes (env : Env) (dep : Json) :
  (member "delayMinutes" dep = Some (JNum 0) → p_delayMinutes (converted env dep) = None) ∧
  (∀ n, member "delayMinutes" dep = Some (JNum n) → n ≠ 0 →
        p_delayMinutes (converted env dep) = Some (Js.Int n)).
Proof.
  unfold converted. cbn [p_delayMinutes]. split.
  - by intros ->.
  - intros n -> Hn. cbn [truthyValue ToNumber].
    by apply Z.eqb_neq in Hn as ->.
Qed.



(** ** Sorting *)

Section SortFacts.
Context {A : Type} (comparefn : A → A → Z).

Lemma insertInOrder_Permutation (x : A) (l : list A) :
  insertInOrder comparefn x l ≡ₚ x :: l.
Proof.
  induction l as [|y l IH]; simpl; [done|].
  destruct (0 <? comparefn x y); [|done].
  rewrite IH. apply Permutation_swap.
Qed.

Lemma Array_sort_Permutation (l : list A) : Array_sort comparefn l ≡ₚ l.
Proof.
  induction l as [|x l IH]; simpl; [done|].
  by rewrite insertInOrder_Permutation, IH.
Qed.

(** An element that has to follow all of [front], and does not have to
    follow the first of [back], is inserted between the two. *)
Lemma insertInOrder_between (x : A) (front back : list A) :
  Forall (fun y => 0 < comparefn x y) front →
  (∀ b back', back = b :: back' → comparefn x b <= 0) →
  insertInOrder comparefn x (front ++ back) = front ++ x :: back.
Proof.
  intros Hfront Hback. induction Hfront as [|y front Hy _ IH]; simpl.
  - destruct back as [|b back']; [done|]. simpl.
    specialize (Hback b back' eq_refl).
    by assert ((0 <? comparefn x b) = false) as -> by lia.
  - assert ((0 <? comparefn x y) = true) as -> by lia. by rewrite IH.
Qed.

Section WithConsistent.
Hypothesis consistent : Consistent comparefn.

Lemma notAfter_total (a b : A) : notAfter comparefn a b ∨ notAfter comparefn b a.
Proof.
  unfold notAfter. destruct (Z_le_gt_dec (comparefn a b) 0) as [H|H]; [by left|].
  right. assert (comparefn b a < 0); [|lia].
  apply (compare_flip _ consistent). lia.
Qed.

Lemma notAfter_trans (a b c : A) :
  notAfter comparefn a b → notAfter comparefn b c → notAfter comparefn a c.
Proof. apply (compare_trans _ consistent). Qed.

Lemma tied_sym (a b : A) : tied comparefn a b = true → tied comparefn b a = true.
Proof.
  unfold tied. rewrite !Z.eqb_eq. intros H.
  pose proof (compare_flip _ consistent a b).
  pose proof (compare_flip _ consistent b a). lia.
Qed.

Lemma tied_trans (a b c : A) :
  tied comparefn a b = true → tied comparefn b c = true → tied comparefn a c = true.
Proof.
  intros Hab Hbc.
  pose proof (tied_sym _ _ Hab) as Hba. pose proof (tied_sym _ _ Hbc) as Hcb.
  unfold tied in *. rewrite Z.eqb_eq in *.
  pose proof (compare_trans _ consistent a b c).
  pose proof (compare_trans _ consistent c b a).
  pose proof (compare_flip _ consistent a c). lia.
Qed.

Lemma insertInOrder_Sorted (x : A) (l : list A) :
  Sorted (notAfter comparefn) l → Sorted (notAfter comparefn) (insertInOrder comparefn x l).
Proof.
  induction 1 as [|y l Hl IH Hhd]; simpl.
  - by repeat constructor.
  - destruct (0 <? comparefn x y) eqn:Hxy.
    + apply Z.ltb_lt in Hxy.
      assert (notAfter comparefn y x) as Hyx.
      { unfold notAfter. apply (compare_flip _ consistent) in Hxy. lia. }
      constructor; [exact IH|].
      destruct Hhd as [|z l Hyz]; simpl; [by constructor|].
      destruct (0 <? comparefn x z); by constructor.
    + apply Z.ltb_ge in Hxy. repeat constructor; done.
Qed.

Lemma Array_sort_Sorted (l : list A) : Sorted (notAfter comparefn) (Array_sort comparefn l).
Proof.
  induction l as [|x l IH]; simpl; [constructor|].
  by apply insertInOrder_Sorted.
Qed.

Lemma Array_sort_StronglySorted (l : list A) :
  StronglySorted (notAfter comparefn) (Array_sort comparefn l).
Proof.
  apply Sorted_StronglySorted; [|apply Array_sort_Sorted].
  intros a b c. apply notAfter_trans.
Qed.

Lemma insertInOrder_tied (z x : A) (l : list A) :
  List.filter (tied comparefn z) (insertInOrder comparefn x l) =
  List.filter (tied comparefn z) (x :: l).
Proof.
  induction l as [|y l IH]; [done|]. simpl.
  destruct (0 <? comparefn x y) eqn:Hxy; [|done].
  simpl. rewrite IH. simpl.
  destruct (tied comparefn z x) eqn:Hzx; [|done].
  destruct (tied comparefn z y) eqn:Hzy; [|done].
  exfalso. apply Z.ltb_lt in Hxy.
  pose proof (tied_trans _ _ _ (tied_sym _ _ Hzx) Hzy) as Hxy0.
  unfold tied in Hxy0. apply Z.eqb_eq in Hxy0. lia.
Qed.

(** The sort is stable: the elements that compare as equal to [z] keep
    the order they had. *)
Lemma Array_sort_stable (z : A) (l : list A) :
  List.filter (tied comparefn z) (Array_sort comparefn l) =
  List.filter (tied comparefn z) l.
Proof.
  induction l as [|x l IH]; [done|]. simpl Array_sort.
  rewrite insertInOrder_tied. simpl. by rewrite IH.
Qed.
Lemma tied_refl (a : A) : tied comparefn a a = true.
Proof.
  unfold tied. apply Z.eqb_eq.
  pose proof (compare_flip _ consistent a a). lia.
Qed.

Lemma filter_tied_tail (z x : A) (l l' : list A) :
  List.filter (tied comparefn z) (x :: l) = List.filter (tied comparefn z) (x :: l') →
  List.filter (tied comparefn z) l = List.filter (tied comparefn z) l'.
Proof.
  simpl. destruct (tied comparefn z x); [by intros [= ?]|done].
Qed.

(** The result does not depend on the sorting algorithm: a sorted list in
    which the elements that compare as equal are in the order they have in
    [l] is the list that the embedding computes. *)
Lemma stable_sorted_unique (l sorted : list A) :
  StronglySorted (notAfter comparefn) sorted →
  (∀ z, List.filter (tied comparefn z) sorted = List.filter (tied comparefn z) l) →
  sorted = Array_sort comparefn l.
Proof.
  intros Hsorted Hstable.
  assert (∀ z, List.filter (tied comparefn z) sorted =
               List.filter (tied comparefn z) (Array_sort comparefn l)) as Hsame.
  { intros z. by rewrite Array_sort_stable. }
  pose proof (Array_sort_StronglySorted l) as Hsorted'.
  clear Hstable. revert Hsorted' Hsame.
  generalize (Array_sort comparefn l). clear l.
  induction Hsorted as [|x l1 Hl1 IH Hx]; intros l2 Hl2 Hsame.
  - destruct l2 as [|y l2]; [done|].
    specialize (Hsame y). simpl in Hsame. by rewrite tied_refl in Hsame.
  - destruct l2 as [|y l2].
    { specialize (Hsame x). simpl in Hsame. by rewrite tied_refl in Hsame. }
    assert (x = y) as <-.
    { pose proof (Hsame x) as Hx'. simpl in Hx'. rewrite tied_refl in Hx'.
      destruct (tied comparefn x y) eqn:Hxy; [by injection Hx'|].
      exfalso.
      assert (In x l2) as Hin2.
      { assert (In x (List.filter (tied comparefn x) l2)) as Hin
          by (rewrite <- Hx'; by left).
        by apply List.filter_In in Hin as [? _]. }
      assert (In y l1) as Hin1.
      { pose proof (Hsame y) as Hy. simpl in Hy. rewrite tied_refl in Hy.
        assert (tied comparefn y x = false) as Hyx.
        { destruct (tied comparefn y x) eqn:Hyx; [|done].
          apply tied_sym in Hyx. congruence. }
        rewrite Hyx in Hy.
        assert (In y (List.filter (tied comparefn y) l1)) as Hin
          by (rewrite Hy; by left).
        by apply List.filter_In in Hin as [? _]. }
      apply StronglySorted_inv in Hl2 as [_ Hy].
      rewrite List.Forall_forall in Hx, Hy.
      specialize (Hx y Hin1). specialize (Hy x Hin2).
      unfold notAfter, tied in *. apply Z.eqb_neq in Hxy.
      pose proof (compare_flip _ consistent x y). lia. }
    f_equal. apply IH.
    + by apply StronglySorted_inv in Hl2 as [? _].
    + intros z. by apply (filter_tied_tail z x).
Qed.
End WithConsistent.
End SortFacts.

Lemma Consistent_by_key {A B : Type} (key : A → B) (compare : B → B → Z) :
  Consistent compare → Consistent (fun a b => compare (key a) (key b)).
Proof.
  intros [Hflip Htrans]. split.
  - intros a b. apply Hflip.
  - intros a b c. apply Htrans.
Qed.

Lemma byteCompare_Consistent : Consistent byteCompare.
Proof.
  assert (∀ a b, byteCompare a b <= 0 ↔ String.le a b) as Hle.
  { intros a b. unfold byteCompare, String.le, String.leb.
    destruct (String.compare a b); simpl; intuition (try lia; try done). }
  split.
  - intros a b. unfold byteCompare.
    rewrite (String.compare_antisym a b).
    destruct (String.compare b a); simpl; lia.
  - intros a b c. rewrite !Hle. intros. by etrans.
Qed.

(** Two consistent comparisons, the second deciding where the first gives
    equal, make a consistent comparison. *)
Lemma Consistent_lex {A : Type} (c1 c2 : A → A → Z) :
  Consistent c1 → Consistent c2 →
  Consistent (fun a b => if c1 a b =? 0 then c2 a b else c1 a b).
Proof.
  intros [F1 T1] [F2 T2]. split.
  - intros a b. pose proof (F1 a b). pose proof (F1 b a). pose proof (F2 a b).
    destruct (Z.eqb_spec (c1 a b) 0), (Z.eqb_spec (c1 b a) 0); lia.
  - intros a b c.
    pose proof (F1 a b). pose proof (F1 b a). pose proof (F1 b c). pose proof (F1 c b).
    pose proof (F1 a c). pose proof (F1 c a).
    pose proof (T1 a b c). pose proof (T1 b c a). pose proof (T1 c a b).
    pose proof (T1 a c b). pose proof (T1 c b a). pose proof (T1 b a c).
    pose proof (T2 a b c).
    destruct (Z.eqb_spec (c1 a b) 0), (Z.eqb_spec (c1 b c) 0), (Z.eqb_spec (c1 a c) 0);
      lia.
Qed.

Lemma letterCompare_Consistent : Consistent letterCompare.
Proof.
  apply (Consistent_lex
           (fun a b => byteCompare (Js.toLowerCase a) (Js.toLowerCase b))
           (fun a b => byteCompare b a)).
  - apply (Consistent_by_key Js.toLowerCase byteCompare byteCompare_Consistent).
  - destruct byteCompare_Consistent as [F T]. split.
    + intros a b. apply F.
    + intros a b c Hab Hbc. by apply (T c b a).
Qed.

(** ** Favourite and other stations *)

Lemma filter_complement_Permutation {A : Type} (p : A → bool) (l : list A) :
  List.filter p l ++ List.filter (fun x => negb (p x)) l ≡ₚ l.
Proof.
  induction l as [|x l IH]; simpl; [done|].
  destruct (p x); simpl.
  - by rewrite IH.
  - by rewrite <- Permutation_middle, IH.
Qed.

Lemma splitStations_filter (favorite : string → bool) (stations : list Station) :
  splitStations favorite stations =
  (List.filter (fun s => favorite (id s)) stations,
   List.filter (fun s => negb (favorite (id s))) stations).
Proof.
  unfold splitStations.
  enough (∀ acc,
    fold_left
      (fun acc station =>
         if favorite (id station)
         then (fst acc ++ [station], snd acc)
         else (fst acc, snd acc ++ [station]))
      stations acc =
    (fst acc ++ List.filter (fun s => favorite (id s)) stations,
     snd acc ++ List.filter (fun s => negb (favorite (id s))) stations)) as H
    by apply (H ([], [])).
  induction stations as [|s stations IH]; intros acc; simpl.
  - rewrite !app_nil_r. by destruct acc.
  - rewrite IH. destruct (favorite (id s)); simpl; by rewrite <- app_assoc.
Qed.

Lemma elem_of_sorted_filter {A : Type} (compare : A → A → Z) (p : A → bool)
    (l : list A) (x : A) :
  x ∈ Array_sort compare (List.filter p l) ↔ x ∈ l ∧ p x = true.
Proof.
  rewrite (Array_sort_Permutation compare (List.filter p l)).
  rewrite !list_elem_of_In. apply List.filter_In.
Qed.

(** C7, as amended.  The stations are split by membership of their
    identifier in the set of favourites: each station is on exactly one side,
    and the two sides together are the stations.  Each side is sorted
    ascending by name under [localeCompare] with its default options, the
    comparison of the host, which is aware of the locale and does not ignore
    case; and the stations whose names that comparison gives as equal keep
    the order in which they were fetched. *)
Theorem favoriteAndOtherStations_partition (localeCompare : string → string → Z)
    (favorites : gset string) (stations : list Station) :
  Consistent localeCompare →
  (∀ s, s ∈ fst (favoriteAndOtherStations localeCompare favorites stations) ↔
        s ∈ stations ∧ id s ∈ favorites) ∧
  (∀ s, s ∈ snd (favoriteAndOtherStations localeCompare favorites stations) ↔
        s ∈ stations ∧ id s ∉ favorites) ∧
  fst (favoriteAndOtherStations localeCompare favorites stations) ++
    snd (favoriteAndOtherStations localeCompare favorites stations) ≡ₚ stations ∧
  StronglySorted (fun a b => localeCompare (name a) (name b) <= 0)
    (fst (favoriteAndOtherStations localeCompare favorites stations)) ∧
  StronglySorted (fun a b => localeCompare (name a) (name b) <= 0)
    (snd (favoriteAndOtherStations localeCompare favorites stations)) ∧
  (∀ n,
     List.filter (fun s => localeCompare n (name s) =? 0)
       (fst (favoriteAndOtherStations localeCompare favorites stations)) =
     List.filter (fun s => localeCompare n (name s) =? 0)
       (List.filter (fun s => bool_decide (id s ∈ favorites)) stations)) ∧
  (∀ n,
     List.filter (fun s => localeCompare n (name s) =? 0)
       (snd (favoriteAndOtherStations localeCompare favorites stations)) =
     List.filter (fun s => localeCompare n (name s) =? 0)
       (List.filter (fun s => negb (bool_decide (id s ∈ favorites))) stations)).
Proof.
  intros Hcmp.
  assert (Consistent (compareByName localeCompare)) as Hname
    by apply (Consistent_by_key name localeCompare Hcmp).
  unfold favoriteAndOtherStations. rewrite splitStations_filter. simpl.
  split_and!.
  - intros s. rewrite elem_of_sorted_filter. unfold isFavorite.
    by rewrite bool_decide_eq_true.
  - intros s. rewrite elem_of_sorted_filter. unfold isFavorite.
    by rewrite negb_true_iff, bool_decide_eq_false.
  - rewrite !Array_sort_Permutation. apply filter_complement_Permutation.
  - by apply (Array_sort_StronglySorted (compareByName localeCompare)).
  - by apply (Array_sort_StronglySorted (compareByName localeCompare)).
  - intros n.
    by apply (Array_sort_stable (compareByName localeCompare) Hname (stationNamed "" n)).
  - intros n.
    by apply (Array_sort_stable (compareByName localeCompare) Hname (stationNamed "" n)).
Qed.

Lemma favoriteAndOtherStations_partition_witness :
  StronglySorted (fun a b => byteCompare (name a) (name b) <= 0)
    (snd (favoriteAndOtherStations byteCompare {["631"]}
            [stationNamed "127" "Times Sq-42 St"; stationNamed "A34" "Canal St";
             stationNamed "631" "Grand Central-42 St"; stationNamed "639" "Canal St";
             stationNamed "635" "Astor Pl"])) ∧
  List.filter (fun s => byteCompare "Canal St" (name s) =? 0)
    (snd (favoriteAndOtherStations byteCompare {["631"]}
            [stationNamed "127" "Times Sq-42 St"; stationNamed "A34" "Canal St";
             stationNamed "631" "Grand Central-42 St"; stationNamed "639" "Canal St";
             stationNamed "635" "Astor Pl"])) =
    [stationNamed "A34" "Canal St"; stationNamed "639" "Canal St"] ∧
  (stationNamed "631" "Grand Central-42 St"
     ∈ fst (favoriteAndOtherStations byteCompare {["631"]}
              [stationNamed "127" "Times Sq-42 St"; stationNamed "A34" "Canal St";
               stationNamed "631" "Grand Central-42 St"; stationNamed "639" "Canal St";
               stationNamed "635" "Astor Pl"]) ↔
   stationNamed "631" "Grand Central-42 St"
     ∈ [stationNamed "127" "Times Sq-42 St"; stationNamed "A34" "Canal St";
        stationNamed "631" "Grand Central-42 St"; stationNamed "639" "Canal St";
        stationNamed "635" "Astor Pl"] ∧
   id (stationNamed "631" "Grand Central-42 St") ∈ ({["631"]} : gset string)).
Proof.
  destruct (favoriteAndOtherStations_partition byteCompare {["631"]}
              [stationNamed "127" "Times Sq-42 St"; stationNamed "A34" "Canal St";
               stationNamed "631" "Grand Central-42 St"; stationNamed "639" "Canal St";
               stationNamed "635" "Astor Pl"] byteCompare_Consistent)
    as (Hfavorites & _ & _ & _ & Hsorted & _ & Hties).
  split_and!; [exact Hsorted | | apply Hfavorites].
  rewrite (Hties "Canal St"). vm_compute. reflexivity.
Defined.

(** C7, as stated, fails.  The names [Apple] and [apple] are equal under a
    comparison that ignores case, so that two stations with these names
    would have to stay in the order in which they were fetched.  The code
    calls [localeCompare] with its default options, which orders names that
    differ only in case, lower case first: the two stations are no tie, and
    they change places. *)
Lemma favoriteAndOtherStations_partition_counterexample :
  Consistent letterCompare ∧
  Js.toLowerCase "Apple" = Js.toLowerCase "apple" ∧
  letterCompare "apple" "Apple" = -1 ∧
  favoriteAndOtherStations letterCompare ∅
    [stationNamed "1" "Apple"; stationNamed "2" "apple"] =
  ([], [stationNamed "2" "apple"; stationNamed "1" "Apple"]).
Proof.
  split_and!; [apply letterCompare_Consistent | reflexivity | reflexivity |].
  vm_compute. reflexivity.
Qed.

Example favoriteAndOtherStations_example :
  favoriteAndOtherStations byteCompare {["631"]}
    [stationNamed "127" "Times Sq-42 St"; stationNamed "631" "Grand Central-42 St";
     stationNamed "A27" "Canal St"] =
  ([stationNamed "631" "Grand Central-42 St"],
   [stationNamed "A27" "Canal St"; stationNamed "127" "Times Sq-42 St"]).
Proof. vm_compute. reflexivity. Qed.

(** Two stations of the same name stay in the order they were fetched. *)
Example favoriteAndOtherStations_ties :
  favoriteAndOtherStations byteCompare ∅
    [stationNamed "A34" "Canal St"; stationNamed "639" "Canal St";
     stationNamed "635" "Astor Pl"] =
  ([],
   [stationNamed "635" "Astor Pl"; stationNamed "A34" "Canal St";
    stationNamed "639" "Canal St"]).
Proof. vm_compute. reflexivity. Qed.

(** ** Sections of the departure list *)

Lemma existsb_eqb_elem_of (x : string) (l : list string) :
  existsb (String.eqb x) l = true ↔ x ∈ l.
Proof.
  rewrite existsb_exists, list_elem_of_In. split.
  - intros (y & Hy & Heq). by apply String.eqb_eq in Heq as ->.
  - intros H. exists x. split; [done | apply String.eqb_refl].
Qed.

Lemma firstSeen_snoc (labels : list string) (l : string) :
  firstSeen (labels ++ [l]) =
  if existsb (String.eqb l) (firstSeen labels) then firstSeen labels
  else firstSeen labels ++ [l].
Proof. unfold firstSeen. by rewrite fold_left_app. Qed.

Lemma grouped_snoc (departures : list ProcessedDeparture) (dep : ProcessedDeparture) :
  grouped (departures ++ [dep]) =
  pushDeparture (boroughOf dep) dep (grouped departures).
Proof. unfold grouped. by rewrite fold_left_app. Qed.

Lemma elem_of_firstSeen (labels : list string) (l : string) :
  l ∈ firstSeen labels ↔ l ∈ labels.
Proof.
  induction labels as [|x labels IH] using rev_ind.
  - done.
  - rewrite firstSeen_snoc, elem_of_app, list_elem_of_singleton, <- IH.
    destruct (existsb (String.eqb x) (firstSeen labels)) eqn:Hx.
    + apply existsb_eqb_elem_of in Hx. split; [tauto|]. intros [?| ->]; done.
    + by rewrite elem_of_app, list_elem_of_singleton.
Qed.

Lemma NoDup_firstSeen (labels : list string) : NoDup (firstSeen labels).
Proof.
  induction labels as [|x labels IH] using rev_ind.
  - constructor.
  - rewrite firstSeen_snoc.
    destruct (existsb (String.eqb x) (firstSeen labels)) eqn:Hx; [done|].
    apply NoDup_app. split_and!; [done| |apply NoDup_singleton].
    intros y Hy ->%list_elem_of_singleton.
    apply existsb_eqb_elem_of in Hy. congruence.
Qed.

Lemma pushDeparture_map (b : string) (dep : ProcessedDeparture)
    (G : string → list ProcessedDeparture) (keys : list string) :
  NoDup keys →
  pushDeparture b dep (map (fun k => (k, G k)) keys) =
  if existsb (String.eqb b) keys
  then map (fun k => (k, if String.eqb k b then G k ++ [dep] else G k)) keys
  else map (fun k => (k, G k)) keys ++ [(b, [dep])].
Proof.
  induction 1 as [|k keys Hk Hkeys IH]; simpl; [done|].
  rewrite (String.eqb_sym b k).
  destruct (String.eqb k b) eqn:Hkb; simpl.
  - apply String.eqb_eq in Hkb as ->. f_equal.
    apply map_ext_in. intros k Hin.
    destruct (String.eqb k b) eqn:Hkb; [|done].
    apply String.eqb_eq in Hkb as ->. by apply list_elem_of_In in Hin.
  - rewrite IH. by destruct (existsb (String.eqb b) keys).
Qed.

Lemma departuresTo_snoc (label : string) (departures : list ProcessedDeparture)
    (dep : ProcessedDeparture) :
  departuresTo label (departures ++ [dep]) =
  departuresTo label departures ++ (if String.eqb (boroughOf dep) label then [dep] else []).
Proof. unfold departuresTo. by rewrite List.filter_app. Qed.

Lemma departuresTo_nil (label : string) (departures : list ProcessedDeparture) :
  departuresTo label departures = [] ↔ label ∉ map boroughOf departures.
Proof.
  unfold departuresTo. induction departures as [|d departures IH]; simpl.
  - split; [intros _; apply not_elem_of_nil | done].
  - rewrite not_elem_of_cons, <- IH.
    destruct (String.eqb (boroughOf d) label) eqn:Hd.
    + apply String.eqb_eq in Hd. split; [done | intros [? _]; congruence].
    + apply String.eqb_neq in Hd. split; [intros; split; congruence | tauto].
Qed.

(** The groups: one per label, in the order the labels are first met, each
    with the departures that go there. *)
Lemma grouped_shape (departures : list ProcessedDeparture) :
  grouped departures =
  map (fun label => (label, departuresTo label departures))
    (firstSeen (map boroughOf departures)).
Proof.
  induction departures as [|dep departures IH] using rev_ind; [done|].
  rewrite grouped_snoc, IH, map_app. cbn [map].
  rewrite firstSeen_snoc, pushDeparture_map by apply NoDup_firstSeen.
  destruct (existsb (String.eqb (boroughOf dep)) (firstSeen (map boroughOf departures)))
    eqn:Hseen.
  - apply map_ext. intros k. rewrite departuresTo_snoc, (String.eqb_sym k).
    destruct (String.eqb (boroughOf dep) k); [done | by rewrite app_nil_r].
  - assert (boroughOf dep ∉ firstSeen (map boroughOf departures)) as Hnot.
    { intros Hin%existsb_eqb_elem_of. congruence. }
    rewrite map_app. simpl. f_equal.
    + apply map_ext_in. intros k Hin%list_elem_of_In.
      rewrite departuresTo_snoc.
      destruct (String.eqb (boroughOf dep) k) eqn:Hk; [|by rewrite app_nil_r].
      apply String.eqb_eq in Hk as <-. done.
    + rewrite departuresTo_snoc, String.eqb_refl.
      rewrite elem_of_firstSeen in Hnot. by apply departuresTo_nil in Hnot as ->.
Qed.

(** A comparison that puts the elements with [p] before all others and
    leaves the rest as equal sorts a list into the elements with [p] followed
    by the others, each in the order they had. *)
Lemma Array_sort_priority {A : Type} (comparefn : A → A → Z) (p : A → bool) (l : list A) :
  (∀ x y, p x = true → comparefn x y <= 0) →
  (∀ x y, p x = false → p y = true → 0 < comparefn x y) →
  (∀ x y, p x = false → p y = false → comparefn x y <= 0) →
  Array_sort comparefn l = List.filter p l ++ List.filter (fun x => negb (p x)) l.
Proof.
  intros Hfirst Hafter Hrest.
  induction l as [|x l IH]; [done|]. simpl. rewrite IH.
  destruct (p x) eqn:Hx; simpl.
  - apply (insertInOrder_between comparefn x []); [constructor|].
    intros b back' _. by apply Hfirst.
  - apply insertInOrder_between.
    + apply List.Forall_forall. intros y [_ Hy]%List.filter_In. by apply Hafter.
    + intros b back' Hb. apply Hrest; [done|].
      assert (In b (List.filter (fun x => negb (p x)) l)) as Hin
        by (rewrite Hb; by left).
      apply List.filter_In in Hin as [_ Hin]. by apply negb_true_iff.
Qed.

Lemma map_filter_key {A B : Type} (key : A → B) (p : B → bool) (l : list A) :
  map key (List.filter (fun x => p (key x)) l) = List.filter p (map key l).
Proof.
  induction l as [|x l IH]; [done|]. simpl.
  destruct (p (key x)); simpl; by rewrite IH.
Qed.

Lemma StronglySorted_map {A B : Type} (key : A → B) (R : relation B) (l : list A) :
  StronglySorted (fun a b => R (key a) (key b)) l → StronglySorted R (map key l).
Proof.
  induction 1 as [|x l Hl IH Hx]; simpl; constructor; [done|].
  apply List.Forall_forall. intros y (a & <- & Ha)%List.in_map_iff.
  rewrite List.Forall_forall in Hx. by apply Hx.
Qed.

(** *** The [reduce] *)

Lemma assoc_Some_key {A : Type} (k : string) (l : list (string * A)) (v : A) :
  assoc k l = Some v → k ∈ map fst l.
Proof.
  induction l as [|[k' v'] l IH]; [done|]. simpl.
  destruct (String.eqb k k') eqn:Hk.
  - apply String.eqb_eq in Hk as ->. intros _. left.
  - intros H. right. by apply IH.
Qed.

Lemma pushDeparture_keys (b : string) (dep : ProcessedDeparture)
    (acc : list (string * list ProcessedDeparture)) (k : string) :
  k ∈ map fst (pushDeparture b dep acc) → k = b ∨ k ∈ map fst acc.
Proof.
  induction acc as [|[k' ds] acc IH]; simpl.
  - intros ->%list_elem_of_singleton. by left.
  - destruct (String.eqb k' b); simpl.
    + intros H. by right.
    + intros [->|H]%elem_of_cons; [right; left|].
      destruct (IH H) as [->|?]; [by left | right; by right].
Qed.

Lemma Array_reduce_grouped (departures : list ProcessedDeparture)
    (acc : list (string * list ProcessedDeparture)) :
  (∀ dep, dep ∈ departures → inherited (boroughOf dep) = false) →
  Array_reduce reduceStep departures acc =
  Normal (fold_left (fun acc dep => pushDeparture (boroughOf dep) dep acc) departures acc).
Proof.
  revert acc. induction departures as [|dep departures IH]; intros acc Hnone; [done|].
  cbn [Array_reduce fold_left]. unfold reduceStep at 1.
  pose proof (Hnone dep ltac:(left)) as Hdep. unfold inherited in Hdep. rewrite Hdep.
  destruct (assoc (boroughOf dep) acc); apply IH; intros d Hd; apply Hnone; by right.
Qed.

(** The [reduce] gives the groups when no label is a name that the object
    inherits, and throws when one is. *)
Lemma groupByBorough_Normal (departures : list ProcessedDeparture) :
  (∀ dep, dep ∈ departures → inherited (boroughOf dep) = false) →
  groupByBorough departures = Normal (grouped departures).
Proof. apply Array_reduce_grouped. Qed.

Lemma Array_reduce_inherited (departures : list ProcessedDeparture)
    (acc : list (string * list ProcessedDeparture)) (dep : ProcessedDeparture) :
  (∀ k, k ∈ map fst acc → inherited k = false) →
  dep ∈ departures → inherited (boroughOf dep) = true →
  Array_reduce reduceStep departures acc =
    Abrupt (Error "acc[borough]?.push is not a function").
Proof.
  revert acc. induction departures as [|d departures IH]; intros acc Hacc Hin Hdep;
    [by apply elem_of_nil in Hin|].
  cbn [Array_reduce]. unfold reduceStep at 1.
  destruct (inherited (boroughOf d)) eqn:Hd.
  - destruct (assoc (boroughOf d) acc) as [ds|] eqn:Hown.
    + apply assoc_Some_key, Hacc in Hown. congruence.
    + unfold inherited in Hd. by rewrite Hd.
  - assert (Array_reduce reduceStep departures (pushDeparture (boroughOf d) d acc) =
            Abrupt (Error "acc[borough]?.push is not a function")) as Hrest.
    { apply IH; [|by apply elem_of_cons in Hin as [->|?]; [congruence|]|done].
      intros k [->|Hk]%pushDeparture_keys; [done | by apply Hacc]. }
    unfold inherited in Hd. rewrite Hd. by destruct (assoc (boroughOf d) acc).
Qed.

Lemma groupByBorough_inherited (departures : list ProcessedDeparture)
    (dep : ProcessedDeparture) :
  dep ∈ departures → inherited (boroughOf dep) = true →
  groupByBorough departures = Abrupt (Error "acc[borough]?.push is not a function").
Proof.
  apply Array_reduce_inherited. intros k Hk. by apply elem_of_nil in Hk.
Qed.

Lemma groupByBorough_inv (departures : list ProcessedDeparture)
    (groups : list (string * list ProcessedDeparture)) :
  groupByBorough departures = Normal groups →
  groups = grouped departures ∧ ∀ dep, dep ∈ departures → inherited (boroughOf dep) = false.
Proof.
  intros Hgroups.
  assert (∀ dep, dep ∈ departures → inherited (boroughOf dep) = false) as Hnone.
  { intros dep Hdep. destruct (inherited (boroughOf dep)) eqn:Hinh; [|done].
    rewrite (groupByBorough_inherited departures dep Hdep Hinh) in Hgroups. discriminate. }
  split; [|done]. rewrite groupByBorough_Normal in Hgroups by done. by injection Hgroups.
Qed.

(** *** [Object.entries] *)

Lemma insertInOrder_map {A B : Type} (f : A → B) (compareA : A → A → Z)
    (compareB : B → B → Z) (x : A) (l : list A) :
  (∀ a b, compareB (f a) (f b) = compareA a b) →
  insertInOrder compareB (f x) (map f l) = map f (insertInOrder compareA x l).
Proof.
  intros Hf. induction l as [|y l IH]; [done|]. simpl. rewrite Hf.
  destruct (0 <? compareA x y); [|done]. simpl. by rewrite IH.
Qed.

Lemma Array_sort_map {A B : Type} (f : A → B) (compareA : A → A → Z)
    (compareB : B → B → Z) (l : list A) :
  (∀ a b, compareB (f a) (f b) = compareA a b) →
  Array_sort compareB (map f l) = map f (Array_sort compareA l).
Proof.
  intros Hf. induction l as [|x l IH]; [done|]. simpl.
  by rewrite IH, (insertInOrder_map f compareA compareB).
Qed.

Lemma Object_entries_keys {A : Type} (G : string → A) (names : list string) :
  Object_entries (map (fun name => (name, G name)) names) =
  map (fun name => (name, G name)) (entryOrder names).
Proof.
  unfold Object_entries, entryOrder. rewrite map_app.
  rewrite <- (map_filter_key (fun name => (name, G name))
                (fun entry => isArrayIndex (fst entry)) names).
  rewrite <- (map_filter_key (fun name => (name, G name))
                (fun entry => negb (isArrayIndex (fst entry))) names).
  cbn [fst]. f_equal.
  by apply Array_sort_map.
Qed.

Lemma compareIndex_Consistent : Consistent compareIndex.
Proof. split; unfold compareIndex; intros; lia. Qed.

(** The order of [Object.entries]: a rearrangement in which the names that
    are array indices come first, in ascending order, and the other names
    keep the order they had. *)
Lemma entryOrder_Permutation (names : list string) : entryOrder names ≡ₚ names.
Proof.
  unfold entryOrder. rewrite Array_sort_Permutation.
  apply filter_complement_Permutation.
Qed.

Lemma entryOrder_no_index (names : list string) :
  (∀ name, name ∈ names → isArrayIndex name = false) → entryOrder names = names.
Proof.
  intros Hnone. unfold entryOrder.
  assert (List.filter isArrayIndex names = []) as ->.
  { induction names as [|x names IH]; [done|]. simpl.
    rewrite (Hnone x) by left. apply IH. intros y Hy. apply Hnone. by right. }
  simpl. induction names as [|x names IH]; [done|]. simpl.
  rewrite (Hnone x) by left. simpl. f_equal. apply IH. intros y Hy. apply Hnone. by right.
Qed.

Lemma filter_sorted_indices (p : string → bool) (names : list string) :
  (∀ name, isArrayIndex name = true → p name = false) →
  List.filter p (entryOrder names) =
  List.filter p (List.filter (fun name => negb (isArrayIndex name)) names).
Proof.
  intros Hp. unfold entryOrder. rewrite List.filter_app.
  assert (List.filter p (Array_sort compareIndex (List.filter isArrayIndex names)) = [])
    as ->; [|done].
  assert (∀ l : list string, (∀ x, x ∈ l → p x = false) → List.filter p l = []) as Hnil.
  { induction l as [|x l IH]; intros Hl; [done|]. simpl.
    rewrite (Hl x) by left. apply IH. intros y Hy. apply Hl. by right. }
  apply Hnil. intros x Hx. rewrite Array_sort_Permutation in Hx.
  apply list_elem_of_In, List.filter_In in Hx as [_ Hx]. by apply Hp.
Qed.

Section SectionFacts.
Context (utils : DateUtils) (localeCompare : string → string → Z) (station : StationProps).

Lemma Array_map_listItem (departures : list ProcessedDeparture) :
  (∀ dep, dep ∈ departures → buildable utils dep) →
  ∃ accessories, Array_map (listItem utils) departures = Normal accessories.
Proof.
  induction departures as [|dep departures IH]; intros Hall; [by exists []|].
  destruct (Hall dep ltac:(left)) as [accessory Hdep].
  destruct IH as [accessories Hrest]; [intros d Hd; apply Hall; by right|].
  exists (accessory :: accessories). cbn [Array_map]. by rewrite Hdep, Hrest.
Qed.

Lemma Array_map_listItem_inv (departures : list ProcessedDeparture)
    (accessories : list Accessory) :
  Array_map (listItem utils) departures = Normal accessories →
  ∀ dep, dep ∈ departures → buildable utils dep.
Proof.
  revert accessories. induction departures as [|d departures IH]; intros accessories H dep Hdep;
    [by apply elem_of_nil in Hdep|].
  cbn [Array_map] in H. destruct (listItem utils d) as [a|e] eqn:Hd; [|discriminate].
  destruct (Array_map (listItem utils) departures) as [rest|e] eqn:Hrest; [|discriminate].
  apply elem_of_cons in Hdep as [->|Hdep]; [by exists a | by apply (IH rest)].
Qed.

Lemma Array_map_sectionOfEntry (entries : list (string * list ProcessedDeparture)) :
  (∀ entry, entry ∈ entries → snd entry ≠ []) →
  (∀ entry dep, entry ∈ entries → dep ∈ snd entry → buildable utils dep) →
  Array_map (sectionOfEntry utils) entries = Normal (map (fun e => Some (sectionOf e)) entries).
Proof.
  intros Hfull Hbuild. apply Array_map_Normal. intros [label ds] Hentry.
  unfold sectionOfEntry, sectionOf. cbn [fst snd].
  pose proof (Hfull _ Hentry) as Hds. cbn [snd] in Hds.
  destruct ds as [|d ds]; [done|]. cbn [length Nat.eqb].
  destruct (Array_map_listItem (d :: ds)) as [accessories ->]; [|done].
  intros dep Hdep. by apply (Hbuild (label, d :: ds)).
Qed.

Lemma Array_map_sectionOfEntry_inv (entries : list (string * list ProcessedDeparture))
    (rendered : list (option (string * string * list ProcessedDeparture))) :
  (∀ entry, entry ∈ entries → snd entry ≠ []) →
  Array_map (sectionOfEntry utils) entries = Normal rendered →
  rendered = map (fun e => Some (sectionOf e)) entries ∧
  ∀ entry dep, entry ∈ entries → dep ∈ snd entry → buildable utils dep.
Proof.
  revert rendered. induction entries as [|[label ds] entries IH]; intros rendered Hfull H.
  - injection H as <-. split; [done|]. intros entry dep Hentry. by apply elem_of_nil in Hentry.
  - cbn [Array_map] in H.
    pose proof (Hfull (label, ds) ltac:(left)) as Hds. cbn [snd] in Hds.
    unfold sectionOfEntry at 1 in H. destruct ds as [|d ds]; [done|].
    cbn [length Nat.eqb] in H.
    destruct (Array_map (listItem utils) (d :: ds)) as [accessories|e] eqn:Hitems;
      [|discriminate].
    destruct (Array_map (sectionOfEntry utils) entries) as [rest|e] eqn:Hrest; [|discriminate].
    injection H as <-.
    destruct (IH rest) as [-> Hbuild]; [intros entry Hentry; apply Hfull; by right|done|].
    split; [done|].
    intros entry dep [->|Hentry]%elem_of_cons Hdep.
    + by apply (Array_map_listItem_inv (d :: ds) accessories).
    + by apply (Hbuild entry).
Qed.

Lemma omap_Some {A B : Type} (f : A → B) (l : list A) :
  omap (fun section => section) (map (fun e => Some (f e)) l) = map f l.
Proof. induction l as [|x l IH]; [done|]. csimpl. by rewrite IH. Qed.

(** The entries that are sorted: no group is empty, and the departures of
    the groups are the loaded departures. *)
Lemma entries_full (departures : list ProcessedDeparture)
    (entry : string * list ProcessedDeparture) :
  entry ∈ Array_sort (compareSections localeCompare station)
            (Object_entries (grouped departures)) →
  snd entry = departuresTo (fst entry) departures ∧ snd entry ≠ [] ∧
  fst entry ∈ firstSeen (map boroughOf departures).
Proof.
  rewrite Array_sort_Permutation, grouped_shape, Object_entries_keys.
  intros (label & <- & Hlabel)%list_elem_of_In%List.in_map_iff.
  apply list_elem_of_In in Hlabel. rewrite entryOrder_Permutation in Hlabel.
  cbn [fst snd]. split_and!; [done| |done].
  rewrite departuresTo_nil. intros Hnot. apply Hnot.
  by apply elem_of_firstSeen.
Qed.

Lemma elem_of_departuresTo (label : string) (departures : list ProcessedDeparture)
    (dep : ProcessedDeparture) :
  dep ∈ departuresTo label departures ↔ dep ∈ departures ∧ boroughOf dep = label.
Proof.
  unfold departuresTo. rewrite !list_elem_of_In, List.filter_In, String.eqb_eq. done.
Qed.

(** The list renders when no label is a name that the object inherits and
    every item can be built; its sections are then the sorted entries. *)
Lemma sections_showing (limit : Z) (departures : list ProcessedDeparture) :
  (∀ dep, dep ∈ departures → inherited (boroughOf dep) = false) →
  (∀ dep, dep ∈ departures → buildable utils dep) →
  sections utils localeCompare station (showing limit departures) =
  Normal (map sectionOf
            (Array_sort (compareSections localeCompare station)
               (Object_entries (grouped departures)))).
Proof.
  intros Hnone Hbuild.
  destruct departures as [|dep departures]; [done|].
  assert ((0 <? Z.of_nat (length (dep :: departures))) = true) as Hlen.
  { apply Z.ltb_lt. simpl. lia. }
  remember (dep :: departures) as deps eqn:Hdeps. clear Hdeps.
  unfold sections, showing.
  cbn [departuresLoading error processedDepartures negb andb]. rewrite Hlen.
  rewrite groupByBorough_Normal by done.
  rewrite Array_map_sectionOfEntry.
  - by rewrite omap_Some.
  - intros entry Hentry. by apply entries_full in Hentry as (_ & ? & _).
  - intros entry d Hentry Hd. apply entries_full in Hentry as (Hds & _ & _).
    rewrite Hds in Hd. apply elem_of_departuresTo in Hd as [Hd _]. by apply Hbuild.
Qed.

(** Conversely, when the list renders, no label is an inherited name, every
    item could be built, and the sections are the sorted entries. *)
Lemma sections_inv (limit : Z) (departures : list ProcessedDeparture)
    (rendered : list (string * string * list ProcessedDeparture)) :
  sections utils localeCompare station (showing limit departures) = Normal rendered →
  rendered =
    map sectionOf
      (Array_sort (compareSections localeCompare station)
         (Object_entries (grouped departures))) ∧
  (∀ dep, dep ∈ departures → inherited (boroughOf dep) = false) ∧
  (∀ dep, dep ∈ departures → buildable utils dep).
Proof.
  destruct departures as [|dep departures].
  { intros [= <-]. split_and!; [done| |]; intros d Hd; by apply elem_of_nil in Hd. }
  assert ((0 <? Z.of_nat (length (dep :: departures))) = true) as Hlen.
  { apply Z.ltb_lt. simpl. lia. }
  remember (dep :: departures) as deps eqn:Hdeps. clear Hdeps.
  unfold sections, showing.
  cbn [departuresLoading error processedDepartures negb andb]. rewrite Hlen.
  destruct (groupByBorough deps) as [groups|e] eqn:Hgroups; [|discriminate].
  apply groupByBorough_inv in Hgroups as [-> Hnone].
  destruct (Array_map (sectionOfEntry utils) _) as [sectionsOrNull|e] eqn:Hmap; [|discriminate].
  intros [= <-].
  apply Array_map_sectionOfEntry_inv in Hmap as [-> Hbuild].
  - rewrite omap_Some. split_and!; [done|done|].
    intros d Hd.
    apply (Hbuild (boroughOf d, departuresTo (boroughOf d) deps)).
    + rewrite Array_sort_Permutation, grouped_shape, Object_entries_keys.
      apply list_elem_of_In, List.in_map_iff. exists (boroughOf d). split; [done|].
      apply list_elem_of_In. rewrite entryOrder_Permutation.
      apply elem_of_firstSeen, list_elem_of_In, List.in_map. by apply list_elem_of_In.
    + by apply elem_of_departuresTo.
  - intros entry Hentry. by apply entries_full in Hentry as (_ & ? & _).
Qed.

Lemma sectionLabels_map (l : list (string * list ProcessedDeparture)) :
  sectionLabels (map sectionOf l) = map fst l.
Proof. unfold sectionLabels. rewrite map_map. by apply map_ext. Qed.

Lemma entry_labels (departures : list ProcessedDeparture) :
  map fst (Object_entries (grouped departures)) =
  entryOrder (firstSeen (map boroughOf departures)).
Proof.
  rewrite grouped_shape, Object_entries_keys, map_map. cbn [fst]. apply map_id.
Qed.

End SectionFacts.



Example sections_subway_example :
  sectionLabels <$>
    sections plainUtils byteCompare timesSquare
      (showing 60 [converted offline (departureAt (Some "Queens") None "SUBWAY");
                   converted offline (departureAt (Some "Bronx") None "SUBWAY")]) =
  Normal ["Bronx"; "Queens"].
Proof. vm_compute. reflexivity. Qed.

(** A label that a plain object inherits: the [reduce] throws and nothing is
    rendered. *)
Example sections_constructor_example :
  sections plainUtils byteCompare pennStation
    (showing 60 [converted offline (departureAt (Some "constructor") None "LIRR")]) =
  Abrupt (Error "acc[borough]?.push is not a function").
Proof. vm_compute. reflexivity. Qed.

(** ** Numbers and their decimal text *)

Lemma digitsLE_value (fuel : nat) (n : N) :
  (n < 2 ^ N.of_nat (S fuel))%N →
  valueLE (Js.digitsLE (S fuel) n) = n ∧
  Forall (fun d => d < 10)%N (Js.digitsLE (S fuel) n) ∧
  Js.digitsLE (S fuel) n ≠ [].
Proof.
  revert n. induction fuel as [|fuel IH]; intros n Hn.
  - change (2 ^ N.of_nat 1)%N with 2%N in Hn.
    simpl. assert ((n <? 10)%N = true) as -> by (apply N.ltb_lt; lia).
    split_and!; [simpl; lia | constructor; [lia | constructor] | done].
  - change (Js.digitsLE (S (S fuel)) n) with
      (if (n <? 10)%N then [n] else (n mod 10)%N :: Js.digitsLE (S fuel) (n / 10)%N).
    destruct (n <? 10)%N eqn:Hsmall.
    + apply N.ltb_lt in Hsmall.
      split_and!; [simpl; lia | constructor; [lia | constructor] | done].
    + apply N.ltb_ge in Hsmall.
      destruct (IH (n / 10)%N) as (Hval & Hdigits & _).
      { rewrite (Nat2N.inj_succ (S fuel)), N.pow_succ_r' in Hn.
        apply N.Div0.div_lt_upper_bound. lia. }
      split_and!; [|constructor; [apply N.mod_lt; lia | done] | done].
      simpl in *. rewrite Hval. pose proof (N.div_mod n 10). lia.
Qed.

Lemma digitsOf_value (n : N) :
  valueLE (rev (Js.digitsOf n)) = n ∧
  Forall (fun d => d < 10)%N (Js.digitsOf n) ∧
  Js.digitsOf n ≠ [].
Proof.
  unfold Js.digitsOf. rewrite rev_involutive.
  destruct (digitsLE_value (N.to_nat (N.log2 n)) n) as (Hval & Hdigits & Hne).
  { rewrite Nat2N.inj_succ, N2Nat.id.
    destruct n as [|p]; [done|]. apply N.log2_spec. lia. }
  split_and!; [done | by apply Forall_rev |].
  intros H%(f_equal (@rev N)). rewrite rev_involutive in H. done.
Qed.

Lemma digitValue_digitChar (d : N) : (d < 10)%N → Js.digitValue (Js.digitChar d) = Some d.
Proof.
  intros Hd.
  assert (d = 0 ∨ d = 1 ∨ d = 2 ∨ d = 3 ∨ d = 4 ∨ d = 5 ∨ d = 6 ∨ d = 7 ∨ d = 8 ∨ d = 9)%N
    as Hcases by lia.
  repeat destruct Hcases as [->|Hcases]; try reflexivity. by subst.
Qed.

Lemma readDigits_digits (digits : list N) (acc : N) (seen : bool) :
  Forall (fun d => d < 10)%N digits →
  Js.readDigits acc seen (string_of_list_ascii (map Js.digitChar digits)) =
  if seen || negb (bool_decide (digits = []))
  then Some (fold_left (fun a d => 10 * a + d)%N digits acc)
  else None.
Proof.
  intros Hdigits. revert acc seen.
  induction Hdigits as [|d digits Hd _ IH]; intros acc seen; simpl.
  - by destruct seen.
  - rewrite digitValue_digitChar by done. rewrite IH. simpl.
    by rewrite orb_true_r.
Qed.

Lemma fold_left_valueLE (digits : list N) :
  fold_left (fun a d => 10 * a + d)%N (rev digits) 0%N = valueLE digits.
Proof.
  induction digits as [|d digits IH]; [done|].
  simpl. rewrite fold_left_app, IH. simpl. lia.
Qed.

Lemma readDigits_decimal (n : N) : Js.readDigits 0 false (Js.decimal n) = Some n.
Proof.
  destruct (digitsOf_value n) as (Hval & Hdigits & Hne).
  unfold Js.decimal. rewrite readDigits_digits by done.
  rewrite bool_decide_eq_false_2 by done. simpl.
  rewrite <- (rev_involutive (Js.digitsOf n)), fold_left_valueLE. by rewrite Hval.
Qed.

Lemma parseInt_digit_first (d : N) (s : string) :
  (d < 10)%N →
  Js.parseInt (String (Js.digitChar d) s) =
  Z.of_N <$> Js.readDigits 0 false (String (Js.digitChar d) s).
Proof.
  intros Hd.
  assert (d = 0 ∨ d = 1 ∨ d = 2 ∨ d = 3 ∨ d = 4 ∨ d = 5 ∨ d = 6 ∨ d = 7 ∨ d = 8 ∨ d = 9)%N
    as Hcases by lia.
  repeat destruct Hcases as [->|Hcases]; try reflexivity. by subst.
Qed.

Lemma parseInt_decimal (n : N) : Js.parseInt (Js.decimal n) = Some (Z.of_N n).
Proof.
  pose proof (readDigits_decimal n) as Hread.
  destruct (digitsOf_value n) as (_ & Hdigits & Hne).
  unfold Js.decimal in *.
  destruct (Js.digitsOf n) as [|d digits]; [done|].
  apply Forall_cons in Hdigits as [Hd _].
  cbn [map string_of_list_ascii] in *.
  rewrite parseInt_digit_first by done. by rewrite Hread.
Qed.

(** The text of a clock reading is read back by [parseInt] as the reading. *)
Lemma parseInt_toString (n : Z) : Js.parseInt (Js.Number_toString n) = Some n.
Proof.
  unfold Js.Number_toString. destruct (n <? 0) eqn:Hneg.
  - apply Z.ltb_lt in Hneg.
    change (Js.parseInt (String "-" (Js.decimal (Z.to_N (- n)))))
      with ((fun m => - Z.of_N m) <$> Js.readDigits 0 false (Js.decimal (Z.to_N (- n)))).
    rewrite readDigits_decimal. simpl. f_equal. lia.
  - apply Z.ltb_ge in Hneg. rewrite parseInt_decimal. f_equal. lia.
Qed.

Lemma truthy_toString (n : Z) : Js.truthy (Js.Number_toString n) = true.
Proof.
  apply truthy_true. intros H.
  pose proof (parseInt_toString n) as Hparse. rewrite H in Hparse. discriminate.
Qed.

(** ** The station cache *)

Section CacheFacts.
Context (env : Env).

(** How a call of [fetchFromWrapper] ends depends on the clock only, and
    its effect is the request. *)
Lemma fetchFromWrapper_clock {V T} `{Asserted T} (endpoint : string) (st : State V) :
  fetchFromWrapper env (T:=T) endpoint st =
  (fst (fetchFromWrapper env (T:=T) endpoint
          {| world := initialWorld (clock (world st)); view := tt |}),
   requested env endpoint st).
Proof.
  rewrite <- (fetchFromWrapper_state env endpoint st).
  rewrite (surjective_pairing (fetchFromWrapper env endpoint st)) at 1. f_equal.
  unfold fetchFromWrapper, try_catch, bind, fetch, response_json, throw, ret. simpl.
  destruct (outcome _) as [reason|r]; [reflexivity|].
  destruct (contentType r) as [ct|]; [|reflexivity].
  destruct (negb (Js.truthy ct) || negb (Js.includes ct "application/json"));
    [reflexivity|].
  destruct (body r) as [why|data]; [reflexivity|]. simpl.
  destruct (negb (ok r)), (isErrorResponse data); reflexivity.
Qed.

Lemma fetchStations_eq {V} (query : option string) (system : option FilterableSystem)
    (forceRefresh : bool) (st : State V) :
  fetchStations env query system forceRefresh st =
  (stationsDocument env query system forceRefresh (clock (world st)),
   requested env (stationsEndpoint query system forceRefresh (clock (world st))) st).
Proof.
  unfold stationsDocument, fetchStations, bind, Date_now. simpl.
  apply fetchFromWrapper_clock.
Qed.

(** A read that finds a fresh timestamp and the snapshot shows the
    snapshot and does nothing else. *)
Lemma loadStations_hit (text : string) (filter : SystemFilterValue)
    (st : State FindView) (stations : list Station) :
  timestampFresh (world st) = true →
  storage (world st) !! STATION_LIST_CACHE_KEY = Some (JSON_stringify stations) →
  loadStations env text filter st =
  (Normal tt,
   {| world := world st;
      view := setIsLoading false (setAllStations stations (setIsLoading true (view st))) |}).
Proof.
  intros Hfresh Hcache. unfold loadStations. run_async.
  unfold timestampFresh, storedTimestamp in Hfresh. rewrite Hfresh.
  run_async. rewrite Hcache. reflexivity.
Qed.

(** A read that does not find a fresh timestamp makes one request; when it
    succeeds the stations and the clock reading are stored and the stations
    are shown, when it fails the storage is left as it was, the failure is
    shown and the list is emptied. *)
Lemma loadStations_miss (text : string) (filter : SystemFilterValue)
    (st : State FindView) :
  timestampFresh (world st) = false →
  requests (world (snd (loadStations env text filter st))) =
    requests (world st) ++
      [API_BASE_URL env +:+
       stationsEndpoint (Some text) (filterValueToApiParam filter) false (clock (world st))] ∧
  isLoading (view (snd (loadStations env text filter st))) = false ∧
  match stationsReply env (Some text) (filterValueToApiParam filter) false (clock (world st)) with
  | Normal stations =>
      storage (world (snd (loadStations env text filter st))) =
        withSnapshot stations (clock (world (snd (loadStations env text filter st))))
          (storage (world st)) ∧
      allStations (view (snd (loadStations env text filter st))) = stations ∧
      toasts (world (snd (loadStations env text filter st))) = toasts (world st)
  | Abrupt e =>
      storage (world (snd (loadStations env text filter st))) = storage (world st) ∧
      allStations (view (snd (loadStations env text filter st))) = [] ∧
      toasts (world (snd (loadStations env text filter st))) =
        toasts (world st) ++
          [failureToast "Error Loading Stations" "Could not load station data." e]
  end.
Proof.
  intros Hstale. unfold loadStations. run_async.
  unfold timestampFresh, storedTimestamp in Hstale. rewrite Hstale.
  run_async. rewrite fetchStations_eq. cbn [world view fst snd clock].
  unfold stationsReply in *; destruct (stationsDocument env (Some text) (filterValueToApiParam filter) false
              (clock (world st))) as [stations|e]; by cbn.
Qed.

(** A refresh removes the snapshot and its timestamp, then makes one
    request; when it succeeds the stations and the clock reading are stored
    and the stations are shown, when it fails only the failure is shown. *)
Lemma handleRefresh_spec (st : State FindView) :
  requests (world (snd (handleRefresh env st))) =
    requests (world st) ++
      [API_BASE_URL env +:+
       stationsEndpoint (Some (searchText (view st)))
         (filterValueToApiParam (selectedSystem (view st))) true (clock (world st))] ∧
  isLoading (view (snd (handleRefresh env st))) = false ∧
  match refreshed env (Some (searchText (view st)))
          (filterValueToApiParam (selectedSystem (view st))) (clock (world st)) with
  | Normal stations =>
      storage (world (snd (handleRefresh env st))) =
        withSnapshot stations (clock (world (snd (handleRefresh env st))))
          (withoutSnapshot (storage (world st))) ∧
      allStations (view (snd (handleRefresh env st))) = stations ∧
      toasts (world (snd (handleRefresh env st))) =
        toasts (world st) ++
          [ {| style := Animated; title := "Refreshing station list..."; message := None |};
            {| style := Success; title := "Station list refreshed"; message := None |} ]
  | Abrupt e =>
      storage (world (snd (handleRefresh env st))) = withoutSnapshot (storage (world st)) ∧
      allStations (view (snd (handleRefresh env st))) = allStations (view st) ∧
      toasts (world (snd (handleRefresh env st))) =
        toasts (world st) ++
          [ {| style := Animated; title := "Refreshing station list..."; message := None |};
            failureToast "Failed to refresh station list" "Unknown error" e ]
  end.
Proof.
  unfold handleRefresh. run_async. rewrite fetchStations_eq.
  cbn [world view fst snd clock searchText selectedSystem setIsLoading].
  unfold refreshed, readLength, throw, ret.
  destruct (stationsDocument env (Some (searchText (view st)))
              (filterValueToApiParam (selectedSystem (view st))) true
              (clock (world st))) as [[| | | | |]|e]; cbn;
    by rewrite <- app_assoc.
Qed.

Lemma refreshed_Abrupt (query : option string) (system : option FilterableSystem)
    (now : Z) (e : Exn) :
  stationsReply env query system true now = Abrupt e →
  refreshed env query system now = Abrupt e.
Proof.
  unfold stationsReply, refreshed.
  by destruct (stationsDocument env query system true now) as [document|e'].
Qed.

Lemma lookup_withSnapshot (stations : list Station) (t0 : Z) (σ : gmap string Item) :
  withSnapshot stations t0 σ !! STATION_LIST_TIMESTAMP_KEY =
    Some (Text (Js.Number_toString t0)) ∧
  withSnapshot stations t0 σ !! STATION_LIST_CACHE_KEY = Some (JSON_stringify stations).
Proof.
  unfold withSnapshot. split.
  - apply lookup_insert_eq.
  - rewrite lookup_insert_ne by done. apply lookup_insert_eq.
Qed.

Lemma lookup_withoutSnapshot (σ : gmap string Item) :
  withoutSnapshot σ !! STATION_LIST_TIMESTAMP_KEY = None ∧
  withoutSnapshot σ !! STATION_LIST_CACHE_KEY = None.
Proof.
  unfold withoutSnapshot. split.
  - apply lookup_delete_eq.
  - rewrite lookup_delete_ne by done. apply lookup_delete_eq.
Qed.

(** The freshness test on a stored clock reading [t0]: the reading is not
    zero and less than the time to live has passed. *)
Lemma timestampFresh_stored (w : World) (t0 : Z) :
  storage w !! STATION_LIST_TIMESTAMP_KEY = Some (Text (Js.Number_toString t0)) →
  timestampFresh w = negb (t0 =? 0) && (clock w - t0 <? STATION_LIST_CACHE_TTL).
Proof.
  intros Hts. unfold timestampFresh, storedTimestamp. rewrite Hts.
  cbn [itemTruthy itemParseInt]. by rewrite truthy_toString, parseInt_toString.
Qed.

Lemma timestampFresh_absent (w : World) :
  storage w !! STATION_LIST_TIMESTAMP_KEY = None → timestampFresh w = false.
Proof.
  intros Hts. unfold timestampFresh, storedTimestamp. by rewrite Hts.
Qed.
End CacheFacts.

Lemma networkCalls_snoc (before after : World) (url : string) :
  requests after = requests before ++ [url] → networkCalls before after = 1.
Proof.
  intros H. unfold networkCalls. rewrite H, length_app. simpl. lia.
Qed.

(** C3, as amended.  With a snapshot cached at a clock reading [t0] other
    than zero and a time to live of seven days: a read before [t0 + TTL]
    makes no request, shows the snapshot and leaves the storage as it is; a
    read at [t0 + TTL] or later makes exactly one request, and stores the
    fetched stations with the new clock reading when the request succeeds,
    while it leaves the storage as it is and shows no station when the request
    fails. *)
Theorem loadStations_time_to_live (env : Env) (text : string) (filter : SystemFilterValue)
    (st : State FindView) (stations : list Station) (t0 : Z) (σ : gmap string Item) :
  t0 ≠ 0 →
  storage (world st) = withSnapshot stations t0 σ →
  STATION_LIST_CACHE_TTL = 604800000 ∧
  (clock (world st) < t0 + STATION_LIST_CACHE_TTL →
   networkCalls (world st) (world (snd (loadStations env text filter st))) = 0 ∧
   allStations (view (snd (loadStations env text filter st))) = stations ∧
   storage (world (snd (loadStations env text filter st))) = storage (world st)) ∧
  (t0 + STATION_LIST_CACHE_TTL <= clock (world st) →
   networkCalls (world st) (world (snd (loadStations env text filter st))) = 1 ∧
   match stationsReply env (Some text) (filterValueToApiParam filter) false
           (clock (world st)) with
   | Normal fetched =>
       storage (world (snd (loadStations env text filter st))) =
         withSnapshot fetched (clock (world (snd (loadStations env text filter st))))
           (storage (world st)) ∧
       allStations (view (snd (loadStations env text filter st))) = fetched
   | Abrupt _ =>
       storage (world (snd (loadStations env text filter st))) = storage (world st) ∧
       allStations (view (snd (loadStations env text filter st))) = []
   end).
Proof.
  intros Ht0 Hstore.
  destruct (lookup_withSnapshot stations t0 σ) as [Hts Hcache].
  rewrite <- Hstore in Hts, Hcache.
  pose proof (timestampFresh_stored (world st) t0 Hts) as Hfresh.
  assert ((t0 =? 0) = false) as Hnz by (by apply Z.eqb_neq).
  rewrite Hnz in Hfresh. cbn [negb andb] in Hfresh.
  split_and!; [reflexivity| |].
  - intros Hearly.
    assert (timestampFresh (world st) = true) as Hyes.
    { rewrite Hfresh. apply Z.ltb_lt. lia. }
    rewrite (loadStations_hit env text filter st stations Hyes Hcache).
    cbn [snd world view]. unfold networkCalls. split_and!; [lia|done|done].
  - intros Hlate.
    assert (timestampFresh (world st) = false) as Hno.
    { rewrite Hfresh. apply Z.ltb_ge. lia. }
    destruct (loadStations_miss env text filter st Hno) as (Hreq & _ & Hreply).
    split; [by apply networkCalls_snoc in Hreq|].
    unfold stationsReply in *; destruct (stationsDocument env (Some text) (filterValueToApiParam filter) false
                (clock (world st))) as [fetched|e]; tauto.
Qed.

Lemma loadStations_time_to_live_witness :
  networkCalls
    (worldAt 2000 (withSnapshot snapshotA 1000 ∅))
    (world (snd (loadStations offline "" All
                   {| world := worldAt 2000 (withSnapshot snapshotA 1000 ∅);
                      view := initialFindView |}))) = 0 ∧
  allStations
    (view (snd (loadStations offline "" All
                  {| world := worldAt 2000 (withSnapshot snapshotA 1000 ∅);
                     view := initialFindView |}))) = snapshotA.
Proof.
  destruct (loadStations_time_to_live offline "" All
              {| world := worldAt 2000 (withSnapshot snapshotA 1000 ∅);
                 view := initialFindView |} snapshotA 1000 ∅)
    as (_ & Hfresh & _).
  - lia.
  - reflexivity.
  - destruct Hfresh as (Hcalls & Hshown & _).
    + vm_compute. reflexivity.
    + split; [exact Hcalls | exact Hshown].
Defined.

(** C3, as stated, fails: a read after the time to live whose request fails
    makes its request and leaves the old snapshot and timestamp in the
    storage; and a snapshot cached at the clock reading zero is never served,
    a read one second later makes a request. *)
Lemma loadStations_time_to_live_counterexample :
  (networkCalls
     (worldAt (1000 + STATION_LIST_CACHE_TTL) (withSnapshot snapshotA 1000 ∅))
     (world (snd (loadStations offline "" All
                    {| world := worldAt (1000 + STATION_LIST_CACHE_TTL)
                                  (withSnapshot snapshotA 1000 ∅);
                       view := initialFindView |}))) = 1 ∧
   storage
     (world (snd (loadStations offline "" All
                    {| world := worldAt (1000 + STATION_LIST_CACHE_TTL)
                                  (withSnapshot snapshotA 1000 ∅);
                       view := initialFindView |}))) !! STATION_LIST_TIMESTAMP_KEY =
     Some (Text "1000")) ∧
  networkCalls
    (worldAt 1000 (withSnapshot snapshotA 0 ∅))
    (world (snd (loadStations offline "" All
                   {| world := worldAt 1000 (withSnapshot snapshotA 0 ∅);
                      view := initialFindView |}))) = 1.
Proof.
  split; [split|]; vm_compute; reflexivity.
Qed.

(** C1, as amended.  When the request of a forced refresh fails, the error is
    shown in a failure toast and the stations on screen stay as they were,
    but the cached snapshot and its timestamp are gone, removed before the
    request was made; a non-forced read that follows, at any time, makes a
    new request instead of serving the old snapshot. *)
Theorem handleRefresh_failed_fetch (env : Env) (st : State FindView) (e : Exn) :
  stationsReply env (Some (searchText (view st)))
    (filterValueToApiParam (selectedSystem (view st))) true (clock (world st)) = Abrupt e →
  storage (world (snd (handleRefresh env st))) = withoutSnapshot (storage (world st)) ∧
  storage (world (snd (handleRefresh env st))) !! STATION_LIST_CACHE_KEY = None ∧
  storage (world (snd (handleRefresh env st))) !! STATION_LIST_TIMESTAMP_KEY = None ∧
  allStations (view (snd (handleRefresh env st))) = allStations (view st) ∧
  toasts (world (snd (handleRefresh env st))) =
    toasts (world st) ++
      [ {| style := Animated; title := "Refreshing station list..."; message := None |};
        failureToast "Failed to refresh station list" "Unknown error" e ] ∧
  networkCalls (world st) (world (snd (handleRefresh env st))) = 1 ∧
  (∀ dt text filter,
     networkCalls (world (later dt (snd (handleRefresh env st))))
       (world (snd (loadStations env text filter (later dt (snd (handleRefresh env st)))))) = 1).
Proof.
  intros Hfail%refreshed_Abrupt.
  destruct (handleRefresh_spec env st) as (Hreq & _ & Hreply).
  rewrite Hfail in Hreply. destruct Hreply as (Hstore & Hshown & Htoasts).
  destruct (lookup_withoutSnapshot (storage (world st))) as [Hts Hcache].
  rewrite <- Hstore in Hts, Hcache.
  split_and!; try done.
  - by apply networkCalls_snoc in Hreq.
  - intros dt text filter.
    assert (timestampFresh (world (later dt (snd (handleRefresh env st)))) = false) as Hno
      by (by apply timestampFresh_absent).
    destruct (loadStations_miss env text filter _ Hno) as (Hreq' & _).
    by apply networkCalls_snoc in Hreq'.
Qed.

Lemma handleRefresh_failed_fetch_witness :
  storage
    (world (snd (handleRefresh offline
                   {| world := worldAt 2000 (withSnapshot snapshotA 1000 ∅);
                      view := findView "" All snapshotA |})))
    !! STATION_LIST_CACHE_KEY = None.
Proof.
  apply (handleRefresh_failed_fetch offline
           {| world := worldAt 2000 (withSnapshot snapshotA 1000 ∅);
              view := findView "" All snapshotA |}
           (APIError "fetch failed" None)).
  reflexivity.
Defined.

(** C1, as stated, fails: with the snapshot [snapshotA] cached, a forced
    refresh whose request fails leaves neither the snapshot nor the timestamp
    in the storage, and the non-forced read that follows does not show
    [snapshotA]. *)
Lemma handleRefresh_failed_fetch_counterexample :
  allStations
    (view (snd (loadStations offline "" All
                  {| world := worldAt 2000 (withSnapshot snapshotA 1000 ∅);
                     view := findView "" All [] |}))) = snapshotA ∧
  storage
    (world (snd (handleRefresh offline
                   {| world := worldAt 2000 (withSnapshot snapshotA 1000 ∅);
                      view := findView "" All snapshotA |})))
    !! STATION_LIST_CACHE_KEY = None ∧
  storage
    (world (snd (handleRefresh offline
                   {| world := worldAt 2000 (withSnapshot snapshotA 1000 ∅);
                      view := findView "" All snapshotA |})))
    !! STATION_LIST_TIMESTAMP_KEY = None ∧
  allStations
    (view (snd (loadStations offline "" All
                  (snd (handleRefresh offline
                          {| world := worldAt 2000 (withSnapshot snapshotA 1000 ∅);
                             view := findView "" All snapshotA |}))))) ≠ snapshotA.
Proof.
  split_and!; [vm_compute; reflexivity..|].
  vm_compute. discriminate.
Qed.

(** C2, as amended.  The cache is one entry under two fixed keys, whatever
    the system filter and the search text: the stations that a read under one
    filter fetched and stored are shown by a later read under any filter and
    any search text, as long as the timestamp is fresh, and that read makes
    no request. *)
Theorem loadStations_cache_shared (env : Env) (text text' : string)
    (filter filter' : SystemFilterValue) (st : State FindView)
    (stations : list Station) (dt : Z) :
  timestampFresh (world st) = false →
  stationsReply env (Some text) (filterValueToApiParam filter) false (clock (world st)) =
    Normal stations →
  clock (world (snd (loadStations env text filter st))) ≠ 0 →
  dt < STATION_LIST_CACHE_TTL →
  STATION_LIST_CACHE_KEY = "cachedStationList" ∧
  STATION_LIST_TIMESTAMP_KEY = "cachedStationListTimestamp" ∧
  allStations
    (view (snd (loadStations env text' filter'
                  (later dt (snd (loadStations env text filter st)))))) = stations ∧
  networkCalls
    (world (later dt (snd (loadStations env text filter st))))
    (world (snd (loadStations env text' filter'
                   (later dt (snd (loadStations env text filter st)))))) = 0.
Proof.
  intros Hmiss Hreply Hclock Hdt.
  destruct (loadStations_miss env text filter st Hmiss) as (_ & _ & Hstored).
  rewrite Hreply in Hstored. destruct Hstored as (Hstore & _ & _).
  set (st1 := snd (loadStations env text filter st)) in *.
  destruct (lookup_withSnapshot stations (clock (world st1)) (storage (world st)))
    as [Hts Hcache].
  rewrite <- Hstore in Hts, Hcache.
  assert (timestampFresh (world (later dt st1)) = true) as Hfresh.
  { rewrite (timestampFresh_stored _ (clock (world st1))) by exact Hts.
    apply andb_true_iff. split.
    - by apply negb_true_iff, Z.eqb_neq.
    - apply Z.ltb_lt. cbn [later world clock]. lia. }
  rewrite (loadStations_hit env text' filter' (later dt st1) stations Hfresh Hcache).
  cbn [snd view world]. unfold networkCalls. split_and!; [done|done|done|lia].
Qed.

Lemma loadStations_cache_shared_witness :
  allStations
    (view (snd (loadStations twoSystems "" (Only LIRR)
                  (later 1000
                     (snd (loadStations twoSystems "" (Only SUBWAY)
                             {| world := worldAt 1000 ∅; view := initialFindView |}))))))
  = [stationNamed "127" "Times Sq-42 St"].
Proof.
  apply (loadStations_cache_shared twoSystems "" "" (Only SUBWAY) (Only LIRR)
           {| world := worldAt 1000 ∅; view := initialFindView |}
           [stationNamed "127" "Times Sq-42 St"] 1000).
  - reflexivity.
  - vm_compute. reflexivity.
  - vm_compute. discriminate.
  - reflexivity.
Defined.

(** C2, as stated, fails: the server has one station for the subway and
    another for the LIRR; after a read under the SUBWAY filter, a read under
    the LIRR filter one second later shows the subway station and makes no
    request. *)
Lemma loadStations_cache_shared_counterexample :
  stationsReply twoSystems (Some "") (Some LIRR) false 2000 =
    Normal [stationNamed "237" "Penn Station"] ∧
  allStations
    (view (snd (loadStations twoSystems "" (Only LIRR)
                  (later 1000
                     (snd (loadStations twoSystems "" (Only SUBWAY)
                             {| world := worldAt 1000 ∅; view := initialFindView |}))))))
  = [stationNamed "127" "Times Sq-42 St"] ∧
  requests
    (world (snd (loadStations twoSystems "" (Only LIRR)
                   (later 1000
                      (snd (loadStations twoSystems "" (Only SUBWAY)
                              {| world := worldAt 1000 ∅; view := initialFindView |}))))))
  = ["http://localhost:3000/api/v1/stations?system=SUBWAY"].
Proof.
  split_and!; vm_compute; reflexivity.
Qed.

(** ** The departure list *)

Lemma fetchDepartures_eq {V : Type} (env : Env) (stationId : string)
    (limitMinutes : option Z) (source : option Source) (st : State V) :
  fetchDepartures env stationId limitMinutes source st =
  (departuresReply env stationId limitMinutes source (clock (world st)),
   if Js.truthy stationId
   then requested env (departuresEndpoint stationId limitMinutes source) st
   else st).
Proof.
  unfold departuresReply, fetchDepartures.
  destruct (Js.truthy stationId); [|reflexivity]. cbn [negb]. unfold bind.
  rewrite (fetchFromWrapper_clock env (T:=Json) _ st).
  cbn [world clock initialWorld].
  destruct (fetchFromWrapper env (departuresEndpoint stationId limitMinutes source)
              {| world := initialWorld (clock (world st)); view := tt |})
    as [[raws|e] st']; [|reflexivity].
  unfold await, throw, ret. cbn [fst].
  destruct raws as [| | | |items|]; try reflexivity.
  by destruct (Array_map (processDeparture env) items).
Qed.

Lemma concat_map_nil {A B : Type} (l : list A) : concat (map (fun _ => @nil B) l) = [].
Proof. induction l; simpl; done. Qed.

Lemma concat_groups_cons (b : string) (dep : ProcessedDeparture)
    (G : string → list ProcessedDeparture) (keys : list string) :
  NoDup keys → b ∈ keys →
  concat (map (fun k => if String.eqb b k then dep :: G k else G k) keys)
    ≡ₚ dep :: concat (map G keys).
Proof.
  induction 1 as [|k keys Hk Hkeys IH]; intros Hb.
  - by apply elem_of_nil in Hb.
  - simpl. destruct (String.eqb b k) eqn:Hbk.
    + apply String.eqb_eq in Hbk as ->.
      assert (map (fun k' => if String.eqb k k' then dep :: G k' else G k') keys =
              map G keys) as ->; [|done].
      apply map_ext_in. intros k' Hin%list_elem_of_In.
      destruct (String.eqb k k') eqn:Hkk; [|done].
      by apply String.eqb_eq in Hkk as ->.
    + apply String.eqb_neq in Hbk. apply elem_of_cons in Hb as [?|Hb]; [done|].
      rewrite (IH Hb). by rewrite Permutation_middle.
Qed.

(** The groups of the departures, taken together, are the departures. *)
Lemma concat_departuresTo (keys : list string) (departures : list ProcessedDeparture) :
  NoDup keys →
  (∀ dep, dep ∈ departures → boroughOf dep ∈ keys) →
  concat (map (fun k => departuresTo k departures) keys) ≡ₚ departures.
Proof.
  intros Hkeys. induction departures as [|dep departures IH]; intros Hcover.
  - unfold departuresTo. simpl. by rewrite concat_map_nil.
  - assert (map (fun k => departuresTo k (dep :: departures)) keys =
            map (fun k => if String.eqb (boroughOf dep) k
                          then dep :: departuresTo k departures
                          else departuresTo k departures) keys) as ->.
    { apply map_ext. intros k. unfold departuresTo. simpl.
      by destruct (String.eqb (boroughOf dep) k). }
    rewrite concat_groups_cons; [|done|apply Hcover; by left].
    f_equiv. apply IH. intros d Hd. apply Hcover. by right.
Qed.

Lemma concat_snd_Permutation {A B : Type} (l l' : list (A * list B)) :
  l ≡ₚ l' → concat (map snd l) ≡ₚ concat (map snd l').
Proof.
  induction 1; simpl.
  - done.
  - by f_equiv.
  - rewrite !app_assoc. f_equiv. apply Permutation_app_comm.
  - by etrans.
Qed.

(** The departures of the sorted entries, taken together, are the
    departures. *)
Lemma concat_sorted_entries (localeCompare : string → string → Z) (station : StationProps)
    (departures : list ProcessedDeparture) :
  concat (map snd (map sectionOf
                     (Array_sort (compareSections localeCompare station)
                        (Object_entries (grouped departures))))) ≡ₚ departures.
Proof.
  rewrite map_map. cbn [sectionOf snd].
  transitivity (concat (map snd (grouped departures))).
  - apply concat_snd_Permutation. rewrite Array_sort_Permutation.
    unfold Object_entries. rewrite Array_sort_Permutation.
    apply filter_complement_Permutation.
  - rewrite grouped_shape, map_map. cbn [snd].
    apply concat_departuresTo; [apply NoDup_firstSeen|].
    intros dep Hdep. apply elem_of_firstSeen, list_elem_of_In, List.in_map.
    by apply list_elem_of_In.
Qed.

(** The departures of a list that renders are the loaded departures, and
    the list renders exactly when no label is a name that the object
    inherits and every item can be built. *)
Lemma displayed_showing (utils : DateUtils) (localeCompare : string → string → Z)
    (station : StationProps) (limit : Z) (departures : list ProcessedDeparture) :
  (∀ shown, displayed utils localeCompare station (showing limit departures) = Normal shown →
            shown ≡ₚ departures) ∧
  ((∃ shown, displayed utils localeCompare station (showing limit departures) = Normal shown) ↔
   (∀ dep, dep ∈ departures → inherited (boroughOf dep) = false ∧ buildable utils dep)).
Proof.
  unfold displayed. split; [|split].
  - intros shown.
    destruct (sections utils localeCompare station (showing limit departures))
      as [rendered|e] eqn:Hsections; [|discriminate].
    intros [= <-]. apply sections_inv in Hsections as (-> & _ & _).
    apply concat_sorted_entries.
  - intros [shown Hshown].
    destruct (sections utils localeCompare station (showing limit departures))
      as [rendered|e] eqn:Hsections; [|discriminate].
    apply sections_inv in Hsections as (_ & Hnone & Hbuild).
    intros dep Hdep. split; [by apply Hnone | by apply Hbuild].
  - intros Hall. rewrite sections_showing; [by eexists | |]; intros dep Hdep; by apply Hall.
Qed.

Section DepartureFacts.
Context (env : Env) (station : StationProps).

(** Loading the departures makes one request for the station; when it
    succeeds the view shows what was fetched, under the limit that was
    selected. *)
Lemma loadDepartures_fetched (showLoadingToast : bool) (st : State DeparturesView)
    (fetched : list ProcessedDeparture) :
  station_id station ≠ "" →
  departuresReply env (station_id station) (limitParam (selectedLimit (view st))) None
    (clock (world st)) = Normal fetched →
  view (snd (loadDepartures env station showLoadingToast st)) =
    showing (selectedLimit (view st)) fetched ∧
  requests (world (snd (loadDepartures env station showLoadingToast st))) =
    requests (world st) ++
      [API_BASE_URL env +:+
       departuresEndpoint (station_id station) (limitParam (selectedLimit (view st))) None].
Proof.
  intros Hid Hreply. apply truthy_true in Hid.
  unfold loadDepartures. destruct showLoadingToast; run_async;
    rewrite fetchDepartures_eq;
    cbn [world view fst snd clock selectedLimit setError setDeparturesLoading];
    unfold limitParam in Hreply; rewrite Hreply, Hid; by cbn.
Qed.
End DepartureFacts.

Lemma append_empty_r (s : string) : s +:+ "" = s.
Proof. induction s as [|c s IH]; [done|]. by rewrite append_cons, IH. Qed.

Lemma departuresEndpoint_limit (stationId : string) (selectedLimit : Z) :
  departuresEndpoint stationId (limitParam selectedLimit) None =
  "/departures/" +:+ stationId +:+
    (if 0 <? selectedLimit
     then "?limitMinutes=" +:+ Js.Number_toString selectedLimit
     else "").
Proof.
  unfold departuresEndpoint, limitParam.
  destruct (0 <? selectedLimit) eqn:Hpos.
  - rewrite Hpos. apply Z.ltb_lt in Hpos.
    assert (Js.truthyNumber (Some selectedLimit) = true) as ->.
    { simpl. apply negb_true_iff, Z.eqb_neq. lia. }
    simpl. by rewrite append_assoc.
  - by rewrite append_empty_r.
Qed.




(** ** Examples *)

Example parseInt_example : Js.parseInt "1714000000000" = Some 1714000000000.
Proof. reflexivity. Qed.

Example parseInt_not_a_number : Js.parseInt "[]" = None.
Proof. reflexivity. Qed.

Example toString_example : Js.Number_toString 1714000000000 = "1714000000000".
Proof. reflexivity. Qed.

(** White space before the digits is skipped, the no-break space U+00A0
    as well. *)
Example parseInt_no_break_space :
  Js.parseInt (String "194" (String "160" "1500")) = Some 1500 ∧
  Js.parseInt (String "009" (String "032" "1500 ms")) = Some 1500.
Proof. split; reflexivity. Qed.

Example parseTimestamp_example :
  Js.parseTimestamp "2025-01-01T00:45:00.000Z" = Some (midnight + 45 * 60 * 1000).
Proof. reflexivity. Qed.

Example stationsEndpoint_example :
  stationsEndpoint (Some "penn station") (Some LIRR) false 0 =
  "/stations?q=penn+station&system=LIRR".
Proof. reflexivity. Qed.

Example stationsEndpoint_forced :
  stationsEndpoint (Some "") None true 1714000000000 = "/stations?_=1714000000000".
Proof. reflexivity. Qed.

(** A body with the error envelope and status 200 is a failure that carries
    the message of the envelope. *)
Example envelope_with_status_200 :
  fst (fetchFromWrapper (answering 0 (Answer (jsonResponse 200 (envelope "boom"))))
         (T:=list Station) "/stations" {| world := initialWorld 0; view := tt |}) =
  Abrupt (APIError "boom" (Some 200)).
Proof. reflexivity. Qed.

Example departuresEndpoint_examples :
  departuresEndpoint "237" (limitParam 60) None = "/departures/237?limitMinutes=60" ∧
  departuresEndpoint "237" (limitParam 30) None = "/departures/237?limitMinutes=30" ∧
  departuresEndpoint "237" (limitParam 0) None = "/departures/237" ∧
  departuresEndpoint "237" (Some 30) (Some scheduled) =
    "/departures/237?limitMinutes=30&source=scheduled" ∧
  departuresEndpoint "237" None (Some scheduled) = "/departures/237&source=scheduled".
Proof. repeat split. Qed.

(** A departure without a time is displayed as well, here under a limit of
    30 minutes. *)
Example departure_without_time_displayed :
  map (fun dep => p_departureTime dep) <$>
    displayed plainUtils byteCompare pennStation
      (view (snd (loadDepartures
                    (answering 0
                       (Answer (jsonResponse 200 (JArr [departureJson JNull JNull]))))
                    pennStation true
                    {| world := worldAt midnight ∅;
                       view := setSelectedLimit 30 (initialDeparturesView None) |}))) =
  Normal [None].
Proof. vm_compute. reflexivity. Qed.

(** A departure whose time is a text that is no date is kept, with an
    invalid date, and the list does not render: the key of its item
    throws. *)
Example departure_with_invalid_time :
  Js.timeValue <$>
    p_departureTime (converted oneDeparture (departureJson (JStr "Queens") (JStr "TBD"))) =
    Some None ∧
  displayed plainUtils byteCompare pennStation
    (view (snd (loadDepartures
                  (answering 0
                     (Answer (jsonResponse 200
                                (JArr [departureJson (JStr "Queens") (JStr "TBD")]))))
                  pennStation false
                  {| world := worldAt midnight ∅;
                     view := setSelectedLimit 30 (initialDeparturesView None) |}))) =
  Abrupt (Error "Invalid time value").
Proof. split; vm_compute; reflexivity. Qed.

(** An array with a [null] element, and a document that is no array, make
    the load fail: the view shows the error and no departure. *)
Example loadDepartures_null_element :
  view (snd (loadDepartures
               (answering 0 (Answer (jsonResponse 200 (JArr [JNull]))))
               pennStation false
               {| world := worldAt midnight ∅; view := initialDeparturesView None |})) =
  {| departuresLoading := false; selectedLimit := 60; processedDepartures := [];
     error := Some "Cannot read properties of null (reading 'departureTime')" |} ∧
  view (snd (loadDepartures
               (answering 0 (Answer (jsonResponse 200 (JObj [("departures", JArr [])]))))
               pennStation false
               {| world := worldAt midnight ∅; view := initialDeparturesView None |})) =
  {| departuresLoading := false; selectedLimit := 60; processedDepartures := [];
     error := Some "rawDepartures.map is not a function" |}.
Proof. split; vm_compute; reflexivity. Qed.

(** A failed load of the departures shows the error and no departure. *)
Example loadDepartures_offline :
  view (snd (loadDepartures offline pennStation false
               {| world := worldAt midnight ∅; view := initialDeparturesView None |})) =
  {| departuresLoading := false; selectedLimit := 60; processedDepartures := [];
     error := Some "fetch failed" |}.
Proof. reflexivity. Qed.

(** A first read stores what it fetched, with the clock reading. *)
Example loadStations_first_read :
  storage
    (world (snd (loadStations twoSystems "" (Only SUBWAY)
                   {| world := worldAt 1000 ∅; view := initialFindView |}))) =
  withSnapshot [stationNamed "127" "Times Sq-42 St"] 1000 ∅.
Proof. vm_compute. reflexivity. Qed.

(** A refresh that succeeds stores the new stations. *)
Example handleRefresh_success :
  allStations
    (view (snd (handleRefresh twoSystems
                  {| world := worldAt 2000 (withSnapshot snapshotA 1000 ∅);
                     view := findView "" (Only LIRR) snapshotA |}))) =
  [stationNamed "237" "Penn Station"] ∧
  storage
    (world (snd (handleRefresh twoSystems
                   {| world := worldAt 2000 (withSnapshot snapshotA 1000 ∅);
                      view := findView "" (Only LIRR) snapshotA |})))
    !! STATION_LIST_CACHE_KEY = Some (JSON_stringify [stationNamed "237" "Penn Station"]).
Proof. split; vm_compute; reflexivity. Qed.

(** A refresh that receives [null] has cleared the cache and stores
    nothing: the read of the length throws, and the failure is shown. *)
Example handleRefresh_null_document :
  storage
    (world (snd (handleRefresh (answering 0 (Answer (jsonResponse 200 JNull)))
                   {| world := worldAt 2000 (withSnapshot snapshotA 1000 ∅);
                      view := findView "" All snapshotA |}))) = ∅ ∧
  toasts
    (world (snd (handleRefresh (answering 0 (Answer (jsonResponse 200 JNull)))
                   {| world := worldAt 2000 (withSnapshot snapshotA 1000 ∅);
                      view := findView "" All snapshotA |}))) =
  [ {| style := Animated; title := "Refreshing station list..."; message := None |};
    {| style := Failure; title := "Failed to refresh station list";
       message := Some "Cannot read properties of null (reading 'length')" |} ].
Proof. split; vm_compute; reflexivity. Qed.

(** ** Further properties of the API client *)

(** X1. Every call of [fetchFromWrapper] makes exactly one request, for the
    base URL followed by the endpoint; it leaves the local storage, the
    toasts and the state of the component as they are; and whenever it fails,
    what it throws is an [APIError]. *)
Theorem fetchFromWrapper_one_request {V T : Type} `{Asserted T} (env : Env)
    (endpoint : string) (st : State V) :
  requests (world (snd (fetchFromWrapper env (T:=T) endpoint st))) =
    requests (world st) ++ [API_BASE_URL env +:+ endpoint] ∧
  storage (world (snd (fetchFromWrapper env (T:=T) endpoint st))) = storage (world st) ∧
  toasts (world (snd (fetchFromWrapper env (T:=T) endpoint st))) = toasts (world st) ∧
  view (snd (fetchFromWrapper env (T:=T) endpoint st)) = view st ∧
  (∀ e, fst (fetchFromWrapper env (T:=T) endpoint st) = Abrupt e →
        ∃ msg code, e = APIError msg code).
Proof.
  rewrite fetchFromWrapper_state. split_and!; try reflexivity.
  intros e. apply fetchFromWrapper_throws_APIError.
Qed.

(** X2. [fetchFromWrapper] returns data only for a response with a success
    status and a JSON content type whose body parses and is no error
    envelope, and the data are that body: nothing is ever returned from a
    response with another status, from a body that is not JSON or from an
    envelope. *)
Theorem fetchFromWrapper_success_inversion {V T : Type} `{Asserted T} (env : Env)
    (endpoint : string) (st : State V) (t : T) :
  fst (fetchFromWrapper env (T:=T) endpoint st) = Normal t →
  ∃ r ct data,
    outcome (network env (clock (world st)) (API_BASE_URL env +:+ endpoint)) = Answer r ∧
    contentType r = Some ct ∧
    Js.includes ct "application/json" = true ∧
    body r = inr data ∧
    ok r = true ∧
    isErrorResponse data = false ∧
    t = as_type data.
Proof.
  run_wrapper.
  destruct (outcome _) as [reason|r]; [discriminate|].
  destruct (contentType r) as [ct|] eqn:Hct; [|discriminate].
  destruct (Js.truthy ct); [|discriminate]. cbn [negb orb].
  destruct (Js.includes ct "application/json") eqn:Hjson; [|discriminate].
  destruct (body r) as [why|data] eqn:Hbody; [discriminate|]. simpl.
  destruct (ok r) eqn:Hok; [|by destruct (isErrorResponse data)].
  destruct (isErrorResponse data) eqn:Herr; [discriminate|].
  simpl. intros [= <-]. by exists r, ct, data.
Qed.

Lemma fetchFromWrapper_success_inversion_witness :
  ∃ r ct data,
    outcome (network twoSystems 1000 (API_BASE_URL twoSystems +:+ "/stations")) = Answer r ∧
    contentType r = Some ct ∧
    Js.includes ct "application/json" = true ∧
    body r = inr data ∧
    ok r = true ∧
    isErrorResponse data = false ∧
    [stationNamed "127" "Times Sq-42 St"; stationNamed "237" "Penn Station"] = as_type data.
Proof.
  apply (fetchFromWrapper_success_inversion twoSystems "/stations"
           {| world := worldAt 1000 ∅; view := tt |}).
  reflexivity.
Defined.

(** X3. The failures of [fetchFromWrapper] that are not error envelopes: a
    request that gets no response fails with the reason of the transport and
    no status code; a response without a JSON content type fails as an
    invalid format with the status of the response, whatever its status and
    body; a body that does not parse fails with the message of the parser and
    no status code, although a response was received; and a response with
    another status than 2xx whose body is no envelope fails with the text
    [HTTP error! status: N]. *)
Theorem fetchFromWrapper_failures {V T : Type} `{Asserted T} (env : Env)
    (endpoint : string) (st : State V) :
  (∀ reason,
     outcome (network env (clock (world st)) (API_BASE_URL env +:+ endpoint)) =
       Unreachable reason →
     fst (fetchFromWrapper env (T:=T) endpoint st) = Abrupt (APIError reason None)) ∧
  (∀ r,
     outcome (network env (clock (world st)) (API_BASE_URL env +:+ endpoint)) = Answer r →
     (contentType r = None ∨
      ∃ ct, contentType r = Some ct ∧ Js.includes ct "application/json" = false) →
     fst (fetchFromWrapper env (T:=T) endpoint st) =
       Abrupt (APIError "Invalid response format received from server."
                 (Some (http_status r)))) ∧
  (∀ r ct why,
     outcome (network env (clock (world st)) (API_BASE_URL env +:+ endpoint)) = Answer r →
     contentType r = Some ct → Js.includes ct "application/json" = true →
     body r = inl why →
     fst (fetchFromWrapper env (T:=T) endpoint st) = Abrupt (APIError why None)) ∧
  (∀ r ct data,
     outcome (network env (clock (world st)) (API_BASE_URL env +:+ endpoint)) = Answer r →
     contentType r = Some ct → Js.includes ct "application/json" = true →
     body r = inr data → ok r = false → isErrorResponse data = false →
     fst (fetchFromWrapper env (T:=T) endpoint st) =
       Abrupt (APIError ("HTTP error! status: " +:+ Js.Number_toString (http_status r))
                 (Some (http_status r)))).
Proof.
  assert (∀ ct, Js.includes ct "application/json" = true → Js.truthy ct = true) as Htruthy.
  { intros ct Hct. apply truthy_true. intros ->. discriminate. }
  split_and!.
  - intros reason Hnet. run_wrapper. by rewrite Hnet.
  - intros r Hnet Hct. run_wrapper. rewrite Hnet.
    destruct Hct as [->|(ct & -> & Hct)]; [done|].
    rewrite Hct. cbn [negb]. by rewrite orb_true_r.
  - intros r ct why Hnet Hct Hjson Hbody. run_wrapper.
    by rewrite Hnet, Hct, (Htruthy ct Hjson), Hjson, Hbody.
  - intros r ct data Hnet Hct Hjson Hbody Hok Herr. run_wrapper.
    rewrite Hnet, Hct, (Htruthy ct Hjson), Hjson, Hbody. simpl.
    by rewrite Hok, Herr.
Qed.

Lemma fetchFromWrapper_failures_witness :
  fst (fetchFromWrapper offline (T:=Json) "/stations"
         {| world := worldAt 1000 ∅; view := tt |}) =
    Abrupt (APIError "fetch failed" None) ∧
  fst (fetchFromWrapper
         (answering 0 (Answer {| http_status := 502; contentType := Some "text/html";
                                 body := inl "Unexpected token <" |}))
         (T:=Json) "/stations" {| world := worldAt 1000 ∅; view := tt |}) =
    Abrupt (APIError "Invalid response format received from server." (Some 502)).
Proof.
  split.
  - destruct (fetchFromWrapper_failures (T:=Json) offline "/stations"
                {| world := worldAt 1000 ∅; view := tt |}) as (Hnone & _).
    by apply Hnone.
  - destruct (fetchFromWrapper_failures (T:=Json)
                (answering 0 (Answer {| http_status := 502; contentType := Some "text/html";
                                        body := inl "Unexpected token <" |}))
                "/stations" {| world := worldAt 1000 ∅; view := tt |}) as (_ & Hformat & _).
    apply (Hformat {| http_status := 502; contentType := Some "text/html";
                    body := inl "Unexpected token <" |}); [reflexivity|].
    right. by exists "text/html".
Defined.

(** X4. [isErrorResponse] accepts exactly the documents of the envelope
    shape: an object with a member [error] that is an object with a member
    [message] that is a string.  Arrays, primitive values, [null], an [error]
    that is [null] or a string, and a [message] that is not a string are all
    refused; other members of the envelope do not matter. *)
Theorem isErrorResponse_iff_envelope (data : Json) :
  isErrorResponse data = true ↔ ∃ m, isEnvelope data m.
Proof.
  split.
  - unfold isErrorResponse, member.
    destruct data as [| | | | |members]; try discriminate.
    destruct (assoc "error" members) as [[| | | |items|errMembers]|] eqn:Herr;
      try discriminate.
    destruct (assoc "message" errMembers) as [[| | |m| |]|] eqn:Hmsg; try discriminate.
    intros _. by exists m, members, errMembers.
  - intros [m Henv]. by apply isErrorResponse_envelope in Henv as [? _].
Qed.

(** *** Request paths *)

Lemma hasChar_cons (c x : ascii) (s : string) :
  hasChar c (String x s) = Ascii.eqb c x || hasChar c s.
Proof.
  unfold hasChar. rewrite includes_unfold. simpl.
  by rewrite startsWith_empty, andb_true_r.
Qed.

Lemma hasChar_empty (c : ascii) : hasChar c "" = false.
Proof. reflexivity. Qed.

Lemma hexDigit_safe (d : N) : (d < 16)%N → Js.isUrlSafe (Js.hexDigit d) = true.
Proof.
  intros Hd.
  assert (d = 0 ∨ d = 1 ∨ d = 2 ∨ d = 3 ∨ d = 4 ∨ d = 5 ∨ d = 6 ∨ d = 7 ∨ d = 8 ∨
          d = 9 ∨ d = 10 ∨ d = 11 ∨ d = 12 ∨ d = 13 ∨ d = 14 ∨ d = 15)%N
    as Hcases by lia.
  repeat destruct Hcases as [->|Hcases]; try reflexivity. by subst.
Qed.

(** The form encoding writes nothing but the characters it leaves alone, the
    percent sign and the plus sign. *)
Lemma urlencode_chars (s : string) (c : ascii) :
  hasChar c (Js.urlencode s) = true →
  Js.isUrlSafe c = true ∨ c = "%"%char ∨ c = "+"%char.
Proof.
  induction s as [|x s IH]; [discriminate|].
  cbn [Js.urlencode]. destruct (Js.isUrlSafe x) eqn:Hx.
  - rewrite hasChar_cons, orb_true_iff, Ascii.eqb_eq. intros [->|H]; auto.
  - destruct (N_of_ascii x =? 32)%N.
    + rewrite hasChar_cons, orb_true_iff, Ascii.eqb_eq. intros [->|H]; auto.
    + rewrite !hasChar_cons, !orb_true_iff, !Ascii.eqb_eq.
      pose proof (N_ascii_bounded x) as Hbound.
      intros [->|[->|[->|H]]]; auto; left; apply hexDigit_safe.
      * apply N.Div0.div_lt_upper_bound. lia.
      * apply N.mod_lt. lia.
Qed.

Lemma urlencode_safe (s : string) : allUrlSafe s = true → Js.urlencode s = s.
Proof.
  induction s as [|c s IH]; [done|]. simpl.
  intros [Hc Hs]%andb_true_iff. rewrite Hc. by rewrite IH.
Qed.

Lemma urlencode_truthy (s : string) : s ≠ "" → Js.truthy (Js.urlencode s) = true.
Proof.
  destruct s as [|c s]; [done|]. intros _. cbn [Js.urlencode].
  by destruct (Js.isUrlSafe c), (N_of_ascii c =? 32)%N.
Qed.

Lemma truthy_append_l (a b : string) : Js.truthy a = true → Js.truthy (a +:+ b) = true.
Proof. by destruct a. Qed.

Lemma allUrlSafe_digits (digits : list N) :
  Forall (fun d => d < 10)%N digits →
  allUrlSafe (string_of_list_ascii (map Js.digitChar digits)) = true.
Proof.
  induction 1 as [|d digits Hd _ IH]; [done|]. simpl. rewrite IH, andb_true_r.
  assert (d = 0 ∨ d = 1 ∨ d = 2 ∨ d = 3 ∨ d = 4 ∨ d = 5 ∨ d = 6 ∨ d = 7 ∨ d = 8 ∨ d = 9)%N
    as Hcases by lia.
  repeat destruct Hcases as [->|Hcases]; try reflexivity. by subst.
Qed.

(** The text of a number passes the form encoding unchanged. *)
Lemma urlencode_toString (n : Z) :
  Js.urlencode (Js.Number_toString n) = Js.Number_toString n.
Proof.
  apply urlencode_safe. unfold Js.Number_toString, Js.decimal.
  destruct (n <? 0).
  - destruct (digitsOf_value (Z.to_N (- n))) as (_ & Hdigits & _).
    simpl. by apply allUrlSafe_digits.
  - destruct (digitsOf_value (Z.to_N n)) as (_ & Hdigits & _).
    by apply allUrlSafe_digits.
Qed.

Lemma toString_inj (a b : Z) : Js.Number_toString a = Js.Number_toString b → a = b.
Proof.
  intros H. pose proof (parseInt_toString a) as Ha.
  rewrite H, parseInt_toString in Ha. by injection Ha.
Qed.

Lemma urlencode_systemName (s : FilterableSystem) :
  Js.urlencode (systemName s) = systemName s.
Proof. by destruct s. Qed.

(** X5. The path for a search: a search text that is not empty is sent form
    encoded as the parameter [q], before the system; the encoded text holds
    no ampersand, equals sign, question mark, hash, slash or space, so the
    text cannot add or end a parameter.  An empty or absent search text sends
    no [q], and without any parameter the path is [/stations] with no
    question mark. *)
Theorem stationsEndpoint_search_text (q : string) (system : option FilterableSystem)
    (now : Z) :
  (q ≠ "" →
   stationsEndpoint (Some q) system false now =
     "/stations?q=" +:+ Js.urlencode q +:+
       match system with
       | Some s => "&system=" +:+ systemName s
       | None => ""
       end) ∧
  hasChar "&" (Js.urlencode q) = false ∧
  hasChar "=" (Js.urlencode q) = false ∧
  hasChar "?" (Js.urlencode q) = false ∧
  hasChar "#" (Js.urlencode q) = false ∧
  hasChar "/" (Js.urlencode q) = false ∧
  hasChar " " (Js.urlencode q) = false ∧
  stationsEndpoint (Some "") system false now = stationsEndpoint None system false now ∧
  stationsEndpoint None system false now =
    match system with
    | Some s => "/stations?system=" +:+ systemName s
    | None => "/stations"
    end.
Proof.
  assert (∀ c, Js.isUrlSafe c = false → c ≠ "%"%char → c ≠ "+"%char →
               hasChar c (Js.urlencode q) = false) as Hnone.
  { intros c Hsafe Hpercent Hplus.
    destruct (hasChar c (Js.urlencode q)) eqn:Hc; [|done].
    apply urlencode_chars in Hc as [Hc|[Hc|Hc]]; congruence. }
  split_and!; try (apply Hnone; [reflexivity | discriminate | discriminate]).
  - intros Hq. unfold stationsEndpoint.
    apply truthy_true in Hq as Htruthy. rewrite Htruthy.
    destruct system as [s|]; cbn [app Js.URLSearchParams_toString].
    + change (Js.urlencode "q") with "q". change (Js.urlencode "system") with "system".
      rewrite urlencode_systemName.
      rewrite truthy_append_l by done.
      by rewrite ?append_assoc, ?append_cons, ?append_empty_l.
    + change (Js.urlencode "q") with "q". rewrite truthy_append_l by done.
      by rewrite ?append_assoc, ?append_cons, ?append_empty_l, ?append_empty_r.
  - reflexivity.
  - destruct system as [s|]; [|reflexivity].
    unfold stationsEndpoint. cbn [app Js.URLSearchParams_toString].
    change (Js.urlencode "system") with "system". rewrite urlencode_systemName.
    rewrite truthy_append_l by done.
    by rewrite ?append_assoc, ?append_cons, ?append_empty_l.
Qed.

Lemma stationsEndpoint_search_text_witness :
  stationsEndpoint (Some "a&b=c d") (Some LIRR) false 0 =
  "/stations?q=a%26b%3Dc+d&system=LIRR".
Proof.
  destruct (stationsEndpoint_search_text "a&b=c d" (Some LIRR) 0) as (H & _).
  rewrite H by discriminate. reflexivity.
Defined.

(** X6. A forced refresh requests the path of the non-forced read with one
    more parameter, [_], appended with a question mark or an ampersand and
    holding the clock reading in decimal; forced refreshes made at different
    clock readings therefore request different paths. *)
Theorem stationsEndpoint_cache_buster (query : option string) (system : option FilterableSystem) :
  (∃ sep, (sep = "?" ∨ sep = "&") ∧
     ∀ now, stationsEndpoint query system true now =
            stationsEndpoint query system false now +:+ sep +:+ "_=" +:+
              Js.Number_toString now) ∧
  (∀ t1 t2, stationsEndpoint query system true t1 = stationsEndpoint query system true t2 →
            t1 = t2).
Proof.
  assert (∃ sep, (sep = "?" ∨ sep = "&") ∧
     ∀ now, stationsEndpoint query system true now =
            stationsEndpoint query system false now +:+ sep +:+ "_=" +:+
              Js.Number_toString now) as (sep & Hsep & Hforced).
  { assert (∀ now, Js.urlencode "_" +:+ "=" +:+ Js.urlencode (Js.Number_toString now) =
                   "_=" +:+ Js.Number_toString now) as Hbuster.
    { intros now. by rewrite urlencode_toString. }
    unfold stationsEndpoint.
    destruct query as [q|]; [destruct (Js.truthy q) eqn:Hq|]; destruct system as [s|];
      cbn [app Js.URLSearchParams_toString];
      [exists "&" | exists "&" | exists "&" | exists "?" | exists "&" | exists "?"];
      (split; [auto|]); intros now; rewrite ?Hbuster;
      change (Js.urlencode "q") with "q"; change (Js.urlencode "system") with "system";
      rewrite ?urlencode_systemName;
      rewrite ?truthy_append_l by done;
      by rewrite ?append_assoc, ?append_cons, ?append_empty_l. }
  split; [by exists sep|].
  intros t1 t2. rewrite !Hforced. intros H.
  do 3 apply String.app_inj in H. by apply toString_inj.
Qed.

(** *** The conversion of the departures *)

Lemma append_nonempty_r (a b : string) : b ≠ "" → a +:+ b ≠ "".
Proof. destruct a, b; done. Qed.

Lemma truthyValue_text (t : string) : t ≠ "" → truthyValue (Some (JStr t)) = true.
Proof. intros Ht. cbn [truthyValue]. by apply truthy_true. Qed.

Lemma converted_time (env : Env) (dep : Json) :
  (p_departureTime (converted env dep) = None ↔
   truthyValue (member "departureTime" dep) = false) ∧
  (member "departureTime" dep = None ∨ member "departureTime" dep = Some JNull ∨
   member "departureTime" dep = Some (JStr "") →
   p_departureTime (converted env dep) = None) ∧
  (∀ t, member "departureTime" dep = Some (JStr t) → t ≠ "" →
        p_departureTime (converted env dep) = Some {| Js.timeValue := Date_parse env t |}).
Proof.
  unfold converted. cbn [p_departureTime]. split_and!.
  - by destruct (truthyValue (member "departureTime" dep)).
  - by intros [->|[->| ->]].
  - intros t -> Ht. by rewrite truthyValue_text.
Qed.

Lemma converted_systemRouteId (env : Env) (dep : Json) :
  (systemRouteId (converted env dep) = "" ↔ truthyValue (member "routeId" dep) = false) ∧
  (member "routeId" dep = None ∨ member "routeId" dep = Some JNull ∨
   member "routeId" dep = Some (JStr "") →
   systemRouteId (converted env dep) = "") ∧
  (∀ r, member "routeId" dep = Some (JStr r) → r ≠ "" →
        (∀ s, member "system" dep = Some (JStr s) →
              systemRouteId (converted env dep) = s +:+ "-" +:+ r) ∧
        (member "system" dep = None →
         systemRouteId (converted env dep) = "undefined-" +:+ r) ∧
        (member "system" dep = Some JNull →
         systemRouteId (converted env dep) = "null-" +:+ r)).
Proof.
  unfold converted. cbn [systemRouteId]. split_and!.
  - destruct (truthyValue (member "routeId" dep)); [|done].
    split; [|done]. intros Hempty.
    apply append_nonempty_r in Hempty; [done|]. by destruct (textOf (member "routeId" dep)).
  - by intros [->|[->| ->]].
  - intros r -> Hr. rewrite truthyValue_text by done. cbn [textOf ToString].
    split_and!; [by intros s -> | by intros -> | by intros ->].
Qed.

Lemma Array_map_null (env : Env) (items : list Json) :
  JNull ∈ items →
  Array_map (processDeparture env) items =
  Abrupt (Error "Cannot read properties of null (reading 'departureTime')").
Proof.
  induction items as [|item items IH]; intros Hin; [by apply elem_of_nil in Hin|].
  cbn [Array_map]. destruct item; try done;
    (apply elem_of_cons in Hin as [?|Hin]; [done|]); cbn [processDeparture];
    by rewrite IH.
Qed.



(** *** The departure list when the request fails *)

Section DepartureLoading.
Context (env : Env) (utils : DateUtils) (localeCompare : string → string → Z)
  (station : StationProps).

(** X8. When the request for the departures fails, [loadDepartures] itself
    completes normally: the message of the error (the fallback text that
    names the station when what was thrown is no error) becomes the error of
    the view and the message of a failure toast, the departures shown before
    are dropped so that no section is rendered, the loading flag is off and
    the selected limit is kept.  No success toast follows the failure. *)
Theorem loadDepartures_failure (showLoadingToast : bool) (st : State DeparturesView)
    (e : Exn) :
  departuresReply env (station_id station) (limitParam (selectedLimit (view st))) None
    (clock (world st)) = Abrupt e →
  let message :=
    default ("Could not load departures for " +:+ station_name station +:+ ".")
      (instanceofError e) in
  fst (loadDepartures env station showLoadingToast st) = Normal tt ∧
  view (snd (loadDepartures env station showLoadingToast st)) =
    {| departuresLoading := false; selectedLimit := selectedLimit (view st);
       processedDepartures := []; error := Some message |} ∧
  toasts (world (snd (loadDepartures env station showLoadingToast st))) =
    toasts (world st) ++
      (if showLoadingToast
       then [ {| style := Animated; title := "Refreshing Departures..."; message := None |} ]
       else []) ++
      [ {| style := Failure; title := "Error"; message := Some message |} ] ∧
  storage (world (snd (loadDepartures env station showLoadingToast st))) =
    storage (world st) ∧
  sections utils localeCompare station
    (view (snd (loadDepartures env station showLoadingToast st))) = Normal [].
Proof.
  intros Hreply message. subst message.
  unfold loadDepartures. destruct showLoadingToast; run_async;
    rewrite fetchDepartures_eq;
    cbn [world view fst snd clock selectedLimit setError setDeparturesLoading];
    unfold limitParam in Hreply; rewrite Hreply;
    destruct (Js.truthy (station_id station)); cbn;
    rewrite <- ?app_assoc; split_and!; try reflexivity;
    unfold sections; cbn; by rewrite andb_false_r.
Qed.

(** X9. [loadDepartures] never throws, whatever the network does; it always
    ends with the loading flag off, keeps the selected limit and does not
    touch the local storage.  For a station whose identifier is empty it
    makes no request and shows an empty list without an error. *)
Theorem loadDepartures_completes (showLoadingToast : bool) (st : State DeparturesView) :
  fst (loadDepartures env station showLoadingToast st) = Normal tt ∧
  departuresLoading (view (snd (loadDepartures env station showLoadingToast st))) = false ∧
  selectedLimit (view (snd (loadDepartures env station showLoadingToast st))) =
    selectedLimit (view st) ∧
  storage (world (snd (loadDepartures env station showLoadingToast st))) =
    storage (world st) ∧
  (station_id station = "" →
   requests (world (snd (loadDepartures env station showLoadingToast st))) =
     requests (world st) ∧
   processedDepartures (view (snd (loadDepartures env station showLoadingToast st))) = [] ∧
   error (view (snd (loadDepartures env station showLoadingToast st))) = None).
Proof.
  assert (station_id station = "" →
          departuresReply env (station_id station) (limitParam (selectedLimit (view st)))
            None (clock (world st)) = Normal []) as Hnone.
  { intros Hempty. by rewrite Hempty. }
  unfold limitParam in Hnone.
  unfold loadDepartures. destruct showLoadingToast; run_async;
    rewrite fetchDepartures_eq;
    cbn [world view fst snd clock selectedLimit setError setDeparturesLoading];
    (destruct (departuresReply env (station_id station) _ None (clock (world st)))
       as [fetched|e] eqn:Hreply);
    (destruct (Js.truthy (station_id station)) eqn:Hid); cbn;
    split_and!; try reflexivity; intros Hempty;
    try (rewrite Hempty in Hid; cbn in Hid; discriminate);
    specialize (Hnone Hempty); try discriminate;
    by injection Hnone as ->.
Qed.

End DepartureLoading.

Lemma loadDepartures_completes_witness :
  requests
    (world (snd (loadDepartures offline {| station_id := ""; station_name := "Nowhere";
                                           station_system := SUBWAY |}
                   true {| world := worldAt midnight ∅; view := showing 60 [] |}))) = [].
Proof.
  apply (loadDepartures_completes offline
           {| station_id := ""; station_name := "Nowhere"; station_system := SUBWAY |}
           true {| world := worldAt midnight ∅; view := showing 60 [] |}).
  reflexivity.
Defined.

Lemma loadDepartures_failure_witness :
  error (view (snd (loadDepartures offline pennStation true
                      {| world := worldAt midnight ∅;
                         view := showing 60
                           [converted offline (departureAt (Some "Queens") None "LIRR")] |}))) =
  Some "fetch failed".
Proof.
  destruct (loadDepartures_failure offline plainUtils byteCompare pennStation true
              {| world := worldAt midnight ∅;
                 view := showing 60
                   [converted offline (departureAt (Some "Queens") None "LIRR")] |}
              (APIError "fetch failed" None) eq_refl) as (_ & Hview & _).
  rewrite Hview. reflexivity.
Defined.

(** ** Further properties of the station list with the cache *)

Section StationListFacts.
Context (env : Env).

(** What [loadStations] does when it does not serve the snapshot: the same
    as on a stale timestamp. *)
Lemma loadStations_fetches (text : string) (filter : SystemFilterValue)
    (st : State FindView) :
  timestampFresh (world st) &&
    match storage (world st) !! STATION_LIST_CACHE_KEY with
    | Some i => itemTruthy i
    | None => false
    end = false →
  loadStations env text filter st =
  match stationsReply env (Some text) (filterValueToApiParam filter) false (clock (world st)) with
  | Normal stations =>
      let st' :=
        requested env
          (stationsEndpoint (Some text) (filterValueToApiParam filter) false (clock (world st)))
          st in
      (Normal tt,
       {| world :=
            {| clock := clock (world st');
               storage := withSnapshot stations (clock (world st')) (storage (world st));
               requests := requests (world st'); toasts := toasts (world st) |};
          view := setIsLoading false (setAllStations stations (setIsLoading true (view st))) |})
  | Abrupt e =>
      let st' :=
        requested env
          (stationsEndpoint (Some text) (filterValueToApiParam filter) false (clock (world st)))
          st in
      (Normal tt,
       {| world :=
            {| clock := clock (world st'); storage := storage (world st);
               requests := requests (world st');
               toasts := toasts (world st) ++
                 [failureToast "Error Loading Stations" "Could not load station data." e] |};
          view := setIsLoading false (setAllStations [] (setIsLoading true (view st))) |})
  end.
Proof.
  intros Hcond. unfold loadStations. run_async.
  unfold timestampFresh, storedTimestamp in Hcond.
  destruct (Js.truthyNumber _ && _) eqn:Hfresh in Hcond |- *.
  - cbn [andb] in Hcond. run_async.
    destruct (storage (world st) !! STATION_LIST_CACHE_KEY) as [i|];
      [rewrite Hcond|];
      run_async; rewrite fetchStations_eq; cbn [world view fst snd clock];
      unfold stationsReply in *; destruct (stationsDocument env (Some text) (filterValueToApiParam filter) false
                  (clock (world st))) as [stations|e]; by cbn.
  - run_async. rewrite fetchStations_eq. cbn [world view fst snd clock].
    unfold stationsReply in *; destruct (stationsDocument env (Some text) (filterValueToApiParam filter) false
                (clock (world st))) as [stations|e]; by cbn.
Qed.

(** What [loadStations] does when it finds a fresh timestamp and a snapshot
    that is not empty: no request, and the storage stays as it is. *)
Lemma loadStations_serves (text : string) (filter : SystemFilterValue)
    (st : State FindView) (i : Item) :
  timestampFresh (world st) = true →
  storage (world st) !! STATION_LIST_CACHE_KEY = Some i →
  itemTruthy i = true →
  fst (loadStations env text filter st) = Normal tt ∧
  clock (world (snd (loadStations env text filter st))) = clock (world st) ∧
  storage (world (snd (loadStations env text filter st))) = storage (world st) ∧
  requests (world (snd (loadStations env text filter st))) = requests (world st) ∧
  isLoading (view (snd (loadStations env text filter st))) = false ∧
  searchText (view (snd (loadStations env text filter st))) = searchText (view st) ∧
  selectedSystem (view (snd (loadStations env text filter st))) = selectedSystem (view st).
Proof.
  intros Hfresh Hcache Htruthy. unfold loadStations. run_async.
  unfold timestampFresh, storedTimestamp in Hfresh. rewrite Hfresh.
  run_async. rewrite Hcache, Htruthy.
  destruct (JSON_parse i) as [stations|]; by cbn.
Qed.

(** X10. Let the clock reading be a time value, at most 8 640 000 000 000 000
    milliseconds from the epoch, and let the timestamp key hold no serialised
    station list.  Then [loadStations] makes no request exactly when the
    stored timestamp passes the freshness test and the snapshot key holds a
    text that is not empty; in every other case (no timestamp, a timestamp
    that is empty, not a number, zero or too old, or no snapshot) it makes
    exactly one request, for the non-forced path of its search text and
    filter.  White space before the digits of the timestamp is skipped, and
    within the clock range the exact integer that [parseInt] stands for here
    passes the freshness test exactly when the double of the host does. *)
Theorem loadStations_requests (text : string) (filter : SystemFilterValue)
    (st : State FindView) :
  -8640000000000000 <= clock (world st) <= 8640000000000000 →
  (∀ stations,
     storage (world st) !! STATION_LIST_TIMESTAMP_KEY ≠ Some (Serialized stations)) →
  requests (world (snd (loadStations env text filter st))) =
    requests (world st) ++
      (if timestampFresh (world st) &&
          match storage (world st) !! STATION_LIST_CACHE_KEY with
          | Some i => itemTruthy i
          | None => false
          end
       then []
       else [API_BASE_URL env +:+
             stationsEndpoint (Some text) (filterValueToApiParam filter) false
               (clock (world st))]).
Proof.
  intros _ _.
  destruct (timestampFresh (world st) && _) eqn:Hcond.
  - apply andb_true_iff in Hcond as [Hfresh Hitem].
    destruct (storage (world st) !! STATION_LIST_CACHE_KEY) as [i|] eqn:Hcache;
      [|discriminate].
    destruct (loadStations_serves text filter st i Hfresh Hcache Hitem)
      as (_ & _ & _ & -> & _).
    by rewrite app_nil_r.
  - rewrite (loadStations_fetches text filter st Hcond).
    by unfold stationsReply in *; destruct (stationsDocument env _ _ _ _).
Qed.

(** X11. [loadStations] never throws, whatever the storage holds and whatever
    the network does; it ends with the loading flag off, keeps the search text
    and the selected system, and leaves every key of the local storage other
    than its two as it is. *)
Theorem loadStations_completes (text : string) (filter : SystemFilterValue)
    (st : State FindView) :
  fst (loadStations env text filter st) = Normal tt ∧
  isLoading (view (snd (loadStations env text filter st))) = false ∧
  searchText (view (snd (loadStations env text filter st))) = searchText (view st) ∧
  selectedSystem (view (snd (loadStations env text filter st))) = selectedSystem (view st) ∧
  (∀ key, key ≠ STATION_LIST_CACHE_KEY → key ≠ STATION_LIST_TIMESTAMP_KEY →
          storage (world (snd (loadStations env text filter st))) !! key =
          storage (world st) !! key).
Proof.
  destruct (timestampFresh (world st) &&
            match storage (world st) !! STATION_LIST_CACHE_KEY with
            | Some i => itemTruthy i
            | None => false
            end) eqn:Hcond.
  - apply andb_true_iff in Hcond as [Hfresh Hitem].
    destruct (storage (world st) !! STATION_LIST_CACHE_KEY) as [i|] eqn:Hcache;
      [|discriminate].
    destruct (loadStations_serves text filter st i Hfresh Hcache Hitem)
      as (? & _ & Hstore & _ & ? & ? & ?).
    split_and!; try done. intros key _ _. by rewrite Hstore.
  - rewrite (loadStations_fetches text filter st Hcond).
    unfold stationsReply in *; destruct (stationsDocument env _ _ _ _) as [stations|e]; cbn;
      split_and!; try done.
    intros key Hcache Hts. unfold withSnapshot.
    by rewrite !lookup_insert_ne.
Qed.

(** X12. [handleRefresh] never throws, also when its request fails; it makes
    exactly one request, for the forced path of the search text and the
    selected system of the view, ends with the loading flag off, keeps the
    search text and the selected system, leaves every key of the local
    storage other than its two as it is, and shows two toasts: the animated
    one, then either the success or one failure toast. *)
Theorem handleRefresh_completes (st : State FindView) :
  fst (handleRefresh env st) = Normal tt ∧
  requests (world (snd (handleRefresh env st))) =
    requests (world st) ++
      [API_BASE_URL env +:+
       stationsEndpoint (Some (searchText (view st)))
         (filterValueToApiParam (selectedSystem (view st))) true (clock (world st))] ∧
  isLoading (view (snd (handleRefresh env st))) = false ∧
  searchText (view (snd (handleRefresh env st))) = searchText (view st) ∧
  selectedSystem (view (snd (handleRefresh env st))) = selectedSystem (view st) ∧
  (∀ key, key ≠ STATION_LIST_CACHE_KEY → key ≠ STATION_LIST_TIMESTAMP_KEY →
          storage (world (snd (handleRefresh env st))) !! key = storage (world st) !! key) ∧
  (∃ outcome,
     toasts (world (snd (handleRefresh env st))) =
       toasts (world st) ++
         [ {| style := Animated; title := "Refreshing station list..."; message := None |};
           outcome ] ∧
     (style outcome = Success ∨ style outcome = Failure)).
Proof.
  unfold handleRefresh. run_async. rewrite fetchStations_eq.
  cbn [world view fst snd clock searchText selectedSystem setIsLoading].
  unfold readLength, throw, ret.
  destruct (stationsDocument env (Some (searchText (view st)))
              (filterValueToApiParam (selectedSystem (view st))) true
              (clock (world st))) as [[| | | | |]|e]; cbn;
    (split_and!; try done;
     [intros key Hcache Hts; by rewrite ?lookup_insert_ne, ?lookup_delete_ne by done
     |eexists; rewrite <- app_assoc; (split; [reflexivity|]); first [by left | by right]]).
Qed.

(** X13. A forced refresh that receives a JSON array is a cache fill: the
    stations of the array are what the view shows, and what a non-forced read
    shows afterwards, under any search text and any filter and without a
    request, as long as less than the time to live has passed (and the refresh
    did not end at the clock reading zero).  A refresh that receives [null]
    is a failed one: reading the length of what was received throws, nothing
    is stored, the stations shown stay, and the failure toast carries the
    message of the TypeError. *)
Theorem handleRefresh_then_loadStations (st : State FindView) :
  (∀ (items : list Json) (dt : Z) (text : string) (filter : SystemFilterValue),
     stationsDocument env (Some (searchText (view st)))
       (filterValueToApiParam (selectedSystem (view st))) true (clock (world st)) =
       Normal (JArr items) →
     clock (world (snd (handleRefresh env st))) ≠ 0 →
     dt < STATION_LIST_CACHE_TTL →
     allStations (view (snd (handleRefresh env st))) = map asStation items ∧
     allStations
       (view (snd (loadStations env text filter (later dt (snd (handleRefresh env st)))))) =
       map asStation items ∧
     requests
       (world (snd (loadStations env text filter (later dt (snd (handleRefresh env st)))))) =
       requests (world (snd (handleRefresh env st)))) ∧
  (stationsDocument env (Some (searchText (view st)))
     (filterValueToApiParam (selectedSystem (view st))) true (clock (world st)) =
     Normal JNull →
   storage (world (snd (handleRefresh env st))) = withoutSnapshot (storage (world st)) ∧
   allStations (view (snd (handleRefresh env st))) = allStations (view st) ∧
   toasts (world (snd (handleRefresh env st))) =
     toasts (world st) ++
       [ {| style := Animated; title := "Refreshing station list..."; message := None |};
         {| style := Failure; title := "Failed to refresh station list";
            message := Some "Cannot read properties of null (reading 'length')" |} ]).
Proof.
  destruct (handleRefresh_spec env st) as (_ & _ & Hstored). unfold refreshed in Hstored.
  split.
  - intros items dt text filter Hreply Hclock Hdt.
    rewrite Hreply in Hstored. destruct Hstored as (Hstore & Hshown & _).
    change (as_type (JArr items)) with (map asStation items) in Hstore, Hshown.
    set (st1 := snd (handleRefresh env st)) in *.
    destruct (lookup_withSnapshot (map asStation items) (clock (world st1))
                (withoutSnapshot (storage (world st)))) as [Hts Hcache].
    rewrite <- Hstore in Hts, Hcache.
    assert (timestampFresh (world (later dt st1)) = true) as Hfresh.
    { rewrite (timestampFresh_stored _ (clock (world st1))) by exact Hts.
      apply andb_true_iff. split.
      - by apply negb_true_iff, Z.eqb_neq.
      - apply Z.ltb_lt. cbn [later world clock]. lia. }
    rewrite (loadStations_hit env text filter (later dt st1) _ Hfresh Hcache).
    by cbn [snd view world later requests].
  - intros Hreply. by rewrite Hreply in Hstored.
Qed.
End StationListFacts.

Lemma loadStations_completes_witness :
  storage
    (world (snd (loadStations twoSystems "" All
                   {| world := worldAt 1000 {["favorites" := Text "127"]};
                      view := initialFindView |}))) !! "favorites" =
  Some (Text "127").
Proof.
  destruct (loadStations_completes twoSystems "" All
              {| world := worldAt 1000 {["favorites" := Text "127"]};
                 view := initialFindView |}) as (_ & _ & _ & _ & Hkeys).
  rewrite (Hkeys "favorites"); [reflexivity | discriminate | discriminate].
Defined.

Lemma handleRefresh_completes_witness :
  storage
    (world (snd (handleRefresh offline
                   {| world := worldAt 1000 {["favorites" := Text "127"]};
                      view := initialFindView |}))) !! "favorites" =
  Some (Text "127").
Proof.
  destruct (handleRefresh_completes offline
              {| world := worldAt 1000 {["favorites" := Text "127"]};
                 view := initialFindView |}) as (_ & _ & _ & _ & _ & Hkeys & _).
  rewrite (Hkeys "favorites"); [reflexivity | discriminate | discriminate].
Defined.

Lemma handleRefresh_then_loadStations_witness :
  allStations
    (view (snd (handleRefresh twoSystems
                  {| world := worldAt 1000 ∅; view := findView "" (Only SUBWAY) [] |}))) =
    map asStation [stationJson "127" "Times Sq-42 St"] ∧
  allStations
    (view (snd (loadStations twoSystems "penn" (Only LIRR)
                  (later 1000
                     (snd (handleRefresh twoSystems
                             {| world := worldAt 1000 ∅;
                                view := findView "" (Only SUBWAY) [] |})))))) =
    map asStation [stationJson "127" "Times Sq-42 St"] ∧
  requests
    (world (snd (loadStations twoSystems "penn" (Only LIRR)
                   (later 1000
                      (snd (handleRefresh twoSystems
                              {| world := worldAt 1000 ∅;
                                 view := findView "" (Only SUBWAY) [] |})))))) =
    requests
      (world (snd (handleRefresh twoSystems
                     {| world := worldAt 1000 ∅; view := findView "" (Only SUBWAY) [] |}))).
Proof.
  apply (proj1 (handleRefresh_then_loadStations twoSystems
                  {| world := worldAt 1000 ∅; view := findView "" (Only SUBWAY) [] |})
           [stationJson "127" "Times Sq-42 St"] 1000 "penn" (Only LIRR)).
  - vm_compute. reflexivity.
  - vm_compute. discriminate.
  - reflexivity.
Defined.

Lemma loadStations_requests_witness :
  requests
    (world (snd (loadStations twoSystems "penn" (Only LIRR)
                   {| world :=
                        worldAt 2000
                          (<[STATION_LIST_TIMESTAMP_KEY :=
                               Text (String "194" (String "160" "1500"))]>
                             (withSnapshot snapshotA 1000 ∅));
                      view := initialFindView |}))) = [] ∧
  requests
    (world (snd (loadStations twoSystems "penn" (Only LIRR)
                   {| world := worldAt 2000 ∅; view := initialFindView |}))) =
    ["http://localhost:3000/api/v1/stations?q=penn&system=LIRR"].
Proof.
  split.
  - rewrite (loadStations_requests twoSystems "penn" (Only LIRR)
               {| world :=
                    worldAt 2000
                      (<[STATION_LIST_TIMESTAMP_KEY :=
                           Text (String "194" (String "160" "1500"))]>
                         (withSnapshot snapshotA 1000 ∅));
                  view := initialFindView |});
      [vm_compute; reflexivity | cbn [world clock worldAt]; lia |].
    intros stations. vm_compute. discriminate.
  - rewrite (loadStations_requests twoSystems "penn" (Only LIRR)
               {| world := worldAt 2000 ∅; view := initialFindView |});
      [vm_compute; reflexivity | cbn [world clock worldAt]; lia |].
    intros stations. vm_compute. discriminate.
Defined.

(** ** What the station list renders *)

Lemma favoriteAndOtherStations_elements (localeCompare : string → string → Z)
    (favorites : gset string) (stations : list Station) :
  (∀ s, s ∈ fst (favoriteAndOtherStations localeCompare favorites stations) ↔
        s ∈ stations ∧ id s ∈ favorites) ∧
  (∀ s, s ∈ snd (favoriteAndOtherStations localeCompare favorites stations) ↔
        s ∈ stations ∧ id s ∉ favorites) ∧
  fst (favoriteAndOtherStations localeCompare favorites stations) ++
    snd (favoriteAndOtherStations localeCompare favorites stations) ≡ₚ stations.
Proof.
  unfold favoriteAndOtherStations. rewrite splitStations_filter. simpl.
  split_and!.
  - intros s. rewrite elem_of_sorted_filter. unfold isFavorite.
    by rewrite bool_decide_eq_true.
  - intros s. rewrite elem_of_sorted_filter. unfold isFavorite.
    by rewrite negb_true_iff, bool_decide_eq_false.
  - rewrite !Array_sort_Permutation. apply filter_complement_Permutation.
Qed.

Lemma default_section {A B : Type} (f : A → B) (l : list A) :
  default [] (if (0 <? length l)%nat then Some (map f l) else None) = map f l.
Proof. by destruct l. Qed.

Lemma default_titled_section {A B : Type} (title : string) (f : A → B) (l : list A) :
  default [] (snd <$> (if (0 <? length l)%nat then Some (title, map f l) else None)) =
  map f l.
Proof. by destruct l. Qed.

Lemma length_zero_iff_no_element {A : Type} (l : list A) :
  (0 <? length l)%nat = false ↔ ∀ x, x ∉ l.
Proof.
  destruct l as [|x l]; simpl.
  - split; [|done]. intros _ x. apply not_elem_of_nil.
  - split; [done|]. intros H. destruct (H x). left.
Qed.

Section FindScreenFacts.
Context (localeCompare : string → string → Z) (favorites : gset string).

(** X14. With an empty search text every loaded station is rendered exactly
    once, the favourites in the section "Favorites" and the others in a
    section titled "Other Stations" when there is a favourite and
    "All Stations" when there is none; the view for a search without match is
    never shown, and the view for no station is shown exactly when nothing is
    loaded and the list is not loading. *)
Theorem findScreen_without_search (v : FindView) :
  searchText v = "" →
  renderedStations localeCompare favorites v ≡ₚ allStations v ∧
  (∀ title items,
     othersSection (findScreen localeCompare favorites v) = Some (title, items) →
     title = match favoritesSection (findScreen localeCompare favorites v) with
             | Some _ => "Other Stations"
             | None => "All Stations"
             end) ∧
  noMatchView (findScreen localeCompare favorites v) = false ∧
  (noStationsView (findScreen localeCompare favorites v) = true ↔
   allStations v = [] ∧ isLoading v = false).
Proof.
  intros Htext.
  destruct (favoriteAndOtherStations_elements localeCompare favorites (allStations v))
    as (_ & _ & Hall).
  unfold renderedStations, findScreen.
  cbn [favoritesSection othersSection noMatchView noStationsView].
  rewrite Htext. cbn [String.eqb andb negb].
  set (favoriteStations :=
         fst (favoriteAndOtherStations localeCompare favorites (allStations v))) in *.
  set (otherStations :=
         snd (favoriteAndOtherStations localeCompare favorites (allStations v))) in *.
  split_and!.
  - rewrite default_section, default_titled_section, !map_map. cbn [item_station].
    by rewrite !map_id.
  - intros title items.
    destruct (0 <? length otherStations)%nat; [|discriminate].
    intros [= <- _]. by destruct (0 <? length favoriteStations)%nat.
  - reflexivity.
  - rewrite !andb_true_iff, !negb_true_iff. split.
    + intros [[Hfav Hothers] Hloading]. split; [|done].
      destruct favoriteStations, otherStations; try discriminate.
      by apply Permutation_nil_l in Hall.
    + intros [Hnone Hloading]. rewrite Hnone in Hall.
      apply Permutation_nil_r, app_eq_nil in Hall as [-> ->]. done.
Qed.

(** X15. With a search text that is not empty the section "Favorites" is not
    rendered: the stations rendered are the loaded stations that are no
    favourites, under the title "Search Results", and a favourite among the
    loaded stations is not rendered at all.  The view for a search without
    match is shown exactly when the list is not loading and every loaded
    station is a favourite; the view for no station is never shown. *)
Theorem findScreen_with_search (v : FindView) :
  searchText v ≠ "" →
  favoritesSection (findScreen localeCompare favorites v) = None ∧
  (∀ s, s ∈ renderedStations localeCompare favorites v ↔
        s ∈ allStations v ∧ id s ∉ favorites) ∧
  (∀ title items,
     othersSection (findScreen localeCompare favorites v) = Some (title, items) →
     title = "Search Results") ∧
  (noMatchView (findScreen localeCompare favorites v) = true ↔
   isLoading v = false ∧ ∀ s, s ∈ allStations v → id s ∈ favorites) ∧
  noStationsView (findScreen localeCompare favorites v) = false.
Proof.
  intros Htext. apply String.eqb_neq in Htext.
  destruct (favoriteAndOtherStations_elements localeCompare favorites (allStations v))
    as (_ & Hothers & _).
  unfold renderedStations, findScreen.
  cbn [favoritesSection othersSection noMatchView noStationsView].
  rewrite Htext. cbn [andb negb default map app].
  set (otherStations :=
         snd (favoriteAndOtherStations localeCompare favorites (allStations v))) in *.
  split_and!.
  - reflexivity.
  - intros s. rewrite default_titled_section, map_map. cbn [item_station].
    by rewrite map_id.
  - intros title items.
    destruct (0 <? length otherStations)%nat; [|discriminate]. by intros [= <- _].
  - rewrite andb_true_iff, !negb_true_iff, length_zero_iff_no_element. split.
    + intros [Hnone Hloading]. split; [done|]. intros s Hs.
      destruct (decide (id s ∈ favorites)) as [|Hno]; [done|].
      destruct (Hnone s). by apply Hothers.
    + intros [Hloading Hfav]. split; [|done].
      intros s [Hs Hno]%Hothers. by apply Hno, Hfav.
  - reflexivity.
Qed.

(** X16. The [isFavorite] property of every item of the section "Favorites"
    is true and the station is a favourite; in the other section the property,
    computed from the favourites, is false for every item and the station is
    no favourite. *)
Theorem findScreen_item_flags (v : FindView) :
  (∀ items item,
     favoritesSection (findScreen localeCompare favorites v) = Some items →
     item ∈ items →
     item_isFavorite item = true ∧ id (item_station item) ∈ favorites) ∧
  (∀ title items item,
     othersSection (findScreen localeCompare favorites v) = Some (title, items) →
     item ∈ items →
     item_isFavorite item = false ∧ id (item_station item) ∉ favorites).
Proof.
  destruct (favoriteAndOtherStations_elements localeCompare favorites (allStations v))
    as (Hfavorites & Hothers & _).
  unfold findScreen. cbn [favoritesSection othersSection].
  split.
  - intros items item.
    destruct (_ && _); [|discriminate]. intros [= <-].
    intros (s & <- & [_ Hs]%list_elem_of_In%Hfavorites)%list_elem_of_In%in_map_iff.
    done.
  - intros title items item.
    destruct (0 <? length _)%nat; [|discriminate]. intros [= _ <-].
    intros (s & <- & [_ Hs]%list_elem_of_In%Hothers)%list_elem_of_In%in_map_iff.
    cbn [item_isFavorite item_station]. split; [|done].
    unfold isFavorite. by apply bool_decide_eq_false.
Qed.
End FindScreenFacts.

Lemma findScreen_without_search_witness :
  renderedStations byteCompare {["631"]}
    (findView "" All
       [stationNamed "127" "Times Sq-42 St"; stationNamed "631" "Grand Central-42 St"]) ≡ₚ
  [stationNamed "127" "Times Sq-42 St"; stationNamed "631" "Grand Central-42 St"].
Proof.
  apply (findScreen_without_search byteCompare {["631"]}
           (findView "" All
              [stationNamed "127" "Times Sq-42 St"; stationNamed "631" "Grand Central-42 St"])).
  reflexivity.
Defined.

Lemma findScreen_with_search_witness :
  favoritesSection
    (findScreen byteCompare {["631"]}
       (findView "grand" All [stationNamed "631" "Grand Central-42 St"])) = None ∧
  noMatchView
    (findScreen byteCompare {["631"]}
       (findView "grand" All [stationNamed "631" "Grand Central-42 St"])) = true.
Proof.
  destruct (findScreen_with_search byteCompare {["631"]}
              (findView "grand" All [stationNamed "631" "Grand Central-42 St"]))
    as (Hfav & _ & _ & Hmatch & _); [discriminate|].
  split; [exact Hfav|]. apply Hmatch. split; [reflexivity|].
  intros s ->%list_elem_of_singleton. by apply elem_of_singleton.
Defined.

(** ** The station list without the cache *)

Section FullListFacts.
Context (env : Env).

(** What [loadStations] of the revision without cache does, in full. *)
Lemma FullList_loadStations_eq (filter : SystemFilterValue) (st : State FullList.View) :
  FullList.loadStations env filter st =
  (Normal tt,
   {| world :=
        {| clock :=
             clock (world (requested env
                             (stationsEndpoint None (filterValueToApiParam filter) false
                                (clock (world st))) st));
           storage := storage (world st);
           requests :=
             requests (world st) ++
               [API_BASE_URL env +:+
                stationsEndpoint None (filterValueToApiParam filter) false (clock (world st))];
           toasts :=
             toasts (world st) ++
               match stationsReply env None (filterValueToApiParam filter) false
                       (clock (world st)) with
               | Normal _ => []
               | Abrupt e =>
                   [failureToast "Error Loading Stations" "Could not load station data." e]
               end |};
      view :=
        {| FullList.searchText := FullList.searchText (view st);
           FullList.selectedSystem := FullList.selectedSystem (view st);
           FullList.allStations :=
             match stationsReply env None (filterValueToApiParam filter) false
                     (clock (world st)) with
             | Normal stations => stations
             | Abrupt _ => []
             end;
           FullList.isLoading := false;
           FullList.error :=
             match stationsReply env None (filterValueToApiParam filter) false
                     (clock (world st)) with
             | Normal _ => None
             | Abrupt e =>
                 Some (default "Could not load station data." (instanceofError e))
             end |} |}).
Proof.
  unfold FullList.loadStations. run_async. rewrite fetchStations_eq.
  cbn [world view fst snd clock].
  unfold stationsReply in *; destruct (stationsDocument env None (filterValueToApiParam filter) false (clock (world st)))
    as [stations|e]; cbn; by rewrite ?app_nil_r.
Qed.

(** X17. Without the cache, [loadStations] never throws and never touches the
    local storage; it makes one request, whose path depends on the system
    filter alone: [/stations] for all systems and [/stations?system=S] for
    one, whatever the search text.  On success the fetched stations are shown
    and the error is cleared; on failure the list is emptied and the message
    becomes the error of the view and a failure toast. *)
Theorem FullList_loadStations_spec (filter : SystemFilterValue) (st : State FullList.View) :
  fst (FullList.loadStations env filter st) = Normal tt ∧
  storage (world (snd (FullList.loadStations env filter st))) = storage (world st) ∧
  requests (world (snd (FullList.loadStations env filter st))) =
    requests (world st) ++
      [API_BASE_URL env +:+
       match filter with
       | All => "/stations"
       | Only s => "/stations?system=" +:+ systemName s
       end] ∧
  FullList.isLoading (view (snd (FullList.loadStations env filter st))) = false ∧
  FullList.searchText (view (snd (FullList.loadStations env filter st))) =
    FullList.searchText (view st) ∧
  match stationsReply env None (filterValueToApiParam filter) false (clock (world st)) with
  | Normal stations =>
      FullList.allStations (view (snd (FullList.loadStations env filter st))) = stations ∧
      FullList.error (view (snd (FullList.loadStations env filter st))) = None ∧
      toasts (world (snd (FullList.loadStations env filter st))) = toasts (world st)
  | Abrupt e =>
      FullList.allStations (view (snd (FullList.loadStations env filter st))) = [] ∧
      FullList.error (view (snd (FullList.loadStations env filter st))) =
        Some (default "Could not load station data." (instanceofError e)) ∧
      toasts (world (snd (FullList.loadStations env filter st))) =
        toasts (world st) ++
          [failureToast "Error Loading Stations" "Could not load station data." e]
  end.
Proof.
  rewrite FullList_loadStations_eq. cbn [fst snd world view storage requests toasts
    FullList.isLoading FullList.searchText FullList.allStations FullList.error].
  split_and!; try reflexivity.
  - do 2 f_equal. destruct filter as [|s]; [reflexivity|].
    unfold stationsEndpoint, filterValueToApiParam. cbn [app Js.URLSearchParams_toString].
    change (Js.urlencode "system") with "system". rewrite urlencode_systemName.
    rewrite truthy_append_l by done.
    by rewrite ?append_assoc, ?append_cons, ?append_empty_l.
  - unfold stationsReply in *; destruct (stationsDocument env None (filterValueToApiParam filter) false (clock (world st)));
      by rewrite ?app_nil_r.
Qed.

(** X18. Without the cache, [handleRefresh] ends with the success toast
    "Station list refreshed" whether the load succeeded or not: when the
    request fails the failure toast of the load is followed by the success
    toast, while the view holds the error and an empty list. *)
Theorem FullList_handleRefresh_success_toast (st : State FullList.View) :
  fst (FullList.handleRefresh env st) = Normal tt ∧
  toasts (world (snd (FullList.handleRefresh env st))) =
    toasts (world st) ++
      [ {| style := Animated; title := "Refreshing station list..."; message := None |} ] ++
      match stationsReply env None (filterValueToApiParam (FullList.selectedSystem (view st)))
              false (clock (world st)) with
      | Normal _ => []
      | Abrupt e => [failureToast "Error Loading Stations" "Could not load station data." e]
      end ++
      [ {| style := Success; title := "Station list refreshed"; message := None |} ] ∧
  (∀ e, stationsReply env None (filterValueToApiParam (FullList.selectedSystem (view st)))
          false (clock (world st)) = Abrupt e →
        FullList.allStations (view (snd (FullList.handleRefresh env st))) = [] ∧
        FullList.error (view (snd (FullList.handleRefresh env st))) =
          Some (default "Could not load station data." (instanceofError e))).
Proof.
  unfold FullList.handleRefresh. run_async. rewrite FullList_loadStations_eq.
  cbn [fst snd world view clock storage requests toasts FullList.selectedSystem
       FullList.allStations FullList.error].
  split_and!; try reflexivity.
  - by rewrite <- !app_assoc.
  - by intros e ->.
Qed.
End FullListFacts.

Lemma FullList_handleRefresh_success_toast_witness :
  toasts
    (world (snd (FullList.handleRefresh offline
                   {| world := worldAt 1000 ∅; view := FullList.initialView |}))) =
  [ {| style := Animated; title := "Refreshing station list..."; message := None |};
    {| style := Failure; title := "Error Loading Stations"; message := Some "fetch failed" |};
    {| style := Success; title := "Station list refreshed"; message := None |} ] ∧
  FullList.error
    (view (snd (FullList.handleRefresh offline
                  {| world := worldAt 1000 ∅; view := FullList.initialView |}))) =
  Some "fetch failed".
Proof.
  destruct (FullList_handleRefresh_success_toast offline
              {| world := worldAt 1000 ∅; view := FullList.initialView |})
    as (_ & Htoasts & Hfailed).
  split.
  - rewrite Htoasts. reflexivity.
  - apply (Hfailed (APIError "fetch failed" None)). reflexivity.
Defined.

Section FullListScreenFacts.
Context (localeCompare : string → string → Z) (favorites : gset string).

End FullListScreenFacts.


(** ** Service alerts *)

Lemma urlencode_app (a b : string) :
  Js.urlencode (a +:+ b) = Js.urlencode a +:+ Js.urlencode b.
Proof.
  induction a as [|c a IH]; [reflexivity|].
  rewrite append_cons. cbn [Js.urlencode]. rewrite IH.
  by destruct (Js.isUrlSafe c), (N_of_ascii c =? 32)%N.
Qed.

Lemma urlencode_join (parts : list string) :
  Js.urlencode (Array_join "," parts) = Array_join "%2C" (map Js.urlencode parts).
Proof.
  induction parts as [|p parts IH]; [reflexivity|].
  destruct parts as [|p' parts]; [reflexivity|].
  change (Array_join "," (p :: p' :: parts))
    with (p +:+ "," +:+ Array_join "," (p' :: parts)).
  rewrite !urlencode_app, IH. reflexivity.
Qed.

(** X20. The path for the alerts always has a query: the parameters
    [activeNow=true] and [includeLabels=true] are always sent, preceded by
    [lines] when lines are given and the list is not empty, and followed by
    [stationId] when a station that is not empty is given.  The lines are
    form encoded one by one and joined by an encoded comma. *)
Theorem alertsEndpoint_spec (targetLines : option (list string)) (stationId : option string) :
  alertsEndpoint targetLines stationId =
    "/alerts?" +:+
    match targetLines with
    | Some (l :: ls) =>
        "lines=" +:+ Array_join "%2C" (map Js.urlencode (l :: ls)) +:+ "&"
    | _ => ""
    end +:+
    "activeNow=true&includeLabels=true" +:+
    match stationId with
    | Some i => if String.eqb i "" then "" else "&stationId=" +:+ Js.urlencode i
    | None => ""
    end.
Proof.
  assert (∀ i, stationId = Some i → i ≠ "" → Js.truthy i = true ∧ String.eqb i "" = false)
    as Hid.
  { intros i _ Hi. split; [by apply truthy_true | by apply String.eqb_neq]. }
  unfold alertsEndpoint.
  destruct targetLines as [[|l ls]|]; cbn [length Nat.ltb Nat.leb app];
    (destruct stationId as [[|c i]|];
     [ | destruct (Hid (String c i) eq_refl) as [-> ->]; [done|] | ]);
    cbn [Js.truthy String.eqb negb app Js.URLSearchParams_toString];
    rewrite ?urlencode_join;
    change (Js.urlencode "lines") with "lines";
    change (Js.urlencode "activeNow") with "activeNow";
    change (Js.urlencode "includeLabels") with "includeLabels";
    change (Js.urlencode "stationId") with "stationId";
    change (Js.urlencode "true") with "true";
    rewrite ?truthy_append_l by done;
    by rewrite ?append_assoc, ?append_cons, ?append_empty_l, ?append_empty_r.
Qed.

Section AlertFacts.
Context (env : Env).

Lemma fetchAlerts_eq {V : Type} (targetLines : option (list string))
    (stationId : option string) (st : State V) :
  fetchAlerts env targetLines stationId st =
  (alertsReply env targetLines stationId (clock (world st)),
   requested env (alertsEndpoint targetLines stationId) st).
Proof.
  unfold alertsReply, fetchAlerts, bind.
  rewrite (fetchFromWrapper_clock env (T:=Json) _ st).
  cbn [world clock initialWorld].
  destruct (fetchFromWrapper env (alertsEndpoint targetLines stationId)
              {| world := initialWorld (clock (world st)); view := tt |})
    as [[raws|e] st']; [|reflexivity].
  unfold await, throw, ret. cbn [fst].
  destruct raws as [| | | |items|]; try reflexivity.
  by destruct (Array_map (processAlert env) items).
Qed.

(** What [fetchAlerts] makes of the document that a response with a success
    status carries. *)
Lemma fetchAlerts_document {V : Type} (targetLines : option (list string))
    (stationId : option string) (st : State V) (r : Response) (ct : string) (data : Json) :
  outcome (network env (clock (world st))
             (API_BASE_URL env +:+ alertsEndpoint targetLines stationId)) = Answer r →
  contentType r = Some ct →
  Js.includes ct "application/json" = true →
  body r = inr data →
  ok r = true →
  isErrorResponse data = false →
  fst (fetchAlerts env targetLines stationId st) =
    match data with
    | JArr items => Array_map (processAlert env) items
    | JNull => Abrupt (Error "Cannot read properties of null (reading 'map')")
    | _ => Abrupt (Error "rawAlerts.map is not a function")
    end.
Proof.
  intros Hnet Hct Hjson Hbody Hok Herr.
  unfold fetchAlerts, bind.
  rewrite (fetchFromWrapper_ok env (T:=Json) _ st r ct data Hnet Hct Hjson Hbody Hok Herr).
  unfold as_type, Asserted_Json, await, throw, ret.
  destruct data as [| | | |items|]; try reflexivity.
  by destruct (Array_map (processAlert env) items).
Qed.

Lemma Array_map_null_alert (items : list Json) :
  JNull ∈ items →
  Array_map (processAlert env) items =
  Abrupt (Error "Cannot read properties of null (reading 'affectedLines')").
Proof.
  induction items as [|item items IH]; intros Hin; [by apply elem_of_nil in Hin|].
  cbn [Array_map]. destruct item; try done;
    (apply elem_of_cons in Hin as [?|Hin]; [done|]); cbn [processAlert];
    by rewrite IH.
Qed.

Lemma orEmptyArray_cases (v : option Json) :
  (truthyValue v = false → orEmptyArray v = JArr []) ∧
  (v = None ∨ v = Some JNull → orEmptyArray v = JArr []) ∧
  (∀ d, v = Some d → truthyValue v = true → orEmptyArray v = d).
Proof.
  unfold orEmptyArray. split_and!.
  - by intros ->.
  - by intros [->| ->].
  - by intros d -> ->.
Qed.

Lemma dateOrUndefined_cases (v : option Json) :
  (dateOrUndefined env v = None ↔ truthyValue v = false) ∧
  (v = None ∨ v = Some JNull ∨ v = Some (JStr "") → dateOrUndefined env v = None) ∧
  (∀ t, v = Some (JStr t) → t ≠ "" →
        dateOrUndefined env v = Some {| Js.timeValue := Date_parse env t |}).
Proof.
  unfold dateOrUndefined. split_and!.
  - by destruct (truthyValue v).
  - by intros [->|[->| ->]].
  - intros t -> Ht. by rewrite truthyValue_text.
Qed.

End AlertFacts.


Section AlertListFacts.
Context (env : Env) (props : ViewAlertsCommandProps).

(** X22. [loadAlerts] never throws and makes one request.  When the request
    fails, the alerts loaded before stay in the state, unlike the stations and
    the departures, which are emptied: the message becomes the error of the
    view and a failure toast.  When it succeeds the fetched alerts replace the
    old ones and the error is cleared. *)
Theorem loadAlerts_spec (showLoadingToast : bool) (st : State AlertsView) :
  fst (loadAlerts env props showLoadingToast st) = Normal tt ∧
  requests (world (snd (loadAlerts env props showLoadingToast st))) =
    requests (world st) ++
      [API_BASE_URL env +:+
       alertsEndpoint (initialFilterLines props) (initialFilterStationId props)] ∧
  storage (world (snd (loadAlerts env props showLoadingToast st))) = storage (world st) ∧
  alertsLoading (view (snd (loadAlerts env props showLoadingToast st))) = false ∧
  match alertsReply env (initialFilterLines props) (initialFilterStationId props)
          (clock (world st)) with
  | Normal alerts =>
      processedAlerts (view (snd (loadAlerts env props showLoadingToast st))) = alerts ∧
      alertsError (view (snd (loadAlerts env props showLoadingToast st))) = None ∧
      toasts (world (snd (loadAlerts env props showLoadingToast st))) =
        toasts (world st) ++
          (if showLoadingToast
           then [ {| style := Animated; title := "Refreshing Alerts..."; message := None |} ]
           else [])
  | Abrupt e =>
      processedAlerts (view (snd (loadAlerts env props showLoadingToast st))) =
        processedAlerts (view st) ∧
      alertsError (view (snd (loadAlerts env props showLoadingToast st))) =
        Some (default "Could not load service alerts." (instanceofError e)) ∧
      toasts (world (snd (loadAlerts env props showLoadingToast st))) =
        toasts (world st) ++
          (if showLoadingToast
           then [ {| style := Animated; title := "Refreshing Alerts..."; message := None |} ]
           else []) ++
          [failureToast "Error Loading Alerts" "Could not load service alerts." e]
  end.
Proof.
  unfold loadAlerts. destruct showLoadingToast; run_async;
    rewrite fetchAlerts_eq; cbn [world view fst snd clock];
    destruct (alertsReply env (initialFilterLines props) (initialFilterStationId props)
                (clock (world st))) as [alerts|e]; cbn;
    rewrite <- ?app_assoc, ?app_nil_r; split_and!; reflexivity.
Qed.

(** X23. After a failed load whose message is not empty the alert list shows
    the error view alone, although the alerts loaded before are still in the
    state. *)
Theorem loadAlerts_failure_screen (showLoadingToast : bool) (st : State AlertsView)
    (e : Exn) (msg : string) :
  alertsReply env (initialFilterLines props) (initialFilterStationId props)
    (clock (world st)) = Abrupt e →
  instanceofError e = Some msg →
  msg ≠ "" →
  processedAlerts (view (snd (loadAlerts env props showLoadingToast st))) =
    processedAlerts (view st) ∧
  alertsScreen (view (snd (loadAlerts env props showLoadingToast st))) =
    {| alertsErrorView := Some msg; noAlertsView := false; currentAlerts := None |}.
Proof.
  intros Hreply Herror Hmsg. apply truthy_true in Hmsg.
  unfold loadAlerts. destruct showLoadingToast; run_async;
    rewrite fetchAlerts_eq; cbn [world view fst snd clock];
    rewrite Hreply; cbn; rewrite Herror; cbn;
    unfold alertsScreen; cbn; rewrite Hmsg; by cbn.
Qed.
End AlertListFacts.

Lemma loadAlerts_failure_screen_witness :
  processedAlerts
    (view (snd (loadAlerts offline noFilter true
                  {| world := worldAt 1000 ∅;
                     view := {| processedAlerts := [alertTitled "Delays on the A line"];
                                alertsLoading := false; alertsError := None |} |}))) =
  [alertTitled "Delays on the A line"] ∧
  alertsScreen
    (view (snd (loadAlerts offline noFilter true
                  {| world := worldAt 1000 ∅;
                     view := {| processedAlerts := [alertTitled "Delays on the A line"];
                                alertsLoading := false; alertsError := None |} |}))) =
  {| alertsErrorView := Some "fetch failed"; noAlertsView := false; currentAlerts := None |}.
Proof.
  apply (loadAlerts_failure_screen offline noFilter true
           {| world := worldAt 1000 ∅;
              view := {| processedAlerts := [alertTitled "Delays on the A line"];
                         alertsLoading := false; alertsError := None |} |}
           (APIError "fetch failed" None) "fetch failed");
    [reflexivity | reflexivity | discriminate].
Defined.

(** X24. What the alert list renders.  With an error whose message is not
    empty, no alert and no empty view, and the error view once loading has
    ended.  Without such an error, the loaded alerts when there are any, also
    while a reload is under way, and otherwise the view for no alert once
    loading has ended.  The three are never rendered together. *)
Theorem alertsScreen_cases (v : AlertsView) :
  (truthyText (alertsError v) = true →
   alertsScreen v =
     {| alertsErrorView := if alertsLoading v then None else alertsError v;
        noAlertsView := false; currentAlerts := None |}) ∧
  (truthyText (alertsError v) = false → processedAlerts v ≠ [] →
   alertsScreen v =
     {| alertsErrorView := None; noAlertsView := false;
        currentAlerts := Some (processedAlerts v) |}) ∧
  (truthyText (alertsError v) = false → processedAlerts v = [] →
   alertsScreen v =
     {| alertsErrorView := None; noAlertsView := negb (alertsLoading v);
        currentAlerts := None |}).
Proof.
  unfold alertsScreen. split_and!.
  - intros ->. cbn [negb andb]. rewrite andb_false_r.
    by destruct (alertsLoading v).
  - intros -> Hsome. destruct (processedAlerts v); [done|].
    cbn. by rewrite andb_false_r.
  - intros -> ->. cbn. by rewrite !andb_true_r.
Qed.

Lemma alertsScreen_cases_witness :
  alertsScreen
    {| processedAlerts := [alertTitled "Delays on the A line"]; alertsLoading := true;
       alertsError := None |} =
  {| alertsErrorView := None; noAlertsView := false;
     currentAlerts := Some [alertTitled "Delays on the A line"] |}.
Proof.
  apply (alertsScreen_cases
           {| processedAlerts := [alertTitled "Delays on the A line"]; alertsLoading := true;
              alertsError := None |}); [reflexivity | discriminate].
Defined.

(** X25. The colour of an alert is decided by the first word its title
    contains, with case ignored: red for "suspend", then orange for "delay",
    and yellow for a title with neither. *)
Theorem getSeverityColor_first_match (alert : ProcessedServiceAlert) :
  (containsIgnoringCase (alert_title (raw_alert alert)) "suspend" →
   getSeverityColor alert = Severity_Red) ∧
  (¬ containsIgnoringCase (alert_title (raw_alert alert)) "suspend" →
   containsIgnoringCase (alert_title (raw_alert alert)) "delay" →
   getSeverityColor alert = Severity_Orange) ∧
  (¬ containsIgnoringCase (alert_title (raw_alert alert)) "suspend" →
   ¬ containsIgnoringCase (alert_title (raw_alert alert)) "delay" →
   getSeverityColor alert = Severity_Yellow).
Proof.
  pose proof (includes_toLowerCase (alert_title (raw_alert alert)) "suspend" eq_refl) as Hs.
  pose proof (includes_toLowerCase (alert_title (raw_alert alert)) "delay" eq_refl) as Hd.
  unfold getSeverityColor.
  destruct (Js.includes (Js.toLowerCase (alert_title (raw_alert alert))) "suspend");
    destruct (Js.includes (Js.toLowerCase (alert_title (raw_alert alert))) "delay");
    split_and!; intros; try reflexivity;
    repeat match goal with
      | H : true = true ↔ _ |- _ => apply proj1 in H; specialize (H eq_refl)
      | H : false = true ↔ _ |- _ => apply proj2 in H
      end;
    try contradiction;
    try match goal with
      | H : containsIgnoringCase _ ?w → false = true, K : containsIgnoringCase _ ?w |- _ =>
          discriminate (H K)
      end.
Qed.

Lemma getSeverityColor_first_match_witness :
  getSeverityColor (alertTitled "Delays: service SUSPENDED at Canal St") = Severity_Red.
Proof.
  apply (getSeverityColor_first_match (alertTitled "Delays: service SUSPENDED at Canal St")).
  by exists "Delays: service ", "SUSPEND", "ED at Canal St".
Defined.

(** ** The titles of the departure sections *)

Lemma append_length (a b : string) :
  String.length (a +:+ b) = (String.length a + String.length b)%nat.
Proof. induction a as [|c a IH]; [done|]. rewrite append_cons. simpl. by rewrite IH. Qed.

Lemma append_inj_r (a b c : string) : a +:+ c = b +:+ c → a = b.
Proof.
  revert b. induction a as [|x a IH]; intros [|y b] H.
  - reflexivity.
  - apply (f_equal String.length) in H. rewrite append_empty_l, append_cons in H.
    simpl in H. rewrite append_length in H. lia.
  - apply (f_equal String.length) in H. rewrite append_empty_l, append_cons in H.
    simpl in H. rewrite append_length in H. lia.
  - rewrite !append_cons in H. injection H as -> H. by rewrite (IH b H).
Qed.

(** Two labels with the same title are the same label. *)
Lemma sectionTitle_inj (a b : string) : sectionTitle a = sectionTitle b → a = b.
Proof.
  assert (∀ l, "Outbound Departures" ≠ l +:+ "-Bound Departures") as Hother.
  { intros l H. pose proof (f_equal String.length H) as Hlen.
    rewrite append_length in Hlen.
    destruct l as [|c1 [|c2 [|c3 l]]]; simpl in Hlen; try lia.
    rewrite !append_cons in H. discriminate. }
  unfold sectionTitle.
  destruct (String.eqb a "Outbound") eqn:Ha, (String.eqb b "Outbound") eqn:Hb.
  - apply String.eqb_eq in Ha, Hb. congruence.
  - intros H. by apply Hother in H.
  - intros H. symmetry in H. by apply Hother in H.
  - apply append_inj_r.
Qed.

Section SectionTitleFacts.
Context (utils : DateUtils) (localeCompare : string → string → Z) (station : StationProps).

(** The section in which a loaded departure is shown, when the list
    renders. *)
Lemma section_of_departure (limit : Z) (departures : list ProcessedDeparture)
    (rendered : list (string * string * list ProcessedDeparture))
    (dep : ProcessedDeparture) :
  sections utils localeCompare station (showing limit departures) = Normal rendered →
  dep ∈ departures →
  (boroughOf dep, sectionTitle (boroughOf dep), departuresTo (boroughOf dep) departures)
    ∈ rendered ∧
  dep ∈ departuresTo (boroughOf dep) departures.
Proof.
  intros Hrendered Hdep. apply sections_inv in Hrendered as (-> & _ & _). split.
  - apply list_elem_of_In, List.in_map_iff.
    exists (boroughOf dep, departuresTo (boroughOf dep) departures).
    split; [reflexivity|].
    apply list_elem_of_In.
    rewrite Array_sort_Permutation, grouped_shape, Object_entries_keys.
    apply list_elem_of_In, List.in_map_iff. exists (boroughOf dep).
    split; [reflexivity|].
    apply list_elem_of_In. rewrite entryOrder_Permutation.
    apply elem_of_firstSeen, list_elem_of_In, List.in_map.
    by apply list_elem_of_In.
  - unfold departuresTo. apply list_elem_of_In, List.filter_In.
    split; [by apply list_elem_of_In | apply String.eqb_refl].
Qed.

End SectionTitleFacts.


(** ** Instances *)

Lemma fetchFromWrapper_one_request_witness :
  ∃ msg code, APIError "fetch failed" None = APIError msg code.
Proof.
  apply (fetchFromWrapper_one_request (T:=Json) offline "/stations"
           {| world := worldAt 1000 ∅; view := tt |}).
  reflexivity.
Defined.

Lemma isErrorResponse_iff_envelope_witness : isErrorResponse (envelope "boom") = true.
Proof.
  apply (isErrorResponse_iff_envelope (envelope "boom")).
  exists "boom".
  by exists [("error", JObj [("message", JStr "boom")])], [("message", JStr "boom")].
Defined.

Lemma stationsEndpoint_cache_buster_witness :
  stationsEndpoint (Some "penn") (Some LIRR) true 1735689600000 ≠
  stationsEndpoint (Some "penn") (Some LIRR) true 1735689600001.
Proof.
  intros H.
  apply (stationsEndpoint_cache_buster (Some "penn") (Some LIRR)) in H.
  discriminate.
Defined.

Lemma findScreen_item_flags_witness :
  item_isFavorite
    {| item_station := stationNamed "127" "Times Sq-42 St"; item_isFavorite := false |} =
    false ∧
  id (item_station
        {| item_station := stationNamed "127" "Times Sq-42 St"; item_isFavorite := false |})
    ∉ ({["631"]} : gset string).
Proof.
  apply (proj2 (findScreen_item_flags byteCompare {["631"]}
                  (findView "" All
                     [stationNamed "127" "Times Sq-42 St";
                      stationNamed "631" "Grand Central-42 St"]))
           "Other Stations"
           [ {| item_station := stationNamed "127" "Times Sq-42 St";
                item_isFavorite := false |} ]).
  - vm_compute. reflexivity.
  - left.
Defined.
